(** * Doncaster crime map: the AI service and the modal reducer

    A shallow embedding of [services/geminiService.ts] (the proximity
    filter, [haversineDistance], [parseJsonResponse] and the five AI
    entry points), of [modalReducer] / [handleAIFeature], the sort state,
    the category filter, the heat map buttons and the selection from
    [App.tsx], and of the markers, the heat layers and the briefing cache
    of the popups from [components/CrimeMap.tsx], followed by the
    properties proved about them.

    Conventions.
    - A JavaScript string is its sequence of UTF-16 code units.
    - What the program takes from its platform (IEEE numbers and [Math],
      [parseFloat], the parsing and formatting of moment.js,
      [JSON.stringify]) is a field of the record [Runtime]; the program is
      a function of that record.  The worked example holds on every
      platform that meets the standard model of floating-point
      arithmetic; a reference instance over exact real arithmetic shows
      that the assumptions made of a platform can be met.
    - [JSON.parse] and the regular expression of [parseJsonResponse] are
      executable models (ECMA-404 and the ECMAScript backtracking
      semantics). *)

From Stdlib Require Import List ZArith NArith Bool String Ascii Lia.
From Stdlib Require Import Reals Lra Psatz DecimalString.
Import ListNotations.

Set Implicit Arguments.

(* ================================================================== *)
(** * Part I. Definitions                                              *)
(* ================================================================== *)

(** ** JavaScript strings *)

Definition jsstring := list N.

Definition str (s : string) : jsstring :=
  map N_of_ascii (list_ascii_of_string s).
Arguments str s%_string.

(** The double quote, which a string literal of this file cannot hold. *)
Definition dquote : jsstring := [34%N].

Definition in_range (lo hi c : N) : bool := (N.leb lo c && N.leb c hi)%bool.

(** ECMAScript [WhiteSpace] and [LineTerminator]: what [trim] removes and
    what [\s] matches. *)
Definition isSpace (c : N) : bool :=
  (in_range 9 13 c || N.eqb c 32 || N.eqb c 160 || N.eqb c 5760
   || in_range 8192 8202 c || N.eqb c 8232 || N.eqb c 8233
   || N.eqb c 8239 || N.eqb c 8287 || N.eqb c 12288 || N.eqb c 65279)%bool.

(** [\w] is [A-Za-z0-9_]. *)
Definition isWord (c : N) : bool :=
  (in_range 48 57 c || in_range 65 90 c || N.eqb c 95 || in_range 97 122 c)%bool.

Definition isDigit (c : N) : bool := in_range 48 57 c.

Fixpoint trimStart (s : jsstring) : jsstring :=
  match s with
  | c :: s' => if isSpace c then trimStart s' else s
  | [] => []
  end.

Definition trimEnd (s : jsstring) : jsstring := rev (trimStart (rev s)).

Definition trim (s : jsstring) : jsstring := trimEnd (trimStart s).

Fixpoint jseqb (a b : jsstring) : bool :=
  match a, b with
  | [], [] => true
  | x :: a', y :: b' => (N.eqb x y && jseqb a' b')%bool
  | _, _ => false
  end.

(** [s.startsWith(p)], returning what follows the prefix. *)
Fixpoint stripPrefix (p s : jsstring) : option jsstring :=
  match p with
  | [] => Some s
  | x :: p' =>
      match s with
      | y :: s' => if N.eqb x y then stripPrefix p' s' else None
      | [] => None
      end
  end.

(** A string is truthy when it is not empty. *)
Definition truthy (s : jsstring) : bool :=
  match s with [] => false | _ => true end.

(** ** Regular expressions (the fragment [parseJsonResponse] uses)

    A backtracking matcher in continuation-passing style, with the
    priorities of ECMAScript: a greedy star tries the longest run first,
    a lazy star the shortest, an optional atom is tried before it is
    skipped, and an optional iteration that consumed nothing is rejected. *)
Module Regex.

Inductive regex :=
| Eps
| Bol                                  (* ^ *)
| Eol                                  (* $ *)
| Char (c : N)
| StarGreedy (p : N -> bool)           (* p*  *)
| StarLazy (p : N -> bool)             (* p*? *)
| Opt (r : regex)                      (* r?  *)
| Group (n : nat) (r : regex)
| Seq (r1 r2 : regex).

Definition captures := nat -> option jsstring.

Definition nocaps : captures := fun _ => None.

Definition setcap (n : nat) (v : jsstring) (cs : captures) : captures :=
  fun k => if Nat.eqb k n then Some v else cs k.

Record mstate := MState { pos : nat; rest : jsstring; caps : captures }.

Definition cont := mstate -> option captures.

Fixpoint starG (p : N -> bool) (k : cont) (i : nat) (s : jsstring)
    (cs : captures) : option captures :=
  match s with
  | c :: s' =>
      if p c then
        match starG p k (S i) s' cs with
        | Some r => Some r
        | None => k (MState i s cs)
        end
      else k (MState i s cs)
  | [] => k (MState i s cs)
  end.

Fixpoint starL (p : N -> bool) (k : cont) (i : nat) (s : jsstring)
    (cs : captures) : option captures :=
  match k (MState i s cs) with
  | Some r => Some r
  | None =>
      match s with
      | c :: s' => if p c then starL p k (S i) s' cs else None
      | [] => None
      end
  end.

Fixpoint run (r : regex) (st : mstate) (k : cont) : option captures :=
  match r with
  | Eps => k st
  | Bol => if Nat.eqb (pos st) 0 then k st else None
  | Eol => match rest st with [] => k st | _ :: _ => None end
  | Char c =>
      match rest st with
      | x :: s' =>
          if N.eqb x c then k (MState (S (pos st)) s' (caps st)) else None
      | [] => None
      end
  | StarGreedy p => starG p k (pos st) (rest st) (caps st)
  | StarLazy p => starL p k (pos st) (rest st) (caps st)
  | Opt r' =>
      match run r' st (fun st' =>
                         if Nat.eqb (pos st') (pos st) then None else k st')
      with
      | Some x => Some x
      | None => k st
      end
  | Group n r' =>
      run r' st (fun st' =>
        k (MState (pos st') (rest st')
             (setcap n (firstn (pos st' - pos st) (rest st)) (caps st'))))
  | Seq r1 r2 => run r1 st (fun st' => run r2 st' k)
  end.

Definition cat (rs : list regex) : regex := fold_right Seq Eps rs.

(** [s.match(r)] for a regex without the [g] flag: the first start index,
    from 0 on, at which the pattern matches. *)
Fixpoint scan (r : regex) (i : nat) (s : jsstring) : option captures :=
  match run r (MState i s nocaps) (fun st => Some (caps st)) with
  | Some cs => Some cs
  | None =>
      match s with
      | _ :: s' => scan r (S i) s'
      | [] => None
      end
  end.

Definition exec (r : regex) (s : jsstring) : option captures := scan r 0 s.

End Regex.

(** ** JSON values and [JSON.parse]

    [JSON.parse] as a pushdown automaton over the code units of the text,
    following the grammar of ECMA-404: one [step] per code unit, a stack
    of the arrays and objects that are still open, and [finish] at the end
    of the text.  A number keeps the decimal value of its literal. *)

Record Decimal := MkDecimal { dneg : bool; dmant : N; dexp : Z }.

#[warnings="-register-all"]
Inductive JSON :=
| JNull
| JBool (b : bool)
| JNum (d : Decimal)
| JStr (s : jsstring)
| JArr (items : list JSON)
| JObj (members : list (jsstring * JSON)).

Module JSONParser.

(** The four white space characters of JSON. *)
Definition isJsonSpace (c : N) : bool :=
  (N.eqb c 9 || N.eqb c 10 || N.eqb c 13 || N.eqb c 32)%bool.

Inductive NumPhase :=
| NMinus | NZero | NInt | NDot | NFrac | NExpMark | NExpSign | NExpDigits.

Record NumAcc := MkNum {
  phase : NumPhase;
  neg : bool;
  mant : N;
  scale : Z;          (* digits after the point *)
  eneg : bool;
  evalue : N
}.

Definition digitVal (c : N) : N := (c - 48)%N.

Definition isExpMark (c : N) : bool := (N.eqb c 101 || N.eqb c 69)%bool.

Definition numStart (c : N) : option NumAcc :=
  if N.eqb c 45 then Some (MkNum NMinus true 0 0 false 0)
  else if N.eqb c 48 then Some (MkNum NZero false 0 0 false 0)
  else if in_range 49 57 c then Some (MkNum NInt false (digitVal c) 0 false 0)
  else None.

Definition numStep (a : NumAcc) (c : N) : option NumAcc :=
  let '(MkNum ph ng m sc en ev) := a in
  match ph with
  | NMinus =>
      if N.eqb c 48 then Some (MkNum NZero ng m sc en ev)
      else if in_range 49 57 c then Some (MkNum NInt ng (digitVal c) sc en ev)
      else None
  | NZero =>
      if N.eqb c 46 then Some (MkNum NDot ng m sc en ev)
      else if isExpMark c then Some (MkNum NExpMark ng m sc en ev)
      else None
  | NInt =>
      if isDigit c then Some (MkNum NInt ng (m * 10 + digitVal c) sc en ev)
      else if N.eqb c 46 then Some (MkNum NDot ng m sc en ev)
      else if isExpMark c then Some (MkNum NExpMark ng m sc en ev)
      else None
  | NDot =>
      if isDigit c
      then Some (MkNum NFrac ng (m * 10 + digitVal c) (sc + 1) en ev)
      else None
  | NFrac =>
      if isDigit c
      then Some (MkNum NFrac ng (m * 10 + digitVal c) (sc + 1) en ev)
      else if isExpMark c then Some (MkNum NExpMark ng m sc en ev)
      else None
  | NExpMark =>
      if N.eqb c 43 then Some (MkNum NExpSign ng m sc false ev)
      else if N.eqb c 45 then Some (MkNum NExpSign ng m sc true ev)
      else if isDigit c then Some (MkNum NExpDigits ng m sc en (digitVal c))
      else None
  | NExpSign | NExpDigits =>
      if isDigit c
      then Some (MkNum NExpDigits ng m sc en (ev * 10 + digitVal c))
      else None
  end.

Definition numComplete (a : NumAcc) : bool :=
  match phase a with
  | NZero | NInt | NFrac | NExpDigits => true
  | _ => false
  end.

Definition numValue (a : NumAcc) : Decimal :=
  MkDecimal (neg a) (mant a)
    ((if eneg a then - Z.of_N (evalue a) else Z.of_N (evalue a)) - scale a).

Inductive Esc :=
| ENone
| EBackslash
| EHex (k : nat) (v : N).      (* k hex digits of a \u escape read *)

Definition hexVal (c : N) : option N :=
  if isDigit c then Some (c - 48)%N
  else if in_range 65 70 c then Some (c - 55)%N
  else if in_range 97 102 c then Some (c - 87)%N
  else None.

Definition escapeChar (c : N) : option N :=
  if N.eqb c 34 then Some 34%N            (* quote *)
  else if N.eqb c 92 then Some 92%N       (* backslash *)
  else if N.eqb c 47 then Some 47%N       (* slash *)
  else if N.eqb c 98 then Some 8%N        (* b *)
  else if N.eqb c 102 then Some 12%N      (* f *)
  else if N.eqb c 110 then Some 10%N      (* n *)
  else if N.eqb c 114 then Some 13%N      (* r *)
  else if N.eqb c 116 then Some 9%N       (* t *)
  else None.

Inductive Lit := LTrue | LFalse | LNull.

Definition litText (l : Lit) : jsstring :=
  match l with
  | LTrue => str "true"
  | LFalse => str "false"
  | LNull => str "null"
  end.

Definition litValue (l : Lit) : JSON :=
  match l with
  | LTrue => JBool true
  | LFalse => JBool false
  | LNull => JNull
  end.

Inductive Frame :=
| FArr (items_rev : list JSON)
| FObj (members : list (jsstring * JSON)) (key : option jsstring).

Inductive Mode :=
| MValue (closeOk : bool)     (* a value, or ']' right after '[' *)
| MKey (closeOk : bool)       (* a member name, or '}' right after '{' *)
| MColon
| MAfter                      (* after a value inside a container *)
| MString (isKey : bool) (acc_rev : jsstring) (esc : Esc)
| MNumber (a : NumAcc)
| MLiteral (l : Lit) (k : nat)
| MDone (v : JSON)
| MError.

Record PState := MkP { stack : list Frame; mode : Mode }.

Definition perror : PState := MkP [] MError.

(** A later member with the same name replaces the earlier value. *)
Fixpoint setMember (k : jsstring) (v : JSON) (ms : list (jsstring * JSON))
    : list (jsstring * JSON) :=
  match ms with
  | [] => [(k, v)]
  | (k', v') :: ms' =>
      if jseqb k' k then (k', v) :: ms' else (k', v') :: setMember k v ms'
  end.

(** A complete value goes to the innermost open container, or ends the
    text. *)
Definition deliver (v : JSON) (stk : list Frame) : PState :=
  match stk with
  | [] => MkP [] (MDone v)
  | FArr items :: tl => MkP (FArr (v :: items) :: tl) MAfter
  | FObj ms (Some k) :: tl => MkP (FObj (setMember k v ms) None :: tl) MAfter
  | FObj _ None :: _ => perror
  end.

Definition closeArray (stk : list Frame) : PState :=
  match stk with
  | FArr items :: tl => deliver (JArr (rev items)) tl
  | _ => perror
  end.

Definition closeObject (stk : list Frame) : PState :=
  match stk with
  | FObj ms None :: tl => deliver (JObj ms) tl
  | _ => perror
  end.

Definition startValue (stk : list Frame) (closeOk : bool) (c : N) : PState :=
  if N.eqb c 91 then MkP (FArr [] :: stk) (MValue true)
  else if N.eqb c 93 then (if closeOk then closeArray stk else perror)
  else if N.eqb c 123 then MkP (FObj [] None :: stk) (MKey true)
  else if N.eqb c 34 then MkP stk (MString false [] ENone)
  else if N.eqb c 116 then MkP stk (MLiteral LTrue 1)
  else if N.eqb c 102 then MkP stk (MLiteral LFalse 1)
  else if N.eqb c 110 then MkP stk (MLiteral LNull 1)
  else match numStart c with
       | Some a => MkP stk (MNumber a)
       | None => perror
       end.

Definition endString (stk : list Frame) (isKey : bool) (s : jsstring)
    : PState :=
  if isKey then
    match stk with
    | FObj ms None :: tl => MkP (FObj ms (Some s) :: tl) MColon
    | _ => perror
    end
  else deliver (JStr s) stk.

Definition stepString (stk : list Frame) (isKey : bool) (acc : jsstring)
    (esc : Esc) (c : N) : PState :=
  match esc with
  | ENone =>
      if N.eqb c 34 then endString stk isKey (rev acc)
      else if N.eqb c 92 then MkP stk (MString isKey acc EBackslash)
      else if N.ltb c 32 then perror
      else MkP stk (MString isKey (c :: acc) ENone)
  | EBackslash =>
      if N.eqb c 117 then MkP stk (MString isKey acc (EHex 0 0))
      else match escapeChar c with
           | Some x => MkP stk (MString isKey (x :: acc) ENone)
           | None => perror
           end
  | EHex k v =>
      match hexVal c with
      | Some h =>
          if Nat.eqb k 3
          then MkP stk (MString isKey ((v * 16 + h)%N :: acc) ENone)
          else MkP stk (MString isKey acc (EHex (S k) (v * 16 + h)))
      | None => perror
      end
  end.

(** One code unit, in every mode but [MNumber]. *)
Definition stepMain (st : PState) (c : N) : PState :=
  let stk := stack st in
  match mode st with
  | MValue closeOk =>
      if isJsonSpace c then st else startValue stk closeOk c
  | MKey closeOk =>
      if isJsonSpace c then st
      else if N.eqb c 34 then MkP stk (MString true [] ENone)
      else if N.eqb c 125 then (if closeOk then closeObject stk else perror)
      else perror
  | MColon =>
      if isJsonSpace c then st
      else if N.eqb c 58 then MkP stk (MValue false)
      else perror
  | MAfter =>
      if isJsonSpace c then st
      else if N.eqb c 44 then
        match stk with
        | FArr _ :: _ => MkP stk (MValue false)
        | FObj _ _ :: _ => MkP stk (MKey false)
        | [] => perror
        end
      else if N.eqb c 93 then closeArray stk
      else if N.eqb c 125 then closeObject stk
      else perror
  | MString isKey acc esc => stepString stk isKey acc esc c
  | MLiteral l k =>
      match nth_error (litText l) k with
      | Some c' =>
          if N.eqb c c' then
            if Nat.eqb (S k) (List.length (litText l))
            then deliver (litValue l) stk
            else MkP stk (MLiteral l (S k))
          else perror
      | None => perror
      end
  | MDone v => if isJsonSpace c then st else perror
  | MNumber _ => perror
  | MError => perror
  end.

(** A number ends at the first code unit that cannot continue it; that
    code unit is then read in the mode that follows the number. *)
Definition step (st : PState) (c : N) : PState :=
  match mode st with
  | MNumber a =>
      match numStep a c with
      | Some a' => MkP (stack st) (MNumber a')
      | None =>
          if numComplete a
          then stepMain (deliver (JNum (numValue a)) (stack st)) c
          else perror
      end
  | _ => stepMain st c
  end.

Definition init : PState := MkP [] (MValue false).

Definition finish (st : PState) : option JSON :=
  match mode st, stack st with
  | MDone v, _ => Some v
  | MNumber a, [] => if numComplete a then Some (JNum (numValue a)) else None
  | _, _ => None
  end.

End JSONParser.

(** [JSON.parse(text)]: [None] stands for the [SyntaxError] it throws. *)
Definition JSON_parse (text : jsstring) : option JSON :=
  JSONParser.finish (fold_left JSONParser.step text JSONParser.init).

(** ** moment.js values

    A moment is a civil date and time of day in the local zone, or is
    invalid.  The zone is taken to have a constant offset from UTC, so
    [valueOf] is the civil time counted in milliseconds.  Parsing and
    formatting belong to the [Runtime]; the calendar arithmetic of [add],
    [subtract] and [isBetween] is modelled here. *)
Module Moment.

Record Civil := MkCivil {
  year : Z;
  month : Z;        (* 0 .. 11 *)
  date : Z;         (* 1 .. 31 *)
  msOfDay : Z
}.

(** [None] is an invalid moment. *)
Definition moment := option Civil.

Definition isLeapYear (y : Z) : bool :=
  ((Z.eqb (y mod 4) 0 && negb (Z.eqb (y mod 100) 0)) || Z.eqb (y mod 400) 0)%bool.

Definition daysInMonth (y m : Z) : Z :=
  let modMonth := (m mod 12)%Z in
  let y' := (y + (m - modMonth) / 12)%Z in
  if Z.eqb modMonth 1 then (if isLeapYear y' then 29 else 28)%Z
  else (31 - (modMonth mod 7) mod 2)%Z.

(** Days from 1970-01-01 to the civil date [y]-[m]-[d], [m] in 1..12. *)
Definition daysFromCivil (y m d : Z) : Z :=
  let y' := (if Z.leb m 2 then y - 1 else y)%Z in
  let era := (y' / 400)%Z in
  let yoe := (y' - era * 400)%Z in
  let doy := ((153 * (if Z.leb m 2 then m + 9 else m - 3) + 2) / 5 + d - 1)%Z in
  let doe := (yoe * 365 + yoe / 4 - yoe / 100 + doy)%Z in
  (era * 146097 + doe - 719468)%Z.

Definition valueOf (c : Civil) : Z :=
  (daysFromCivil (year c) (month c + 1) (date c) * 86400000 + msOfDay c)%Z.

(** [setMonth(mom, value)]: the day of the month is clamped to the length
    of the target month, and [Date.setMonth] carries a month outside
    0..11 into the year. *)
Definition setMonth (c : Civil) (value : Z) : Civil :=
  let d := if Z.ltb (date c) 29 then date c
           else Z.min (date c) (daysInMonth (year c) value) in
  MkCivil (year c + value / 12)%Z (value mod 12)%Z d (msOfDay c).

Inductive unitOfTime := Month.

Definition add (n : Z) (u : unitOfTime) (m : moment) : moment :=
  match u, m with
  | Month, Some c => Some (setMonth c (month c + n))
  | Month, None => None
  end.

Definition subtract (n : Z) (u : unitOfTime) (m : moment) : moment :=
  match u, m with
  | Month, Some c => Some (setMonth c (month c - n))
  | Month, None => None
  end.

Definition clone (m : moment) : moment := m.

Definition isBefore (a b : Civil) : bool := Z.ltb (valueOf a) (valueOf b).
Definition isAfter (a b : Civil) : bool := Z.ltb (valueOf b) (valueOf a).

(** [isBetween(from, to, undefined, inclusivity)], compared by the
    millisecond. *)
Definition isBetween (m from to : moment) (inclusivity : jsstring) : bool :=
  match m, from, to with
  | Some c, Some f, Some t =>
      ((match nth_error inclusivity 0 with
        | Some 40%N => isAfter c f
        | _ => negb (isBefore c f)
        end)
       &&
       (match nth_error inclusivity 1 with
        | Some 41%N => isBefore c t
        | _ => negb (isAfter c t)
        end))%bool
  | _, _, _ => false
  end.

End Moment.

(** ** The values handed to [JSON.stringify]

    Object literals whose fields are strings and numbers of the platform. *)

#[warnings="-register-all"]
Inductive JSValue (num : Type) :=
| VString (s : jsstring)
| VNumber (n : num)
| VArray (items : list (JSValue num))
| VObject (members : list (jsstring * JSValue num)).
Arguments VString {num} s.
Arguments VNumber {num} n.
Arguments VArray {num} items.
Arguments VObject {num} members.

(** ** The platform *)

Record Runtime := MkRuntime {
  number : Type;
  (* numeric literals, NaN and the infinities, arithmetic *)
  fromDecimal : Decimal -> number;
  nan : number;
  posInfinity : number;
  negInfinity : number;
  nadd : number -> number -> number;
  nsub : number -> number -> number;
  nmul : number -> number -> number;
  ndiv : number -> number -> number;
  nle : number -> number -> bool;
  isNaN : number -> bool;
  isFinite : number -> bool;
  (* Math *)
  Math_PI : number;
  Math_sin : number -> number;
  Math_cos : number -> number;
  Math_sqrt : number -> number;
  Math_atan2 : number -> number -> number;
  (* String(x) of a number *)
  numberToString : number -> jsstring;
  (* moment.js: moment(s), moment(s, format), m.format(f) *)
  momentOf : jsstring -> Moment.moment;
  momentOfFormat : jsstring -> jsstring -> Moment.moment;
  momentFormat : Moment.moment -> jsstring -> jsstring;
  (* JSON.stringify(v, null, 2) *)
  JSON_stringify : JSValue number -> jsstring
}.

(** ** [parseFloat]

    The longest prefix of the text, after leading white space, that is a
    [StrDecimalLiteral]; the platform gives the literal its value. *)

Inductive Parsed :=
| PNaN
| PInfinity (negative : bool)
| PDecimal (d : Decimal).

Fixpoint takeDigits (s : jsstring) (acc : N) (count : nat)
    : N * nat * jsstring :=
  match s with
  | c :: s' =>
      if isDigit c then takeDigits s' (acc * 10 + (c - 48))%N (S count)
      else (acc, count, s)
  | [] => (acc, count, [])
  end.

Definition takeSign (s : jsstring) : bool * jsstring :=
  match s with
  | 45%N :: r => (true, r)
  | 43%N :: r => (false, r)
  | _ => (false, s)
  end.

(** The exponent part, when it is complete; 0 otherwise. *)
Definition takeExponent (s : jsstring) : Z :=
  match s with
  | c :: r =>
      if (N.eqb c 101 || N.eqb c 69)%bool then
        let '(eneg, r1) := takeSign r in
        let '(ev, ne, _) := takeDigits r1 0 0 in
        if Nat.eqb ne 0 then 0%Z
        else if eneg then (- Z.of_N ev)%Z else Z.of_N ev
      else 0%Z
  | [] => 0%Z
  end.

Definition parseFloatSyntax (text : jsstring) : Parsed :=
  let s := trimStart text in
  let '(negative, s1) := takeSign s in
  match stripPrefix (str "Infinity") s1 with
  | Some _ => PInfinity negative
  | None =>
      let '(ip, ni, s2) := takeDigits s1 0 0 in
      let '(m, nf, s3) :=
        match s2 with
        | 46%N :: r => takeDigits r ip 0
        | _ => (ip, 0%nat, s2)
        end in
      if Nat.eqb (ni + nf) 0 then PNaN
      else PDecimal (MkDecimal negative m (takeExponent s3 - Z.of_nat nf))
  end.

Definition parseFloat (rt : Runtime) (text : jsstring) : number rt :=
  match parseFloatSyntax text with
  | PNaN => nan rt
  | PInfinity false => posInfinity rt
  | PInfinity true => negInfinity rt
  | PDecimal d => fromDecimal rt d
  end.

(** ** The records of [types.ts] that the service reads *)

Record Street := MkStreet { name : option jsstring }.

Record Location := MkLocation {
  latitude : option jsstring;
  longitude : option jsstring;
  street : option Street
}.

Record OutcomeStatus := MkOutcomeStatus { outcome_category : jsstring }.

Record Crime := MkCrime {
  category : jsstring;
  month : jsstring;
  location : Location;
  outcome_status : option OutcomeStatus
}.

Record StopSearch := MkStopSearch {
  datetime : jsstring;
  type : jsstring;
  object_of_search : option jsstring;
  outcome : jsstring;
  ss_location : option Location
}.

(** ** Results, exceptions and requests to the model *)

Inductive Thrown :=
| ErrorObject (message : jsstring)     (* an instance of Error *)
| OtherValue.                          (* anything else that was thrown *)

Inductive Outcome (A : Type) :=
| Return (a : A)
| Throw (e : Thrown).
Arguments Return {A} a.
Arguments Throw {A} e.

Record Request := MkRequest {
  model : jsstring;
  contents : jsstring;
  responseMimeType : option jsstring
}.

(** The remote endpoint: the text of its response, or what the call
    throws. *)
Definition Endpoint := Request -> Outcome jsstring.

(** An asynchronous computation: it may query the endpoint, every query
    is appended to the log, and it returns or throws. *)
Definition Async (A : Type) := Endpoint -> list Request -> Outcome A * list Request.

Definition ret {A} (a : A) : Async A := fun _ log => (Return a, log).

Definition throw {A} (e : Thrown) : Async A := fun _ log => (Throw e, log).

Definition bind {A B} (m : Async A) (f : A -> Async B) : Async B :=
  fun ep log =>
    match m ep log with
    | (Return a, log') => f a ep log'
    | (Throw e, log') => (Throw e, log')
    end.

Definition lift {A} (o : Outcome A) : Async A := fun _ log => (o, log).

(** [await ai.models.generateContent(req)], then [response.text]. *)
Definition generateContent (req : Request) : Async jsstring :=
  fun ep log => (ep req, log ++ [req]).

Declare Scope async_scope.
Delimit Scope async_scope with async.
Notation "x <- m ;; k" := (bind m (fun x => k))
  (at level 61, m at next level, right associativity) : async_scope.

(** ** services/geminiService.ts *)

Inductive GoogleGenAI := NewGoogleGenAI (apiKey : jsstring).

(** [fenceRegex], written here with a blank after each star: start of
    text, three backticks, an optional group 1 of [\w* ], [\s* ], an
    optional line feed, group 2 of [.*? ], an optional line feed, [\s* ],
    three backticks, end of text; flag [s], so the dot matches every code
    unit. *)
Definition fenceRegex : Regex.regex :=
  Regex.cat
    [ Regex.Bol;
      Regex.Char 96; Regex.Char 96; Regex.Char 96;
      Regex.Opt (Regex.Group 1 (Regex.StarGreedy isWord));
      Regex.StarGreedy isSpace;
      Regex.Opt (Regex.Char 10);
      Regex.Group 2 (Regex.StarLazy (fun _ => true));
      Regex.Opt (Regex.Char 10);
      Regex.StarGreedy isSpace;
      Regex.Char 96; Regex.Char 96; Regex.Char 96;
      Regex.Eol ].

Definition parseFailure : Thrown :=
  ErrorObject (str "Failed to parse AI response as JSON.").

(** The text that [parseJsonResponse] hands to [JSON.parse]. *)
Definition stripFence (text : jsstring) : jsstring :=
  let jsonStr := trim text in
  match Regex.exec fenceRegex jsonStr with
  | Some m =>
      match m 2%nat with
      | Some g => if truthy g then trim g else jsonStr
      | None => jsonStr
      end
  | None => jsonStr
  end.

Definition parseJsonResponse (text : jsstring) : Outcome JSON :=
  match JSON_parse (stripFence text) with
  | Some v => Return v
  | None => Throw parseFailure
  end.

(** [s.replace(/-/g, ' ').replace(/\b\w/g, l => l.toUpperCase())]. *)
Definition toUpperCase (c : N) : N :=
  if in_range 97 122 c then (c - 32)%N else c.

Fixpoint capitalizeWords (afterWord : bool) (s : jsstring) : jsstring :=
  match s with
  | [] => []
  | c :: s' =>
      (if (isWord c && negb afterWord)%bool then toUpperCase c else c)
        :: capitalizeWords (isWord c) s'
  end.

Definition titleCase (s : jsstring) : jsstring :=
  capitalizeWords false (map (fun c => if N.eqb c 45 then 32%N else c) s).

(** [!x] for an optional string: absent or empty. *)
Definition falsy (x : option jsstring) : bool :=
  match x with
  | Some (_ :: _) => false
  | _ => true
  end.

(** [ToString] of an optional string, as [parseFloat] applies it. *)
Definition toStringArg (x : option jsstring) : jsstring :=
  match x with
  | Some s => s
  | None => str "undefined"
  end.

(** [x || d] and [x ?? d] for an optional string. *)
Definition orElse (x : option jsstring) (d : jsstring) : jsstring :=
  if falsy x then d else toStringArg x.

Definition coalesce (x : option jsstring) (d : jsstring) : jsstring :=
  match x with
  | Some s => s
  | None => d
  end.

(** [loc?.street?.name ?? 'Unknown Street']. *)
Definition streetNameOr (loc : option Location) (d : jsstring) : jsstring :=
  match loc with
  | Some l =>
      match street l with
      | Some st => coalesce (name st) d
      | None => d
      end
  | None => d
  end.

(** [location.street.name] inside a template: a [TypeError] when the
    street is absent. *)
Definition streetNameStrict (loc : Location) : Outcome jsstring :=
  match street loc with
  | Some st => Return (toStringArg (name st))
  | None =>
      Throw (ErrorObject
               (str "Cannot read properties of undefined (reading 'name')"))
  end.

Definition modelName : jsstring := str "gemini-2.5-flash-preview-04-17".

Definition unavailable : jsstring :=
  str "AI service is not available (API key missing).".

Definition invalidLocation : jsstring :=
  str "Briefing not available due to invalid location data.".

(** A text in which [~] stands for the double quote. *)
Definition strq (s : string) : jsstring :=
  map (fun c => if N.eqb c 126 then 34%N else c) (str s).
Arguments strq s%_string.

(** The five prompt templates, as functions of what they interpolate. *)

Definition incidentPrompt (crimeType date streetName outcomeText radiusMetres crimesSection stopSearchesSection : jsstring) : jsstring :=
  str "You are a highly experienced detective AI. Analyze a specific crime incident and provide a comprehensive incident briefing. Combine factual context, insightful deductions about what likely happened, and relevant proximity event data.

**Main Incident Details:**
- Crime Type: "
  ++ crimeType
  ++ str "
- Date: "
  ++ date
  ++ str "
- Location: "
  ++ streetName
  ++ str "
- Outcome: "
  ++ outcomeText
  ++ str "

**Proximity Events (within "
  ++ radiusMetres
  ++ str "m and +/- 1 month):**
"
  ++ crimesSection
  ++ str "
"
  ++ stopSearchesSection
  ++ str "

**Instructions for your Briefing Output (use Markdown):**
1.  **Incident Overview:** Summarize the core facts concisely using bullet points.
2.  **Detective's Insights (Likely Scenario):** Provide 2-3 concise, informed observations about the *likelihood of specific details* or *common patterns* for such incidents. Focus on what likely happened.
3.  **Proximity Analysis:** Briefly explain how nearby events relate to the main incident or highlight localized activity.

**Incident Briefing:**".

Definition stopSearchPrompt (ssType dateTime streetName objectOfSearch outcomeText radiusMetres crimesSection : jsstring) : jsstring :=
  str "You are a highly experienced police analyst AI. Analyze a specific Stop and Search incident and provide a comprehensive briefing.

**Main Incident Details:**
- Type: "
  ++ ssType
  ++ str "
- Date & Time: "
  ++ dateTime
  ++ str "
- Location: "
  ++ streetName
  ++ str "
- Object of Search: "
  ++ objectOfSearch
  ++ str "
- Outcome: "
  ++ outcomeText
  ++ str "

**Contextual Data (within "
  ++ radiusMetres
  ++ str "m and +/- 1 month):**
"
  ++ crimesSection
  ++ str "

**Instructions for your Briefing Output (use Markdown):**
1.  **Incident Summary:** Summarize the core facts of the stop and search.
2.  **Analyst's Insights:** Provide 1-2 concise, informed observations. For example, does this stop align with local crime patterns? Was the outcome expected given the context?
3.  **Local Context:** Briefly explain how nearby crimes might relate to this policing activity.

**Analyst Briefing:**".

Definition trendsPrompt (data : jsstring) : jsstring :=
  str "Analyze the following crime incidents from Doncaster and provide a concise summary of the key trends observed. Use Markdown for formatting. Highlight:
- The most common crime types.
- Any notable locations or street-level patterns.
- Overall observations on recent activity.
    
Crime Incidents (Sample):
"
  ++ data
  ++ str "

**Summary of Crime Trends:**".

Definition insightsPrompt (data : jsstring) : jsstring :=
  strq "Analyze the crime data from Doncaster. Provide a JSON array of objects, where each object has an ~area~ (a street or general area) and an ~insight~ (a pattern, likelihood, or hotspot detail). Focus on hotspots, temporal patterns, and crime likelihood.
    
Example: [{ ~area~: ~High Street~, ~insight~: ~Shows a consistent pattern of shoplifting...~ }]

**Important:** Analyze *only* the provided data. Do not make inferences about residents.

Crime Incidents (Sample):
"
  ++ data
  ++ str "

JSON Output:".

Definition hotspotsPrompt (data : jsstring) : jsstring :=
  strq "Analyze recent crime incidents in Doncaster. Based on patterns, identify **exactly 3 to 5 distinct areas** likely to become future crime hotspots in the next 1-3 months. 
    
For each predicted hotspot, provide:
1.  A concise area description.
2.  The most likely crime type.
3.  A brief reason for the prediction.
4.  Estimated latitude and longitude, ensuring they are distinct and geographically varied.

Provide your predictions as a JSON array of objects with keys: ~area~, ~latitude~, ~longitude~, ~predictedCrimeType~, ~reason~.

Example: [{ ~area~: ~High Street~, ~latitude~: 53.525, ~longitude~: -1.130, ~predictedCrimeType~: ~Shoplifting~, ~reason~: ~Consistent pattern of retail theft.~ }]

**Important:** Base predictions *only* on provided data. Do not make statements about individuals. Ensure coordinates are valid numbers.

Crime Incidents for Analysis:
"
  ++ data
  ++ str "

JSON Output:".

Section Service.

Variable rt : Runtime.

(** [(globalThis as any).process?.env?.API_KEY]. *)
Variable API_KEY : option jsstring.

Definition ai : option GoogleGenAI :=
  match API_KEY with
  | Some k => if truthy k then Some (NewGoogleGenAI k) else None
  | None => None
  end.

Declare Scope js_scope.
Local Notation "x + y" := (nadd rt x y) : js_scope.
Local Notation "x - y" := (nsub rt x y) : js_scope.
Local Notation "x * y" := (nmul rt x y) : js_scope.
Local Notation "x / y" := (ndiv rt x y) : js_scope.
Local Notation "x <=? y" := (nle rt x y) : js_scope.
Local Notation "# z" := (fromDecimal rt (MkDecimal false z 0)) (at level 1, format "# z") : js_scope.
Delimit Scope js_scope with js.

Definition haversineDistance (lat1 lon1 lat2 lon2 : number rt) : number rt :=
  (let R := #6371 in
   let dLat := (lat2 - lat1) * Math_PI rt / #180 in
   let dLon := (lon2 - lon1) * Math_PI rt / #180 in
   let a := Math_sin rt (dLat / #2) * Math_sin rt (dLat / #2)
            + Math_cos rt (lat1 * Math_PI rt / #180)
              * Math_cos rt (lat2 * Math_PI rt / #180)
              * Math_sin rt (dLon / #2) * Math_sin rt (dLon / #2) in
   let c := #2 * Math_atan2 rt (Math_sqrt rt a) (Math_sqrt rt (#1 - a)) in
   R * c)%js.

(** [const proximityRadiusKm = 0.25]. *)
Definition proximityRadiusKm : number rt := fromDecimal rt (MkDecimal false 25 (-2)).

(** The guard both filters open with: the coordinates of a candidate, when
    both are present and neither parses to [NaN]. *)
Definition candidateCoords (loc : option Location) : option (number rt * number rt) :=
  match loc with
  | None => None
  | Some l =>
      if (falsy (latitude l) || falsy (longitude l))%bool then None
      else
        let cLat := parseFloat rt (toStringArg (latitude l)) in
        let cLng := parseFloat rt (toStringArg (longitude l)) in
        if (isNaN rt cLat || isNaN rt cLng)%bool then None
        else Some (cLat, cLng)
  end.

(** The body of the two filter callbacks, for a candidate at [loc] whose
    time stamp is [when]. *)
Definition isNearby (lat lng : number rt) (oneMonthBefore oneMonthAfter : Moment.moment)
    (loc : option Location) (when : Moment.moment) : bool :=
  match candidateCoords loc with
  | None => false
  | Some (cLat, cLng) =>
      ((haversineDistance lat lng cLat cLng <=? proximityRadiusKm)%js
       && Moment.isBetween when oneMonthBefore oneMonthAfter (str "[]"))%bool
  end.

Definition crimeIsNearby (lat lng : number rt) (before after : Moment.moment)
    (c : Crime) : bool :=
  isNearby lat lng before after (Some (location c)) (momentOf rt (month c)).

Definition stopSearchIsNearby (lat lng : number rt) (before after : Moment.moment)
    (ss : StopSearch) : bool :=
  isNearby lat lng before after (ss_location ss) (momentOf rt (datetime ss)).

Definition crimeSummary (c : Crime) : JSValue (number rt) :=
  VObject
    [ (str "type", VString (titleCase (category c)));
      (str "date",
       VString (momentFormat rt (momentOf rt (month c)) (str "MMMM YYYY")));
      (str "street",
       VString (streetNameOr (Some (location c)) (str "Unknown Street"))) ].

Definition stopSearchSummary (ss : StopSearch) : JSValue (number rt) :=
  VObject
    [ (str "type", VString (orElse (Some (type ss)) (str "N/A")));
      (str "date",
       VString (momentFormat rt (momentOf rt (datetime ss))
                  (str "YYYY-MM-DD HH:mm")));
      (str "objectOfSearch",
       VString (orElse (object_of_search ss) (str "N/A")));
      (str "street",
       VString (streetNameOr (ss_location ss) (str "Unknown Street"))) ].

Definition nearbyCrimes (lat lng : number rt) (before after : Moment.moment)
    (allCrimes : list Crime) : list (JSValue (number rt)) :=
  map crimeSummary (filter (crimeIsNearby lat lng before after) allCrimes).

Definition nearbyStopSearches (lat lng : number rt) (before after : Moment.moment)
    (allStopSearches : list StopSearch) : list (JSValue (number rt)) :=
  map stopSearchSummary
    (filter (stopSearchIsNearby lat lng before after) allStopSearches).

(** [xs.slice(0, n)]. *)
Definition slice0 {A} (n : nat) (xs : list A) : list A := firstn n xs.

(** [JSON.stringify(nearby.slice(0, 5), null, 2)], or the fixed sentence
    when nothing is nearby. *)
Definition proximitySection (label none : jsstring)
    (nearby : list (JSValue (number rt))) : jsstring :=
  if Nat.ltb 0 (List.length nearby)
  then label ++ JSON_stringify rt (VArray (slice0 5 nearby))
  else none.

Local Open Scope async_scope.

Definition radiusMetres : jsstring :=
  numberToString rt (nmul rt proximityRadiusKm (fromDecimal rt (MkDecimal false 1000 0))).

Definition outcomeText (crime : Crime) : jsstring :=
  match outcome_status crime with
  | Some os => titleCase (outcome_category os)
  | None => str "No specific outcome"
  end.

(** The template of [generateIncidentBriefing], filled in. *)
Definition incidentPromptFor (crime : Crime) (streetName : jsstring)
    (nearbyC nearbySS : list (JSValue (number rt))) : jsstring :=
  incidentPrompt
    (titleCase (category crime))
    (momentFormat rt (momentOf rt (month crime)) (str "MMMM YYYY"))
    streetName
    (outcomeText crime)
    radiusMetres
    (proximitySection (str "Nearby Crimes: ")
       (str "No significant nearby crime incidents.") nearbyC)
    (proximitySection (str "Nearby Stop & Searches: ")
       (str "No significant nearby stop and search incidents.") nearbySS).

Definition generateIncidentBriefing (crime : Crime) (allCrimes : list Crime)
    (allStopSearches : list StopSearch) : Async jsstring :=
  match ai with
  | None => ret unavailable
  | Some _ =>
      let crimeLat := parseFloat rt (toStringArg (latitude (location crime))) in
      let crimeLng := parseFloat rt (toStringArg (longitude (location crime))) in
      if (isNaN rt crimeLat || isNaN rt crimeLng)%bool then ret invalidLocation
      else
        let targetMoment := momentOfFormat rt (month crime) (str "YYYY-MM") in
        let oneMonthBefore :=
          Moment.subtract 1 Moment.Month (Moment.clone targetMoment) in
        let oneMonthAfter :=
          Moment.add 1 Moment.Month (Moment.clone targetMoment) in
        let nearbyC :=
          nearbyCrimes crimeLat crimeLng oneMonthBefore oneMonthAfter allCrimes in
        let nearbySS :=
          nearbyStopSearches crimeLat crimeLng oneMonthBefore oneMonthAfter
            allStopSearches in
        streetName <- lift (streetNameStrict (location crime)) ;;
        let prompt := incidentPromptFor crime streetName nearbyC nearbySS in
        response <- generateContent (MkRequest modelName prompt None) ;;
        ret response
  end.

Definition generateStopSearchBriefing (stopSearch : StopSearch)
    (allCrimes : list Crime) (allStopSearches : list StopSearch)
    : Async jsstring :=
  match ai with
  | None => ret unavailable
  | Some _ =>
      match ss_location stopSearch with
      | None =>
          ret (str "Briefing not available: no location data for this incident.")
      | Some loc =>
          let incidentLat := parseFloat rt (toStringArg (latitude loc)) in
          let incidentLng := parseFloat rt (toStringArg (longitude loc)) in
          if (isNaN rt incidentLat || isNaN rt incidentLng)%bool
          then ret invalidLocation
          else
            let targetMoment := momentOf rt (datetime stopSearch) in
            let oneMonthBefore :=
              Moment.subtract 1 Moment.Month (Moment.clone targetMoment) in
            let oneMonthAfter :=
              Moment.add 1 Moment.Month (Moment.clone targetMoment) in
            let nearbyC :=
              nearbyCrimes incidentLat incidentLng oneMonthBefore oneMonthAfter
                allCrimes in
            streetName <- lift (streetNameStrict loc) ;;
            let prompt :=
              stopSearchPrompt
                (type stopSearch)
                (momentFormat rt (momentOf rt (datetime stopSearch))
                   (str "YYYY-MM-DD HH:mm"))
                streetName
                (orElse (object_of_search stopSearch) (str "N/A"))
                (outcome stopSearch)
                radiusMetres
                (proximitySection (str "Nearby Crimes: ")
                   (str "No significant nearby crime incidents.") nearbyC) in
            response <- generateContent (MkRequest modelName prompt None) ;;
            ret response
      end
  end.

Definition summarizeCrimeTrends (crimes : list Crime) : Async jsstring :=
  match ai with
  | None => ret unavailable
  | Some _ =>
      if Nat.eqb (List.length crimes) 0
      then ret (str "No crime data available to summarize.")
      else
        let crimeDataForLLM := map crimeSummary (slice0 100 crimes) in
        let prompt := trendsPrompt (JSON_stringify rt (VArray crimeDataForLLM)) in
        response <- generateContent (MkRequest modelName prompt None) ;;
        ret response
  end.

(** The one request [generateCrimeInsights] sends. *)
Definition insightsRequest (crimes : list Crime) : Request :=
  let crimeDataForLLM := map crimeSummary (slice0 200 crimes) in
  let prompt := insightsPrompt (JSON_stringify rt (VArray crimeDataForLLM)) in
  MkRequest modelName prompt (Some (str "application/json")).

Definition generateCrimeInsights (crimes : list Crime) : Async JSON :=
  match ai with
  | None => ret (JArr [])
  | Some _ =>
      if Nat.eqb (List.length crimes) 0 then ret (JArr [])
      else
        response <- generateContent (insightsRequest crimes) ;;
        lift (parseJsonResponse response)
  end.

Definition hotspotRow (crime : Crime) : JSValue (number rt) :=
  VObject
    [ (str "type", VString (titleCase (category crime)));
      (str "date",
       VString (momentFormat rt (momentOf rt (month crime)) (str "YYYY-MM")));
      (str "street",
       VString (streetNameOr (Some (location crime)) (str "Unknown Street")));
      (str "latitude",
       VNumber (parseFloat rt (toStringArg (latitude (location crime)))));
      (str "longitude",
       VNumber (parseFloat rt (toStringArg (longitude (location crime))))) ].

(** The one request [generatePredictiveHotspots] sends. *)
Definition hotspotsRequest (crimes : list Crime) : Request :=
  let crimeDataForLLM := map hotspotRow crimes in
  let prompt := hotspotsPrompt (JSON_stringify rt (VArray crimeDataForLLM)) in
  MkRequest modelName prompt (Some (str "application/json")).

Definition generatePredictiveHotspots (crimes : list Crime) : Async JSON :=
  match ai with
  | None => ret (JArr [])
  | Some _ =>
      if Nat.ltb (List.length crimes) 10 then ret (JArr [])
      else
        response <- generateContent (hotspotsRequest crimes) ;;
        lift (parseJsonResponse response)
  end.

End Service.

(** ** App.tsx: the modal reducer and [handleAIFeature] *)

#[warnings="-register-all"]
Inductive ReactNode :=
| RText (s : jsstring)
| RElement (tag className : jsstring) (children : list ReactNode).

(** [keyof ModalState]. *)
Inductive ModalKey := briefing | trend | insights | predictive.

Record ModalState := MkModalState {
  m_briefing : bool;
  m_trend : bool;
  m_insights : bool;
  m_predictive : bool
}.

Record ModalStore := MkModalStore {
  modal : ModalState;
  content : ReactNode;
  isLoading : bool
}.

Inductive ModalAction :=
| OPEN_MODAL (key : ModalKey) (payloadContent : option ReactNode)
| CLOSE_MODAL
| SET_LOADING (payload : bool)
| SET_CONTENT (payload : ReactNode).

Definition initialModalState : ModalStore :=
  MkModalStore (MkModalState false false false false) (RText []) false.

(** An object spread with one computed key set to [true]. *)
Definition setFlag (m : ModalState) (key : ModalKey) : ModalState :=
  match key with
  | briefing => MkModalState true (m_trend m) (m_insights m) (m_predictive m)
  | trend => MkModalState (m_briefing m) true (m_insights m) (m_predictive m)
  | insights => MkModalState (m_briefing m) (m_trend m) true (m_predictive m)
  | predictive => MkModalState (m_briefing m) (m_trend m) (m_insights m) true
  end.

(** [content || '']: the empty text is the falsy node of this model. *)
Definition contentOrEmpty (c : option ReactNode) : ReactNode :=
  match c with
  | Some (RText []) => RText []
  | Some n => n
  | None => RText []
  end.

Definition modalReducer (state : ModalStore) (action : ModalAction)
    : ModalStore :=
  match action with
  | OPEN_MODAL key c =>
      MkModalStore (setFlag (modal initialModalState) key) (contentOrEmpty c) true
  | CLOSE_MODAL =>
      MkModalStore (modal initialModalState) (content state) (isLoading state)
  | SET_LOADING b => MkModalStore (modal state) (content state) b
  | SET_CONTENT c => MkModalStore (modal state) c false
  end.

Definition getFlag (m : ModalState) (key : ModalKey) : bool :=
  match key with
  | briefing => m_briefing m
  | trend => m_trend m
  | insights => m_insights m
  | predictive => m_predictive m
  end.

(** How many of the four modals are open. *)
Definition openCount (m : ModalState) : nat :=
  List.length (filter (getFlag m) [briefing; trend; insights; predictive]).

(** [e instanceof Error ? e.message : 'An unknown error occurred.']. *)
Definition errorMessage (e : Thrown) : jsstring :=
  match e with
  | ErrorObject msg => msg
  | OtherValue => str "An unknown error occurred."
  end.

Definition errorNode (message : jsstring) : ReactNode :=
  RElement (str "div") (str "text-red-400") [RText message].

(** [handleAIFeature]: open the modal, await the call once, and put
    either the rendered result or the error message into the modal. *)
Definition handleAIFeature {A} (modalKey : ModalKey) (apiCall : Async A)
    (onSuccess : A -> ReactNode) (store : ModalStore) : Async ModalStore :=
  fun ep log =>
    let opened := modalReducer store (OPEN_MODAL modalKey None) in
    match apiCall ep log with
    | (Return result, log') =>
        (Return (modalReducer opened (SET_CONTENT (onSuccess result))), log')
    | (Throw e, log') =>
        (Return (modalReducer opened (SET_CONTENT (errorNode (errorMessage e)))),
         log')
    end.

(** ** The standard model of floating-point arithmetic

    What a platform's numbers have to do with the reals: a finite number
    stands for a real, and each operation returns a number within a
    relative error [eps] and an absolute error [eta] of the exact result,
    as long as that result is at most [vmax] in magnitude.  IEEE 754
    binary64 arithmetic meets this with far smaller [eps] and [eta] and a
    far larger [vmax]; for [Math.sin], [Math.cos] and [Math.atan2], which
    ECMAScript leaves to the implementation, it is an assumption. *)

Local Open Scope R_scope.

(** The value of a decimal literal, exactly. *)
Definition decimalValue (d : Decimal) : R :=
  let m := IZR (Z.of_N (dmant d)) in
  let v := if Z.leb 0 (dexp d) then m * IZR (10 ^ dexp d)
           else m / IZR (10 ^ (- dexp d)) in
  if dneg d then - v else v.

Definition eps : R := 1e-9.
Definition eta : R := 1e-30.
Definition vmax : R := 1e30.

Definition near (r exact : R) : Prop :=
  Rabs (r - exact) <= eps * Rabs exact + eta.

Record FloatModel (rt : Runtime) (toR : number rt -> option R) : Prop :=
  MkFloatModel {
  fm_fromDecimal :
    forall d, Rabs (decimalValue d) <= vmax ->
              exists r, toR (fromDecimal rt d) = Some r /\ near r (decimalValue d);
  fm_PI : exists r, toR (Math_PI rt) = Some r /\ near r PI;
  fm_add :
    forall x y a b, toR x = Some a -> toR y = Some b -> Rabs (a + b) <= vmax ->
                    exists r, toR (nadd rt x y) = Some r /\ near r (a + b);
  fm_sub :
    forall x y a b, toR x = Some a -> toR y = Some b -> Rabs (a - b) <= vmax ->
                    exists r, toR (nsub rt x y) = Some r /\ near r (a - b);
  fm_mul :
    forall x y a b, toR x = Some a -> toR y = Some b -> Rabs (a * b) <= vmax ->
                    exists r, toR (nmul rt x y) = Some r /\ near r (a * b);
  fm_div :
    forall x y a b, toR x = Some a -> toR y = Some b -> b <> 0 ->
                    Rabs (a / b) <= vmax ->
                    exists r, toR (ndiv rt x y) = Some r /\ near r (a / b);
  fm_sin :
    forall x a, toR x = Some a -> Rabs a <= 4 ->
                exists r, toR (Math_sin rt x) = Some r /\ near r (sin a);
  fm_cos :
    forall x a, toR x = Some a -> Rabs a <= 4 ->
                exists r, toR (Math_cos rt x) = Some r /\ near r (cos a);
  fm_sqrt :
    forall x a, toR x = Some a -> 0 <= a <= vmax ->
                exists r, toR (Math_sqrt rt x) = Some r /\ near r (sqrt a);
  fm_atan2 :
    forall y x a b, toR y = Some a -> toR x = Some b -> 0 < b ->
                    exists r, toR (Math_atan2 rt y x) = Some r
                              /\ near r (atan (a / b));
  fm_le :
    forall x y a b, toR x = Some a -> toR y = Some b ->
                    (nle rt x y = true <-> a <= b);
  fm_isNaN : forall x a, toR x = Some a -> isNaN rt x = false
}.

(** The number [x] is finite and stands for a real between [lo] and [hi]. *)
Definition within {rt : Runtime} (toR : number rt -> option R)
    (x : number rt) (lo hi : R) : Prop :=
  exists r, toR x = Some r /\ lo <= r <= hi.

(** The value [v] of an exact operation leaves room, inside [lo, hi], for
    the rounding error of a result of magnitude at most [M]. *)
Definition fits (M lo hi v : R) : Prop :=
  - M <= v <= M /\ lo + (eps * M + eta) <= v <= hi - (eps * M + eta).

Local Close Scope R_scope.

(** ** A reference platform over exact real arithmetic

    Numbers are the reals extended with NaN and the two infinities; the
    arithmetic follows IEEE 754 except that it neither rounds nor
    overflows and has a single zero.  The local zone is UTC, and
    [momentOf] reads the ISO 8601 forms the police API publishes. *)
Module Ideal.

Inductive xreal := XNaN | XPInf | XNInf | Fin (r : R).

Local Open Scope R_scope.

Inductive sign := Neg | Zero | Pos.

Definition sgn (r : R) : sign :=
  if Rlt_dec r 0 then Neg else if Rlt_dec 0 r then Pos else Zero.

Definition xneg (x : xreal) : xreal :=
  match x with
  | XNaN => XNaN
  | XPInf => XNInf
  | XNInf => XPInf
  | Fin r => Fin (- r)
  end.

Definition xadd (x y : xreal) : xreal :=
  match x, y with
  | XNaN, _ | _, XNaN => XNaN
  | XPInf, XNInf | XNInf, XPInf => XNaN
  | XPInf, _ | _, XPInf => XPInf
  | XNInf, _ | _, XNInf => XNInf
  | Fin a, Fin b => Fin (a + b)
  end.

Definition xsub (x y : xreal) : xreal := xadd x (xneg y).

(** An infinity times a finite number. *)
Definition scaleInf (inf : xreal) (r : R) : xreal :=
  match sgn r with
  | Zero => XNaN
  | Pos => inf
  | Neg => xneg inf
  end.

Definition xmul (x y : xreal) : xreal :=
  match x, y with
  | XNaN, _ | _, XNaN => XNaN
  | Fin a, Fin b => Fin (a * b)
  | Fin a, inf => scaleInf inf a
  | inf, Fin b => scaleInf inf b
  | XPInf, XPInf | XNInf, XNInf => XPInf
  | XPInf, XNInf | XNInf, XPInf => XNInf
  end.

Definition xdiv (x y : xreal) : xreal :=
  match x, y with
  | XNaN, _ | _, XNaN => XNaN
  | Fin a, Fin b =>
      match sgn b with
      | Zero =>
          match sgn a with
          | Zero => XNaN
          | Pos => XPInf
          | Neg => XNInf
          end
      | _ => Fin (a / b)
      end
  | Fin _, _ => Fin 0
  | inf, Fin b => match sgn b with Neg => xneg inf | _ => inf end
  | _, _ => XNaN
  end.

Definition xle (x y : xreal) : bool :=
  match x, y with
  | XNaN, _ | _, XNaN => false
  | XNInf, _ | _, XPInf => true
  | Fin a, Fin b => if Rle_dec a b then true else false
  | _, _ => false
  end.

Definition xisNaN (x : xreal) : bool :=
  match x with XNaN => true | _ => false end.

Definition xisFinite (x : xreal) : bool :=
  match x with Fin _ => true | _ => false end.

Definition xsin (x : xreal) : xreal :=
  match x with Fin r => Fin (sin r) | _ => XNaN end.

Definition xcos (x : xreal) : xreal :=
  match x with Fin r => Fin (cos r) | _ => XNaN end.

Definition xsqrt (x : xreal) : xreal :=
  match x with
  | Fin r => match sgn r with Neg => XNaN | _ => Fin (sqrt r) end
  | XPInf => XPInf
  | _ => XNaN
  end.

(** The angle of the point (x, y), in (-PI, PI]. *)
Definition atan2R (y x : R) : R :=
  match sgn x with
  | Pos => atan (y / x)
  | Neg => match sgn y with
           | Neg => atan (y / x) - PI
           | _ => atan (y / x) + PI
           end
  | Zero => match sgn y with
            | Pos => PI / 2
            | Neg => - (PI / 2)
            | Zero => 0
            end
  end.

Definition xatan2 (y x : xreal) : xreal :=
  match y, x with
  | XNaN, _ | _, XNaN => XNaN
  | Fin a, Fin b => Fin (atan2R a b)
  | Fin a, XPInf => Fin 0
  | Fin a, XNInf => match sgn a with Neg => Fin (- PI) | _ => Fin PI end
  | XPInf, Fin _ => Fin (PI / 2)
  | XNInf, Fin _ => Fin (- (PI / 2))
  | XPInf, XPInf => Fin (PI / 4)
  | XPInf, XNInf => Fin (3 * PI / 4)
  | XNInf, XPInf => Fin (- (PI / 4))
  | XNInf, XNInf => Fin (- (3 * PI / 4))
  end.

Definition xfromDecimal (d : Decimal) : xreal := Fin (decimalValue d).

Local Close Scope R_scope.

(** *** Printing *)

Definition digitsOfZ (z : Z) : jsstring :=
  str (DecimalString.NilZero.string_of_int (Z.to_int z)).

Fixpoint padStart (width : nat) (s : jsstring) : jsstring :=
  match width with
  | O => s
  | S w => if Nat.ltb (List.length s) width then padStart w (48%N :: s) else s
  end.

Definition floorR (r : R) : Z := (up r - 1)%Z.

(** An integer prints as its decimal digits; any other finite number
    with six decimals, truncated. *)
Definition xtoString (x : xreal) : jsstring :=
  match x with
  | XNaN => str "NaN"
  | XPInf => str "Infinity"
  | XNInf => str "-Infinity"
  | Fin r =>
      let scaled := floorR (Rabs r * 1000000)%R in
      let whole := digitsOfZ (scaled / 1000000) in
      let frac := (scaled mod 1000000)%Z in
      let body := if Z.eqb frac 0 then whole
                  else whole ++ str "." ++ padStart 6 (digitsOfZ frac) in
      match sgn r with
      | Neg => str "-" ++ body
      | _ => body
      end
  end.

Definition hexDigit (n : N) : N :=
  if N.ltb n 10 then (48 + n)%N else (87 + n)%N.

Definition unicodeEscape (c : N) : jsstring :=
  str "\u" ++ [ hexDigit (c / 4096 mod 16); hexDigit (c / 256 mod 16);
                hexDigit (c / 16 mod 16); hexDigit (c mod 16) ]%N.

Definition isHighSurrogate (c : N) : bool := in_range 55296 56319 c.
Definition isLowSurrogate (c : N) : bool := in_range 56320 57343 c.

(** [QuoteJSONString], without the surrounding quotes. *)
Fixpoint escapeJSON (s : jsstring) : jsstring :=
  match s with
  | [] => []
  | c :: s' =>
      if N.eqb c 8 then str "\b" ++ escapeJSON s'
      else if N.eqb c 9 then str "\t" ++ escapeJSON s'
      else if N.eqb c 10 then str "\n" ++ escapeJSON s'
      else if N.eqb c 12 then str "\f" ++ escapeJSON s'
      else if N.eqb c 13 then str "\r" ++ escapeJSON s'
      else if N.eqb c 34 then 92%N :: 34%N :: escapeJSON s'
      else if N.eqb c 92 then 92%N :: 92%N :: escapeJSON s'
      else if N.ltb c 32 then unicodeEscape c ++ escapeJSON s'
      else if isHighSurrogate c then
        match s' with
        | d :: s'' =>
            if isLowSurrogate d then c :: d :: escapeJSON s''
            else unicodeEscape c ++ escapeJSON s'
        | [] => unicodeEscape c
        end
      else if isLowSurrogate c then unicodeEscape c ++ escapeJSON s'
      else c :: escapeJSON s'
  end.

Definition quoteJSON (s : jsstring) : jsstring :=
  dquote ++ escapeJSON s ++ dquote.

Fixpoint join (sep : jsstring) (parts : list jsstring) : jsstring :=
  match parts with
  | [] => []
  | [p] => p
  | p :: ps => p ++ sep ++ join sep ps
  end.

(** [JSON.stringify(v, null, 2)] at the indentation [indent]. *)
Fixpoint stringifyAt (indent : jsstring) (v : JSValue xreal) : jsstring :=
  let inner := (indent ++ str "  ")%list in
  let sep := (str "," ++ [10%N] ++ inner)%list in
  match v with
  | VString s => quoteJSON s
  | VNumber n => if xisFinite n then xtoString n else str "null"
  | VArray [] => str "[]"
  | VArray items =>
      str "[" ++ [10%N] ++ inner
      ++ join sep (map (stringifyAt inner) items)
      ++ [10%N] ++ indent ++ str "]"
  | VObject [] => str "{}"
  | VObject members =>
      str "{" ++ [10%N] ++ inner
      ++ join sep
           (map (fun kv => quoteJSON (fst kv) ++ str ": "
                           ++ stringifyAt inner (snd kv)) members)
      ++ [10%N] ++ indent ++ str "}"
  end.

(** *** moment.js *)

(** Exactly [n] decimal digits. *)
Fixpoint readDigits (n : nat) (acc : Z) (s : jsstring) : option (Z * jsstring) :=
  match n with
  | O => Some (acc, s)
  | S n' =>
      match s with
      | c :: s' =>
          if isDigit c then readDigits n' (acc * 10 + Z.of_N (c - 48))%Z s'
          else None
      | [] => None
      end
  end.

Definition expect (c : N) (s : jsstring) : option jsstring :=
  match s with
  | x :: s' => if N.eqb x c then Some s' else None
  | [] => None
  end.

Definition mkMoment (y mo d h mi sec : Z) : Moment.moment :=
  if ((1 <=? mo) && (mo <=? 12) && (1 <=? d)
      && (d <=? Moment.daysInMonth y (mo - 1))
      && (h <=? 23) && (mi <=? 59) && (sec <=? 59))%Z%bool
  then Some (Moment.MkCivil y (mo - 1) d (((h * 60 + mi) * 60 + sec) * 1000))
  else None.

(** What may follow the time of day: nothing, [Z] or [+00:00]. *)
Definition utcSuffix (s : jsstring) : bool :=
  (jseqb s [] || jseqb s (str "Z") || jseqb s (str "+00:00"))%bool.

Definition readTime (y mo d : Z) (s : jsstring) : Moment.moment :=
  match readDigits 2 0 s with
  | Some (h, s1) =>
      match expect 58 s1 with
      | Some s2 =>
          match readDigits 2 0 s2 with
          | Some (mi, s3) =>
              match expect 58 s3 with
              | Some s4 =>
                  match readDigits 2 0 s4 with
                  | Some (sec, s5) =>
                      if utcSuffix s5 then mkMoment y mo d h mi sec else None
                  | None => None
                  end
              | None => if utcSuffix s3 then mkMoment y mo d h mi 0 else None
              end
          | None => None
          end
      | None => None
      end
  | None => None
  end.

(** [YYYY-MM], [YYYY-MM-DD], [YYYY-MM-DDTHH:mm] and
    [YYYY-MM-DDTHH:mm:ss]; anything else is an invalid moment. *)
Definition xmomentOf (s : jsstring) : Moment.moment :=
  match readDigits 4 0 s with
  | Some (y, s1) =>
      match expect 45 s1 with
      | Some s2 =>
          match readDigits 2 0 s2 with
          | Some (mo, []) => mkMoment y mo 1 0 0 0
          | Some (mo, s3) =>
              match expect 45 s3 with
              | Some s4 =>
                  match readDigits 2 0 s4 with
                  | Some (d, []) => mkMoment y mo d 0 0 0
                  | Some (d, s5) =>
                      match expect 84 s5 with
                      | Some s6 => readTime y mo d s6
                      | None => None
                      end
                  | None => None
                  end
              | None => None
              end
          | None => None
          end
      | None => None
      end
  | None => None
  end.

(** [moment(s, 'YYYY-MM')] reads a year and a month and ignores what
    follows; any other format is read as [moment(s)]. *)
Definition xmomentOfFormat (s format : jsstring) : Moment.moment :=
  if jseqb format (str "YYYY-MM") then
    match readDigits 4 0 s with
    | Some (y, s1) =>
        match expect 45 s1 with
        | Some s2 =>
            match readDigits 2 0 s2 with
            | Some (mo, _) => mkMoment y mo 1 0 0 0
            | None => None
            end
        | None => None
        end
    | None => None
    end
  else xmomentOf s.

Definition monthName (m : Z) : jsstring :=
  nth (Z.to_nat m)
    [ str "January"; str "February"; str "March"; str "April"; str "May";
      str "June"; str "July"; str "August"; str "September"; str "October";
      str "November"; str "December" ] [].

(** The tokens the service uses: YYYY, MMMM, MM, DD, HH and mm; every
    other code unit of the format is copied. *)
Fixpoint formatTokens (fuel : nat) (c : Moment.Civil) (f : jsstring)
    : jsstring :=
  match fuel with
  | O => []
  | S fuel' =>
      let two z := padStart 2 (digitsOfZ z) in
      match stripPrefix (str "YYYY") f with
      | Some r => padStart 4 (digitsOfZ (Moment.year c)) ++ formatTokens fuel' c r
      | None =>
      match stripPrefix (str "MMMM") f with
      | Some r => monthName (Moment.month c) ++ formatTokens fuel' c r
      | None =>
      match stripPrefix (str "MM") f with
      | Some r => two (Moment.month c + 1)%Z ++ formatTokens fuel' c r
      | None =>
      match stripPrefix (str "DD") f with
      | Some r => two (Moment.date c) ++ formatTokens fuel' c r
      | None =>
      match stripPrefix (str "HH") f with
      | Some r => two (Moment.msOfDay c / 3600000)%Z ++ formatTokens fuel' c r
      | None =>
      match stripPrefix (str "mm") f with
      | Some r =>
          two ((Moment.msOfDay c / 60000) mod 60)%Z ++ formatTokens fuel' c r
      | None =>
      match f with
      | x :: r => x :: formatTokens fuel' c r
      | [] => []
      end end end end end end end
  end.

Definition xmomentFormat (m : Moment.moment) (f : jsstring) : jsstring :=
  match m with
  | Some c => formatTokens (S (List.length f)) c f
  | None => str "Invalid date"
  end.

(** The real a finite number of the reference platform stands for. *)
Definition xtoR (x : xreal) : option R :=
  match x with
  | Fin r => Some r
  | _ => None
  end.

Definition runtime : Runtime :=
  {| number := xreal;
     fromDecimal := xfromDecimal;
     nan := XNaN;
     posInfinity := XPInf;
     negInfinity := XNInf;
     nadd := xadd;
     nsub := xsub;
     nmul := xmul;
     ndiv := xdiv;
     nle := xle;
     isNaN := xisNaN;
     isFinite := xisFinite;
     Math_PI := Fin PI;
     Math_sin := xsin;
     Math_cos := xcos;
     Math_sqrt := xsqrt;
     Math_atan2 := xatan2;
     numberToString := xtoString;
     momentOf := xmomentOf;
     momentOfFormat := xmomentOfFormat;
     momentFormat := xmomentFormat;
     JSON_stringify := stringifyAt [] |}.

End Ideal.

(** ** Vocabulary of the statements about [parseJsonResponse] *)

Definition allSpace (s : jsstring) : Prop := forallb isSpace s = true.

(** A text that neither starts nor ends with white space. *)
Definition tight (b : jsstring) : Prop :=
  (exists a r, b = a :: r /\ isSpace a = false)
  /\ (exists r z, b = r ++ [z] /\ isSpace z = false).

(** A response wrapped in a markdown code fence, with the language tag
    [tag] (possibly empty) after the opening backticks. *)
Definition fence (tag s : jsstring) : jsstring :=
  str "```" ++ tag ++ [10%N] ++ s ++ [10%N] ++ str "```".

Module FencePattern.
Import Regex.

(** Where a run of [p] has to stop. *)
Definition stops (p : N -> bool) (s : jsstring) : Prop :=
  s = [] \/ exists a r, s = a :: r /\ p a = false.

Definition backticks : jsstring := [96%N; 96%N; 96%N].

Definition closing : regex := cat [Char 96; Char 96; Char 96; Eol].

Definition tailRegex : regex :=
  cat [Opt (Char 10); StarGreedy isSpace; Char 96; Char 96; Char 96; Eol].

Definition accept : cont := fun st => Some (caps st).

(** From the optional line feed before group 2 to the end of the pattern. *)
Definition bodyRegex : regex :=
  Seq (Opt (Char 10)) (Seq (Group 2 (StarLazy (fun _ => true))) tailRegex).

End FencePattern.

(** The number of elements of a returned array. *)
Definition elementCount (r : Outcome JSON) : option nat :=
  match r with
  | Return (JArr items) => Some (List.length items)
  | _ => None
  end.

(** A response of the shape the hotspot prompt asks for, with three
    entries. *)
Definition sampleHotspots : jsstring :=
  strq "[
  { ~area~: ~High Street~, ~latitude~: 53.525, ~longitude~: -1.130, ~predictedCrimeType~: ~Shoplifting~, ~reason~: ~Consistent pattern of retail theft.~ },
  { ~area~: ~Market Place~, ~latitude~: 53.5236, ~longitude~: -1.1338, ~predictedCrimeType~: ~Anti-social behaviour~, ~reason~: ~Repeated evening incidents.~ },
  { ~area~: ~Station Road~, ~latitude~: 53.5221, ~longitude~: -1.1398, ~predictedCrimeType~: ~Bicycle theft~, ~reason~: ~Thefts near the interchange.~ }
]".

Definition sampleHotspotValues : list JSON :=
  Eval vm_compute in
    match JSON_parse sampleHotspots with
    | Some (JArr items) => items
    | _ => []
    end.

(** ** Sample records for the worked examples *)

Definition sampleLocation (lat lng streetName : string) : Location :=
  MkLocation (Some (str lat)) (Some (str lng))
    (Some (MkStreet (Some (str streetName)))).

Definition sampleCrime (lat lng when : string) : Crime :=
  MkCrime (str "anti-social-behaviour") (str when)
    (sampleLocation lat lng "On or near High Street") None.

(** The reference incident of the examples: (53.5228, -1.1285), May 2024. *)
Definition referenceCrime : Crime := sampleCrime "53.5228" "-1.1285" "2024-05".

(** Close by, one month later. *)
Definition candidateNear : Crime := sampleCrime "53.5230" "-1.1286" "2024-06".

(** More than a kilometre away, one month later. *)
Definition candidateFar : Crime := sampleCrime "53.5300" "-1.1400" "2024-06".

(** Close by, four months earlier. *)
Definition candidateOld : Crime := sampleCrime "53.5230" "-1.1286" "2024-01".

(** No usable latitude. *)
Definition candidateNoCoords : Crime :=
  MkCrime (str "burglary") (str "2024-05")
    (MkLocation (Some (str "unknown")) (Some (str "-1.1286")) None) None.

(** Whether the environment holds a usable key. *)
Definition keyPresent (key : option jsstring) : bool := negb (falsy key).

(** An endpoint that answers every request with the same text. *)
Definition answering (text : jsstring) : Endpoint := fun _ => Return text.

(** ** What the statements assume of IEEE 754 numbers

    The facts about NaN and the infinities that hold on every ECMAScript
    platform and that the exclusion of a candidate with a non-finite
    coordinate rests on. *)
Record IEEELaws (rt : Runtime) : Prop := MkIEEELaws {
  nan_isNaN : isNaN rt (nan rt) = true;
  nan_not_finite : forall x, isNaN rt x = true -> isFinite rt x = false;
  posInfinity_not_finite : isFinite rt (posInfinity rt) = false;
  negInfinity_not_finite : isFinite rt (negInfinity rt) = false;
  sub_not_finite_l :
    forall x y, isFinite rt x = false -> isFinite rt (nsub rt x y) = false;
  mul_not_finite_l :
    forall x y, isFinite rt x = false -> isFinite rt (nmul rt x y) = false;
  div_not_finite_l :
    forall x y, isFinite rt x = false -> isFinite rt (ndiv rt x y) = false;
  sin_not_finite :
    forall x, isFinite rt x = false -> isNaN rt (Math_sin rt x) = true;
  add_nan_l : forall x y, isNaN rt x = true -> isNaN rt (nadd rt x y) = true;
  add_nan_r : forall x y, isNaN rt y = true -> isNaN rt (nadd rt x y) = true;
  mul_nan_l : forall x y, isNaN rt x = true -> isNaN rt (nmul rt x y) = true;
  mul_nan_r : forall x y, isNaN rt y = true -> isNaN rt (nmul rt x y) = true;
  sqrt_nan : forall x, isNaN rt x = true -> isNaN rt (Math_sqrt rt x) = true;
  atan2_nan_l :
    forall y x, isNaN rt y = true -> isNaN rt (Math_atan2 rt y x) = true;
  le_nan_l : forall x y, isNaN rt x = true -> nle rt x y = false
}.

(** ** Subsequences *)

Inductive subseq {A : Type} : list A -> list A -> Prop :=
| subseq_nil : subseq [] []
| subseq_skip x l1 l2 : subseq l1 l2 -> subseq l1 (x :: l2)
| subseq_keep x l1 l2 : subseq l1 l2 -> subseq (x :: l1) (x :: l2).

(** ** More of the worked example *)

(** Close by, one month earlier. *)
Definition candidateApril : Crime := sampleCrime "53.5230" "-1.1286" "2024-04".

(** The window of the example: April 1st to June 1st 2024, at midnight. *)
Definition exampleBefore : Moment.moment := Some (Moment.MkCivil 2024 3 1 0).
Definition exampleAfter : Moment.moment := Some (Moment.MkCivil 2024 5 1 0).

(** ** Vocabulary of the statements about the requests *)

(** A run of [m] from the log [log] sent nothing, or one request to the
    model [modelName] with the response type [mime]. *)
Definition sendsAtMostOne {A} (m : Async A) (mime : option jsstring)
    (ep : Endpoint) (log : list Request) : Prop :=
  snd (m ep log) = log
  \/ exists prompt, snd (m ep log) = log ++ [MkRequest modelName prompt mime].

(** What [parseJsonResponse(response.text)] makes of the answer to a
    request. *)
Definition parsedAnswer (answer : Outcome jsstring) : Outcome JSON :=
  match answer with
  | Return text => parseJsonResponse text
  | Throw e => Throw e
  end.

(** A crime record whose location carries no street. *)
Definition streetlessCrime : Crime :=
  MkCrime (str "burglary") (str "2024-05")
    (MkLocation (Some (str "53.5228")) (Some (str "-1.1285")) None) None.

(** An endpoint that fails every request with the same error. *)
Definition failing (e : Thrown) : Endpoint := fun _ => Throw e.

(** ** components/CrimeMap.tsx *)

(** The identifiers of a crime, which the service never reads: the
    [persistent_id], and the [id] as [String(id)] and the templates print
    it. *)
Record CrimeIds := MkCrimeIds {
  persistent_id : option jsstring;
  id : jsstring
}.

(** [text.replace(/\n/g, '<br/>')]. *)
Definition lineBreaks (text : jsstring) : jsstring :=
  flat_map (fun c => if N.eqb c 10 then str "<br/>" else [c]) text.

Definition loadingBriefingContent : jsstring :=
  strq "<div class=~loading-spinner~></div><p class=~text-center text-xs text-gray-400~>Generating briefing...</p>".

(** The [errorHtml] of both popup handlers. *)
Definition briefingErrorHtml : jsstring :=
  strq "<div class=~text-red-400~>Failed to load briefing.</div>".

(** [crime.outcome_status?.category.replace(...) ?? 'N/A']. *)
Definition popupOutcome (crime : Crime) : jsstring :=
  match outcome_status crime with
  | Some os => titleCase (outcome_category os)
  | None => str "N/A"
  end.

(** [createCrimePopupContent]; reading the name of an absent street
    throws. *)
Definition createCrimePopupContent (rt : Runtime) (crime : Crime)
    (briefingContent : jsstring) : Outcome jsstring :=
  match streetNameStrict (location crime) with
  | Throw e => Throw e
  | Return streetName =>
      Return
        (strq "<div class=~crime-marker-popup~>
        <h3 class=~font-bold text-lg mb-2~>"
          ++ titleCase (category crime)
          ++ str "</h3>
        <div><strong>Date:</strong> "
          ++ momentFormat rt (momentOf rt (month crime)) (str "MMMM YYYY")
          ++ str "</div>
        <div><strong>Location:</strong> "
          ++ streetName
          ++ str "</div>
        <div><strong>Outcome:</strong> "
          ++ popupOutcome crime
          ++ strq "</div>
        <div class=~briefing-content~>"
          ++ briefingContent
          ++ str "</div>
    </div>")
  end.

Definition createStopSearchPopupContent (rt : Runtime) (stopSearch : StopSearch)
    (briefingContent : jsstring) : jsstring :=
  strq "<div class=~crime-marker-popup~>
        <h3 class=~font-bold text-lg mb-2~>Stop and Search</h3>
        <div><strong>Date:</strong> "
  ++ momentFormat rt (momentOf rt (datetime stopSearch)) (str "YYYY-MM-DD HH:mm")
  ++ str "</div>
        <div><strong>Outcome:</strong> "
  ++ outcome stopSearch
  ++ strq "</div>
        <div class=~briefing-content~>"
  ++ briefingContent
  ++ str "</div>
    </div>".

(** *** The age of a crime

    [moment().diff(moment(date), 'days')]: the whole days from the date to
    now, rounded towards zero, or NaN ([None]) for an invalid date. *)
Definition diffDays (now : Moment.Civil) (that : Moment.moment) : option Z :=
  match that with
  | Some t => Some (Z.quot (Moment.valueOf now - Moment.valueOf t) 86400000)
  | None => None
  end.

(** [daysOld <= k]; a comparison with NaN is false. *)
Definition daysAtMost (daysOld : option Z) (k : Z) : bool :=
  match daysOld with
  | Some d => Z.leb d k
  | None => false
  end.



(** [getRecencyIntensity]: the literals 1.0, 0.7, 0.4 and 0.1. *)
Definition getRecencyIntensity (rt : Runtime) (now : Moment.Civil)
    (date : jsstring) : number rt :=
  let daysOld := diffDays now (momentOf rt date) in
  if daysAtMost daysOld 7 then fromDecimal rt (MkDecimal false 10 (-1))
  else if daysAtMost daysOld 30 then fromDecimal rt (MkDecimal false 7 (-1))
  else if daysAtMost daysOld 90 then fromDecimal rt (MkDecimal false 4 (-1))
  else fromDecimal rt (MkDecimal false 1 (-1)).

(** *** Markers and heat maps *)

(** The guard a crime gets its marker under: its position, unless a
    coordinate parses to NaN. *)
Definition markerPosition (rt : Runtime) (crime : Crime)
    : option (number rt * number rt) :=
  let lat := parseFloat rt (toStringArg (latitude (location crime))) in
  let lng := parseFloat rt (toStringArg (longitude (location crime))) in
  if (isNaN rt lat || isNaN rt lng)%bool then None else Some (lat, lng).

(** The positions of the crimes that pass the guard, in the order of the
    list. *)
Definition markerPositions (rt : Runtime) (crimes : list Crime)
    : list (number rt * number rt) :=
  flat_map (fun crime => match markerPosition rt crime with
                         | Some p => [p]
                         | None => []
                         end) crimes.

(** The [forEach] of the marker effect: the positions of the markers it
    adds and, if a callback threw, what it threw.  A crime that passes the
    guard gets its popup, made by [createCrimePopupContent], before its
    marker is added; an exception there ends the loop. *)
Fixpoint addMarkers (rt : Runtime) (crimes : list Crime)
    : list (number rt * number rt) * option Thrown :=
  match crimes with
  | [] => ([], None)
  | crime :: rest =>
      match markerPosition rt crime with
      | None => addMarkers rt rest
      | Some p =>
          match createCrimePopupContent rt crime loadingBriefingContent with
          | Throw e => ([], Some e)
          | Return _ =>
              let '(added, thrown) := addMarkers rt rest in
              (p :: added, thrown)
          end
      end
  end.

(** A point of a heat layer: [[lat, lng, intensity]]. *)
Definition HeatPoint (rt : Runtime) : Type :=
  (number rt * number rt * number rt)%type.

Definition heatFilter (rt : Runtime) (p : HeatPoint rt) : bool :=
  (negb (isNaN rt (fst (fst p))) && negb (isNaN rt (snd (fst p))))%bool.
Arguments heatFilter rt p : clear implicits.

(** The [heatData] of the density layer. *)
Definition densityHeatData (rt : Runtime) (crimes : list Crime)
    : list (HeatPoint rt) :=
  filter (heatFilter rt)
    (map (fun c => (parseFloat rt (toStringArg (latitude (location c))),
                    parseFloat rt (toStringArg (longitude (location c))),
                    fromDecimal rt (MkDecimal false 1 0)))
       crimes).

(** The [heatData] of the recency layer; [clock i] is what [moment()]
    returns for the record at index [i]. *)
Fixpoint recencyPoints (rt : Runtime) (clock : nat -> Moment.Civil) (i : nat)
    (crimes : list Crime) : list (HeatPoint rt) :=
  match crimes with
  | [] => []
  | c :: rest =>
      (parseFloat rt (toStringArg (latitude (location c))),
       parseFloat rt (toStringArg (longitude (location c))),
       getRecencyIntensity rt (clock i) (month c))
        :: recencyPoints rt clock (S i) rest
  end.

Definition recencyHeatData (rt : Runtime) (clock : nat -> Moment.Civil)
    (crimes : list Crime) : list (HeatPoint rt) :=
  filter (heatFilter rt) (recencyPoints rt clock 0 crimes).

(** *** The briefing cache of the popups

    [briefingCacheRef] is a [Map] and [briefingLoadingRef] a [Set], both
    keyed by strings and both in insertion order. *)
Record BriefingRefs := MkBriefingRefs {
  briefingCache : list (jsstring * jsstring);
  briefingLoading : list jsstring
}.

Fixpoint mapGet (k : jsstring) (m : list (jsstring * jsstring))
    : option jsstring :=
  match m with
  | [] => None
  | (k', v) :: rest => if jseqb k' k then Some v else mapGet k rest
  end.

Definition mapHas (k : jsstring) (m : list (jsstring * jsstring)) : bool :=
  match mapGet k m with Some _ => true | None => false end.

Fixpoint mapSet (k v : jsstring) (m : list (jsstring * jsstring))
    : list (jsstring * jsstring) :=
  match m with
  | [] => [(k, v)]
  | (k', v') :: rest =>
      if jseqb k' k then (k', v) :: rest else (k', v') :: mapSet k v rest
  end.

Definition setHas (k : jsstring) (s : list jsstring) : bool :=
  existsb (fun x => jseqb x k) s.

Definition setAdd (k : jsstring) (s : list jsstring) : list jsstring :=
  if setHas k s then s else s ++ [k].

Definition setDelete (k : jsstring) (s : list jsstring) : list jsstring :=
  filter (fun x => negb (jseqb x k)) s.

(** How a popup handler leaves things: the two refs, the content it set
    on the popup (if it set any), and what it threw (if it threw). *)
Record PopupResult := MkPopupResult {
  refsAfter : BriefingRefs;
  shown : option jsstring;
  raised : option Thrown
}.

(** A popup handler up to its [await]: it returned at once, or it is now
    waiting for the briefing. *)
Inductive PopupStart :=
| Finished (r : PopupResult)
| Waiting (refs : BriefingRefs).

Definition crimeCacheKey (ids : CrimeIds) : jsstring := str "crime-" ++ id ids.

(** The [popupopen] handler of a crime marker, up to the [await]. *)
Definition crimePopupStart (rt : Runtime) (ids : CrimeIds) (crime : Crime)
    (refs : BriefingRefs) : PopupStart :=
  let cacheKey := crimeCacheKey ids in
  match mapGet cacheKey (briefingCache refs) with
  | Some cached =>
      match createCrimePopupContent rt crime cached with
      | Return content => Finished (MkPopupResult refs (Some content) None)
      | Throw e => Finished (MkPopupResult refs None (Some e))
      end
  | None =>
      if setHas cacheKey (briefingLoading refs)
      then Finished (MkPopupResult refs None None)
      else Waiting (MkBriefingRefs (briefingCache refs)
                      (setAdd cacheKey (briefingLoading refs)))
  end.

(** The same handler from the [await] on, [answer] being how the call of
    [generateIncidentBriefing] ended and [refs] the refs as they are by
    then. *)
Definition crimePopupSettle (rt : Runtime) (ids : CrimeIds) (crime : Crime)
    (answer : Outcome jsstring) (refs : BriefingRefs) : PopupResult :=
  let cacheKey := crimeCacheKey ids in
  let released cache :=
    MkBriefingRefs cache (setDelete cacheKey (briefingLoading refs)) in
  let failed cache :=
    match createCrimePopupContent rt crime briefingErrorHtml with
    | Return content => MkPopupResult (released cache) (Some content) None
    | Throw e => MkPopupResult (released cache) None (Some e)
    end in
  match answer with
  | Return briefingText =>
      let briefingHtml := lineBreaks briefingText in
      let cache := mapSet cacheKey briefingHtml (briefingCache refs) in
      match createCrimePopupContent rt crime briefingHtml with
      | Return content => MkPopupResult (released cache) (Some content) None
      | Throw _ => failed cache
      end
  | Throw _ => failed (briefingCache refs)
  end.

(** The whole handler, when nothing else runs while it waits. *)
Definition crimePopupOpen (rt : Runtime) (API_KEY : option jsstring)
    (ids : CrimeIds) (crime : Crime) (allCrimes : list Crime)
    (allStopSearches : list StopSearch) (refs : BriefingRefs)
    : Async PopupResult :=
  fun ep log =>
    match crimePopupStart rt ids crime refs with
    | Finished r => (Return r, log)
    | Waiting refs1 =>
        let '(answer, log1) :=
          generateIncidentBriefing rt API_KEY crime allCrimes allStopSearches
            ep log in
        (Return (crimePopupSettle rt ids crime answer refs1), log1)
    end.

Definition stopSearchCacheKey (rt : Runtime) (stopSearch : StopSearch)
    (lat lng : number rt) : jsstring :=
  str "ss-" ++ datetime stopSearch ++ str "-" ++ numberToString rt lat
  ++ str "-" ++ numberToString rt lng.

(** The [popupopen] handler of the circle of a stop and search, up to
    the [await]; [lat] and [lng] are the parsed coordinates. *)
Definition stopSearchPopupStart (rt : Runtime) (stopSearch : StopSearch)
    (lat lng : number rt) (refs : BriefingRefs) : PopupStart :=
  let cacheKey := stopSearchCacheKey rt stopSearch lat lng in
  match mapGet cacheKey (briefingCache refs) with
  | Some cached =>
      Finished (MkPopupResult refs
                  (Some (createStopSearchPopupContent rt stopSearch cached)) None)
  | None =>
      if setHas cacheKey (briefingLoading refs)
      then Finished (MkPopupResult refs None None)
      else Waiting (MkBriefingRefs (briefingCache refs)
                      (setAdd cacheKey (briefingLoading refs)))
  end.

Definition stopSearchPopupSettle (rt : Runtime) (stopSearch : StopSearch)
    (lat lng : number rt) (answer : Outcome jsstring) (refs : BriefingRefs)
    : PopupResult :=
  let cacheKey := stopSearchCacheKey rt stopSearch lat lng in
  let loading := setDelete cacheKey (briefingLoading refs) in
  match answer with
  | Return briefingText =>
      let briefingHtml := lineBreaks briefingText in
      MkPopupResult
        (MkBriefingRefs (mapSet cacheKey briefingHtml (briefingCache refs)) loading)
        (Some (createStopSearchPopupContent rt stopSearch briefingHtml)) None
  | Throw _ =>
      MkPopupResult (MkBriefingRefs (briefingCache refs) loading)
        (Some (createStopSearchPopupContent rt stopSearch briefingErrorHtml)) None
  end.

Definition stopSearchPopupOpen (rt : Runtime) (API_KEY : option jsstring)
    (stopSearch : StopSearch) (lat lng : number rt) (allCrimes : list Crime)
    (allStopSearches : list StopSearch) (refs : BriefingRefs)
    : Async PopupResult :=
  fun ep log =>
    match stopSearchPopupStart rt stopSearch lat lng refs with
    | Finished r => (Return r, log)
    | Waiting refs1 =>
        let '(answer, log1) :=
          generateStopSearchBriefing rt API_KEY stopSearch allCrimes
            allStopSearches ep log in
        (Return (stopSearchPopupSettle rt stopSearch lat lng answer refs1), log1)
    end.

(** *** Popups opening and briefings arriving, in any order

    One event is a popup opening (its handler runs up to the [await]) or
    a briefing arriving for a handler that waits (it runs to its end).
    [waiting] lists the cache keys of the handlers that wait. *)
Inductive MapEvent (rt : Runtime) :=
| CrimePopupOpened (ids : CrimeIds) (crime : Crime)
| CrimeBriefingArrived (ids : CrimeIds) (crime : Crime) (answer : Outcome jsstring)
| StopSearchPopupOpened (stopSearch : StopSearch) (lat lng : number rt)
| StopSearchBriefingArrived (stopSearch : StopSearch) (lat lng : number rt)
    (answer : Outcome jsstring).
Arguments CrimePopupOpened {rt} ids crime.
Arguments CrimeBriefingArrived {rt} ids crime answer.
Arguments StopSearchPopupOpened {rt} stopSearch lat lng.
Arguments StopSearchBriefingArrived {rt} stopSearch lat lng answer.

Record MapState := MkMapState {
  refsNow : BriefingRefs;
  waiting : list jsstring
}.

(** Removes the first occurrence of [k]. *)
Fixpoint removeOne (k : jsstring) (l : list jsstring) : list jsstring :=
  match l with
  | [] => []
  | x :: rest => if jseqb x k then rest else x :: removeOne k rest
  end.

Definition afterStart (cacheKey : jsstring) (s : PopupStart) (st : MapState)
    : MapState :=
  match s with
  | Finished r => MkMapState (refsAfter r) (waiting st)
  | Waiting refs => MkMapState refs (cacheKey :: waiting st)
  end.

(** [None]: the event cannot happen (no handler waits for that
    briefing). *)
Definition mapStep (rt : Runtime) (st : MapState) (e : MapEvent rt)
    : option MapState :=
  match e with
  | CrimePopupOpened ids crime =>
      Some (afterStart (crimeCacheKey ids)
              (crimePopupStart rt ids crime (refsNow st)) st)
  | CrimeBriefingArrived ids crime answer =>
      if setHas (crimeCacheKey ids) (waiting st)
      then Some (MkMapState
                   (refsAfter (crimePopupSettle rt ids crime answer (refsNow st)))
                   (removeOne (crimeCacheKey ids) (waiting st)))
      else None
  | StopSearchPopupOpened ss lat lng =>
      Some (afterStart (stopSearchCacheKey rt ss lat lng)
              (stopSearchPopupStart rt ss lat lng (refsNow st)) st)
  | StopSearchBriefingArrived ss lat lng answer =>
      if setHas (stopSearchCacheKey rt ss lat lng) (waiting st)
      then Some (MkMapState
                   (refsAfter (stopSearchPopupSettle rt ss lat lng answer
                                 (refsNow st)))
                   (removeOne (stopSearchCacheKey rt ss lat lng) (waiting st)))
      else None
  end.
Arguments mapStep rt st e : clear implicits.

Definition mapRun (rt : Runtime) (st : MapState) (events : list (MapEvent rt))
    : option MapState :=
  fold_left (fun acc e => match acc with
                          | Some st' => mapStep rt st' e
                          | None => None
                          end)
    events (Some st).
Arguments mapRun rt st events : clear implicits.

(** [useRef(new Map())] and [useRef(new Set())], and nothing waiting. *)
Definition initialMapState : MapState :=
  MkMapState (MkBriefingRefs [] []) [].

(** The briefing that arrived for the cache key [k], if [e] is one. *)
Definition arrivedFor (rt : Runtime) (k : jsstring) (e : MapEvent rt)
    : option jsstring :=
  match e with
  | CrimeBriefingArrived ids _ (Return text) =>
      if jseqb (crimeCacheKey ids) k then Some text else None
  | StopSearchBriefingArrived ss lat lng (Return text) =>
      if jseqb (stopSearchCacheKey rt ss lat lng) k then Some text else None
  | _ => None
  end.
Arguments arrivedFor rt k e : clear implicits.

(** What the events keep true: no cache key waits twice, and the keys
    that wait are the keys of the loading set. *)
Definition oneEach (st : MapState) : Prop :=
  NoDup (waiting st)
  /\ forall k, In k (waiting st) <-> In k (briefingLoading (refsNow st)).

(** Every entry of the cache is a briefing that arrived for its key. *)
Definition entriesArrived (rt : Runtime) (seen : list (MapEvent rt))
    (st : MapState) : Prop :=
  forall k v,
    mapGet k (briefingCache (refsNow st)) = Some v ->
    exists e text, In e seen /\ arrivedFor rt k e = Some text
                   /\ v = lineBreaks text.
Arguments entriesArrived rt seen st : clear implicits.

(** A crime marker's identifiers, for the worked examples. *)
Definition sampleIds : CrimeIds := MkCrimeIds None (str "1234").

(** ** App.tsx: sorting the tables *)

(** [SortConfig]: the column and the direction, 'asc' or 'desc'. *)
Record SortConfig := MkSortConfig {
  sortKey : jsstring;
  sortDirection : jsstring
}.

(** The initial state of the crime table. *)
Definition initialCrimeSort : SortConfig := MkSortConfig (str "month") (str "desc").

(** The initial state of the stop and search table. *)
Definition initialStopSearchSort : SortConfig :=
  MkSortConfig (str "datetime") (str "desc").

(** [handleCrimeSort(key)], as the function of the previous state that it
    hands to [setCrimeSortConfig]. *)
Definition handleCrimeSort (key : jsstring) (prev : SortConfig) : SortConfig :=
  MkSortConfig key
    (if (jseqb (sortKey prev) key && jseqb (sortDirection prev) (str "desc"))%bool
     then str "asc" else str "desc").

Definition handleStopSearchSort (key : jsstring) (prev : SortConfig)
    : SortConfig :=
  MkSortConfig key
    (if (jseqb (sortKey prev) key && jseqb (sortDirection prev) (str "desc"))%bool
     then str "asc" else str "desc").

(** [a < b] on two numbers; a comparison with NaN ([None]) is false. *)
Definition numberLt (a b : option Z) : bool :=
  match a, b with
  | Some x, Some y => Z.ltb x y
  | _, _ => false
  end.

(** [a < b] on two strings: by code units, a proper prefix first. *)
Fixpoint stringLt (a b : jsstring) : bool :=
  match a, b with
  | _, [] => false
  | [], _ :: _ => true
  | x :: a', y :: b' =>
      if N.ltb x y then true
      else if N.ltb y x then false
      else stringLt a' b'
  end.

(** [moment(s).valueOf()]: NaN for an invalid moment. *)
Definition momentValue (rt : Runtime) (s : jsstring) : option Z :=
  match momentOf rt s with
  | Some c => Some (Moment.valueOf c)
  | None => None
  end.

(** The comparator of [sortedCrimes]: -1, 0 or 1. *)
Definition compareCrimes (rt : Runtime) (crimeSortConfig : SortConfig)
    (a b : Crime) : Z :=
  let byMonth := jseqb (sortKey crimeSortConfig) (str "month") in
  let asc := jseqb (sortDirection crimeSortConfig) (str "asc") in
  let less :=
    if byMonth then numberLt (momentValue rt (month a)) (momentValue rt (month b))
    else stringLt (category a) (category b) in
  let greater :=
    if byMonth then numberLt (momentValue rt (month b)) (momentValue rt (month a))
    else stringLt (category b) (category a) in
  if less then (if asc then (-1)%Z else 1%Z)
  else if greater then (if asc then 1%Z else (-1)%Z)
  else 0%Z.

(** ** App.tsx: actions dispatched one after the other *)


(** ** App.tsx: the two heat map buttons *)

Record HeatToggles := MkHeatToggles {
  isDensityHeatmapVisible : bool;
  isRecencyHeatmapVisible : bool
}.

(** [useState(true)] and [useState(false)]. *)
Definition initialHeatToggles : HeatToggles := MkHeatToggles true false.

(** The click handler of the density button. *)
Definition toggleDensity (s : HeatToggles) : HeatToggles :=
  MkHeatToggles (negb (isDensityHeatmapVisible s))
    (if negb (isDensityHeatmapVisible s) then false
     else isRecencyHeatmapVisible s).

(** The click handler of the recency button. *)
Definition toggleRecency (s : HeatToggles) : HeatToggles :=
  MkHeatToggles
    (if negb (isRecencyHeatmapVisible s) then false
     else isDensityHeatmapVisible s)
    (negb (isRecencyHeatmapVisible s)).

Inductive HeatClick := ClickDensity | ClickRecency.

(** One click; its handler is that of the render which follows the click
    before, so it reads the state that click left. *)
Definition heatClick (s : HeatToggles) (c : HeatClick) : HeatToggles :=
  match c with
  | ClickDensity => toggleDensity s
  | ClickRecency => toggleRecency s
  end.

(** Which heat layer the map's effect adds, with its points; none when
    neither is visible or there is no point. *)
Inductive HeatLayer (rt : Runtime) :=
| DensityLayer (heatData : list (HeatPoint rt))
| RecencyLayer (heatData : list (HeatPoint rt))
| NoHeatLayer.
Arguments DensityLayer {rt} heatData.
Arguments RecencyLayer {rt} heatData.
Arguments NoHeatLayer {rt}.

Definition updateHeatmaps (rt : Runtime) (clock : nat -> Moment.Civil)
    (crimes : list Crime) (s : HeatToggles) : HeatLayer rt :=
  if isDensityHeatmapVisible s then
    let heatData := densityHeatData rt crimes in
    if Nat.ltb 0 (List.length heatData) then DensityLayer heatData
    else NoHeatLayer
  else if isRecencyHeatmapVisible s then
    let heatData := recencyHeatData rt clock crimes in
    if Nat.ltb 0 (List.length heatData) then RecencyLayer heatData
    else NoHeatLayer
  else NoHeatLayer.

(** ** App.tsx: selecting a row or a marker *)

(** What a row hands to [handleItemSelection] as its [item]. *)
Inductive Item :=
| CrimeItem (ids : CrimeIds) (crime : Crime)
| StopSearchItem (stopSearch : StopSearch).

Record Selection := MkSelection {
  selectedCrimeId : option jsstring;
  selectedStopSearch : option Item
}.

(** [crime.persistent_id || String(crime.id)]: the id of a table row and
    of a marker. *)
Definition crimeRowId (ids : CrimeIds) : jsstring :=
  orElse (persistent_id ids) (id ids).

(** [(item as Crime).persistent_id || String((item as Crime).id)]; a stop
    and search has neither field. *)
Definition itemCrimeId (item : Item) : jsstring :=
  match item with
  | CrimeItem ids _ => crimeRowId ids
  | StopSearchItem _ => str "undefined"
  end.

(** [handleItemSelection(type, item)]: the selection it sets, and whether
    it scrolls the map into view. *)
Definition handleItemSelection (type : option jsstring) (item : option Item)
    : Selection * bool :=
  (match type, item with
   | Some t, Some it =>
       if jseqb t (str "crime") then MkSelection (Some (itemCrimeId it)) None
       else if jseqb t (str "stopSearch") then MkSelection None (Some it)
       else MkSelection None None
   | _, _ => MkSelection None None
   end,
   match item with Some _ => true | None => false end).

(** What a click on a crime marker does: [onCrimeSelect(crimeId)], the
    prop being [handleItemSelection]. *)
Definition markerClick (ids : CrimeIds) : Selection * bool :=
  handleItemSelection (Some (crimeRowId ids)) None.

(** ** App.tsx: the category filter *)

(** The effect that sets [filteredCrimes]: all the crimes when the
    selection is 'all', else those of the selected category. *)
Definition filterByCategory (selectedCategory : jsstring)
    (allCrimes : list Crime) : list Crime :=
  if negb (jseqb selectedCategory (str "all"))
  then filter (fun crime => jseqb (category crime) selectedCategory) allCrimes
  else allCrimes.

(* ================================================================== *)
(** * Part II. Properties                                              *)
(* ================================================================== *)

Example trim_example : trim (str "  ab c ") = str "ab c".
Proof. reflexivity. Qed.

(** ** The modal reducer *)

Lemma openCount_setFlag (key : ModalKey) :
  openCount (setFlag (modal initialModalState) key) = 1%nat.
Proof. destruct key; reflexivity. Qed.

Lemma openCount_step (s : ModalStore) (a : ModalAction) :
  (openCount (modal s) <= 1)%nat ->
  (openCount (modal (modalReducer s a)) <= 1)%nat.
Proof.
  intros H. destruct a as [key c| | b | c]; cbn [modalReducer modal].
  - rewrite openCount_setFlag. lia.
  - cbn. lia.
  - exact H.
  - exact H.
Qed.

Lemma openCount_run (actions : list ModalAction) :
  forall s, (openCount (modal s) <= 1)%nat ->
            (openCount (modal (fold_left modalReducer actions s)) <= 1)%nat.
Proof.
  induction actions as [|a actions IH]; intros s H; cbn [fold_left].
  - exact H.
  - apply IH. now apply openCount_step.
Qed.

(** C10. In every state that a sequence of actions reaches from
    [initialModalState], at most one of the four modal flags is true;
    [OPEN_MODAL] leaves exactly the requested flag set, whatever the flags
    were before, [CLOSE_MODAL] clears the four flags, and [SET_LOADING]
    and [SET_CONTENT] leave them as they were. *)
Theorem modal_at_most_one_open :
  (forall actions : list ModalAction,
      (openCount (modal (fold_left modalReducer actions initialModalState)) <= 1)%nat)
  /\ (forall s key c k,
        getFlag (modal (modalReducer s (OPEN_MODAL key c))) k = true <-> k = key)
  /\ (forall s, modal (modalReducer s CLOSE_MODAL)
                = MkModalState false false false false)
  /\ (forall s b, modal (modalReducer s (SET_LOADING b)) = modal s)
  /\ (forall s c, modal (modalReducer s (SET_CONTENT c)) = modal s).
Proof.
  repeat split.
  - intros actions. apply openCount_run. cbn. lia.
  - destruct key, k; cbn; intros H; congruence.
  - intros ->. destruct key; reflexivity.
Qed.

(** ** Character classes and [trim] *)

Ltac charclass :=
  unfold isSpace, isWord, isDigit, JSONParser.isJsonSpace, in_range in *;
  repeat rewrite ?orb_true_iff, ?andb_true_iff, ?orb_false_iff,
    ?andb_false_iff, ?N.eqb_eq, ?N.eqb_neq, ?N.leb_le, ?N.leb_gt in *;
  lia.

Lemma jsonSpace_isSpace c : JSONParser.isJsonSpace c = true -> isSpace c = true.
Proof. intros H. charclass. Qed.

Lemma space_not_word c : isSpace c = true -> isWord c = false.
Proof.
  intros H. destruct (isWord c) eqn:E; [exfalso; charclass | reflexivity].
Qed.

Lemma allSpace_app a b : allSpace (a ++ b) <-> allSpace a /\ allSpace b.
Proof. unfold allSpace. rewrite forallb_app, andb_true_iff. tauto. Qed.

Lemma allSpace_rev a : allSpace a -> allSpace (rev a).
Proof.
  unfold allSpace. rewrite !forallb_forall. intros H x Hx.
  apply H. now apply in_rev.
Qed.

Lemma trimStart_split s :
  exists l1, s = l1 ++ trimStart s /\ allSpace l1
             /\ (trimStart s = [] \/
                 exists a r, trimStart s = a :: r /\ isSpace a = false).
Proof.
  induction s as [|c s IH]; cbn [trimStart].
  - exists []. repeat split. now left.
  - destruct (isSpace c) eqn:E.
    + destruct IH as (l1 & H1 & H2 & H3). exists (c :: l1). repeat split.
      * cbn. now f_equal.
      * unfold allSpace in *. cbn. now rewrite E.
      * exact H3.
    + exists []. repeat split. right. now exists c, s.
Qed.

Lemma trimStart_allSpace l s : allSpace l -> trimStart (l ++ s) = trimStart s.
Proof.
  unfold allSpace. induction l as [|c l IH]; cbn; [reflexivity|].
  destruct (isSpace c); [intros H; now apply IH | discriminate].
Qed.

Lemma trimStart_head a r : isSpace a = false -> trimStart (a :: r) = a :: r.
Proof. intros H. cbn. now rewrite H. Qed.

Lemma trimEnd_split s :
  exists l2, s = trimEnd s ++ l2 /\ allSpace l2
             /\ (trimEnd s = [] \/
                 exists r z, trimEnd s = r ++ [z] /\ isSpace z = false).
Proof.
  unfold trimEnd. destruct (trimStart_split (rev s)) as (l1 & H1 & H2 & H3).
  exists (rev l1). repeat split.
  - rewrite <- rev_app_distr, <- H1. now rewrite rev_involutive.
  - now apply allSpace_rev.
  - destruct H3 as [-> | (a & r & -> & Ha)]; [now left|].
    right. exists (rev r), a. now cbn.
Qed.

Lemma trimEnd_allSpace s l : allSpace l -> trimEnd (s ++ l) = trimEnd s.
Proof.
  intros H. unfold trimEnd. rewrite rev_app_distr.
  rewrite trimStart_allSpace; [reflexivity | now apply allSpace_rev].
Qed.

Lemma trimEnd_last r z : isSpace z = false -> trimEnd (r ++ [z]) = r ++ [z].
Proof.
  intros H. unfold trimEnd. rewrite rev_app_distr. cbn [rev app].
  rewrite trimStart_head by exact H. cbn [rev]. now rewrite rev_involutive.
Qed.

Lemma trim_tight b l1 l2 :
  tight b -> allSpace l1 -> allSpace l2 -> trim (l1 ++ b ++ l2) = b.
Proof.
  intros [(a & r & Hb & Ha) (r' & z & Hb' & Hz)] H1 H2. unfold trim.
  rewrite trimStart_allSpace by exact H1.
  assert (E : trimStart (b ++ l2) = b ++ l2).
  { rewrite Hb. cbn [app]. now apply trimStart_head. }
  rewrite E, trimEnd_allSpace by exact H2.
  rewrite Hb'. now apply trimEnd_last.
Qed.

Lemma trim_tight_id b : tight b -> trim b = b.
Proof.
  intros H. rewrite <- (trim_tight (l1:=[]) (l2:=[]) H) at 2; try reflexivity.
  cbn [app]. now rewrite app_nil_r.
Qed.

Lemma trim_spec s :
  exists l1 l2, s = l1 ++ trim s ++ l2 /\ allSpace l1 /\ allSpace l2
                /\ (trim s = [] \/ tight (trim s)).
Proof.
  unfold trim.
  destruct (trimStart_split s) as (l1 & H1 & A1 & T1).
  destruct (trimEnd_split (trimStart s)) as (l2 & H2 & A2 & T2).
  exists l1, l2. repeat split; try assumption.
  - now rewrite <- H2.
  - destruct T2 as [E | (r & z & E & Hz)]; [now left|]. right. split.
    + remember (trimStart s) as t eqn:Et. rewrite E in H2.
      destruct T1 as [E1 | (a & r1 & E1 & Ha)].
      * rewrite E1 in H2. now destruct r.
      * rewrite E. rewrite E1 in H2. destruct r as [|x r]; cbn in H2 |- *.
        -- injection H2 as -> _. now exists z, [].
        -- injection H2 as -> _. now exists x, (r ++ [z]).
    + now exists r, z.
Qed.

(** ** The backtracking matcher on the fence pattern *)

Section Matcher.

Import Regex FencePattern.

Lemma starG_stop p k i s cs :
  stops p s -> starG p k i s cs = k (MState i s cs).
Proof.
  intros [-> | (a & r & -> & H)]; cbn; [reflexivity | now rewrite H].
Qed.

Lemma starG_first p k xs rest cs r :
  forallb p xs = true -> stops p rest ->
  forall i, k (MState (List.length xs + i) rest cs) = Some r ->
            starG p k i (xs ++ rest) cs = Some r.
Proof.
  intros Hxs Hrest. induction xs as [|x xs IH]; intros i Hk.
  - cbn [app]. rewrite starG_stop by exact Hrest. exact Hk.
  - cbn in Hxs. apply andb_true_iff in Hxs. destruct Hxs as [Hx Hxs].
    cbn [app starG]. rewrite Hx. rewrite (IH Hxs (S i)); [reflexivity|].
    now rewrite Nat.add_succ_r.
Qed.

Lemma starG_sound p k s :
  forall i cs r, starG p k i s cs = Some r ->
  exists xs rest, s = xs ++ rest /\ forallb p xs = true
                  /\ k (MState (List.length xs + i) rest cs) = Some r.
Proof.
  induction s as [|c s IH]; intros i cs r H; cbn in H.
  - now exists [], [].
  - destruct (p c) eqn:Hc.
    + destruct (starG p k (S i) s cs) as [r'|] eqn:E.
      * injection H as <-. destruct (IH _ _ _ E) as (xs & rest & -> & Hxs & Hk).
        exists (c :: xs), rest. repeat split.
        -- cbn. now rewrite Hc.
        -- cbn [List.length]. now rewrite Nat.add_succ_r in Hk.
      * now exists [], (c :: s).
    + now exists [], (c :: s).
Qed.

Lemma starL_first p k xs rest cs r :
  forallb p xs = true ->
  forall i,
    (forall a b, xs = a ++ b -> b <> [] ->
                 k (MState (List.length a + i) (b ++ rest) cs) = None) ->
    k (MState (List.length xs + i) rest cs) = Some r ->
    starL p k i (xs ++ rest) cs = Some r.
Proof.
  intros Hxs. induction xs as [|x xs IH]; intros i Hfail Hk.
  - cbn [app]. destruct rest; cbn; cbn in Hk; now rewrite Hk.
  - cbn in Hxs. apply andb_true_iff in Hxs. destruct Hxs as [Hx Hxs].
    cbn [app starL].
    pose proof (Hfail [] (x :: xs) eq_refl ltac:(discriminate)) as F.
    cbn [List.length Nat.add app] in F. rewrite F.
    rewrite Hx. apply (IH Hxs (S i)).
    + intros a b -> Hb. rewrite Nat.add_succ_r.
      now apply (Hfail (x :: a) b).
    + now rewrite Nat.add_succ_r.
Qed.

Lemma closing_inv i s cs k r :
  run closing (MState i s cs) k = Some r -> s = backticks.
Proof.
  cbn. intros H.
  do 3 (destruct s as [|? s]; [discriminate|];
        destruct (N.eqb_spec n 96); [subst n | discriminate]).
  destruct s; [reflexivity | discriminate].
Qed.

Lemma closing_run i cs (k : cont) r :
  (forall n, k (MState n [] cs) = Some r) ->
  run closing (MState i backticks cs) k = Some r.
Proof. intros H. cbn. apply H. Qed.

Lemma succ_eqb i : Nat.eqb (S i) i = false.
Proof. apply Nat.eqb_neq. lia. Qed.

Lemma opt_char_cases c i s cs (k : cont) r :
  run (Opt (Char c)) (MState i s cs) k = Some r ->
  k (MState i s cs) = Some r
  \/ exists s', s = c :: s' /\ k (MState (S i) s' cs) = Some r.
Proof.
  cbn [run pos rest caps]. destruct s as [|x s]; [now left|].
  destruct (N.eqb_spec x c) as [->|]; [|now left].
  rewrite succ_eqb.
  destruct (k (MState (S i) s cs)) as [r'|] eqn:E; [|now left].
  intros [= <-]. right. now exists s.
Qed.

Lemma opt_char_skip c i a s cs (k : cont) :
  a <> c -> run (Opt (Char c)) (MState i (a :: s) cs) k = k (MState i (a :: s) cs).
Proof. intros H. cbn [run pos rest caps]. now destruct (N.eqb_spec a c). Qed.

Lemma run_seq r1 r2 st k :
  run (Seq r1 r2) st k = run r1 st (fun st' => run r2 st' k).
Proof. reflexivity. Qed.

Lemma run_starG p st k :
  run (StarGreedy p) st k = starG p k (pos st) (rest st) (caps st).
Proof. reflexivity. Qed.

Lemma tail_sound i s cs k r :
  run tailRegex (MState i s cs) k = Some r ->
  exists w, s = w ++ backticks /\ allSpace w.
Proof.
  intros H.
  change tailRegex
    with (Seq (Opt (Char 10)) (Seq (StarGreedy isSpace) closing)) in H.
  rewrite run_seq in H. apply opt_char_cases in H.
  destruct H as [H | (s' & -> & H)];
    rewrite run_seq, run_starG in H; cbn [pos rest caps] in H;
    apply starG_sound in H; destruct H as (xs & rst & -> & Hxs & Hk);
    apply closing_inv in Hk; subst rst.
  - now exists xs.
  - exists (10%N :: xs). split; [reflexivity|]. unfold allSpace. cbn.
    exact Hxs.
Qed.

Lemma backticks_stop : stops isSpace backticks.
Proof. right. now exists 96%N, [96%N; 96%N]. Qed.

Lemma tail_complete w i cs (k : cont) r :
  allSpace w -> (forall n, k (MState n [] cs) = Some r) ->
  run tailRegex (MState i (w ++ backticks) cs) k = Some r.
Proof.
  intros Hw Hk.
  change tailRegex
    with (Seq (Opt (Char 10)) (Seq (StarGreedy isSpace) closing)).
  assert (G : forall xs j, allSpace xs ->
              run (Seq (StarGreedy isSpace) closing)
                  (MState j (xs ++ backticks) cs) k = Some r).
  { intros xs j Hxs. rewrite run_seq, run_starG. cbn [pos rest caps].
    apply starG_first; [exact Hxs | exact backticks_stop |].
    now apply closing_run. }
  rewrite run_seq.
  destruct w as [|x w].
  - cbn [app]. unfold backticks at 1. rewrite opt_char_skip by discriminate.
    apply (G [] i). reflexivity.
  - destruct (N.eqb_spec x 10) as [->|Hx].
    + unfold allSpace in Hw. cbn in Hw.
      pose proof (G w (S i) Hw) as E.
      cbn [run app pos rest caps]. rewrite N.eqb_refl, succ_eqb.
      rewrite run_seq, run_starG in E. cbn [pos rest caps] in E.
      now rewrite E.
    + cbn [app]. rewrite opt_char_skip by exact Hx. now apply (G (x :: w) i).
Qed.

Lemma firstn_length_app {A} (l r : list A) : firstn (List.length l) (l ++ r) = l.
Proof. induction l; cbn; [reflexivity | now f_equal]. Qed.

Lemma forallb_any (s : jsstring) : forallb (fun _ : N => true) s = true.
Proof. now induction s. Qed.

Lemma suffix_last {A} (a b r : list A) z :
  a ++ b = r ++ [z] -> b <> [] -> exists b', b = b' ++ [z].
Proof.
  intros E Hb. destruct (exists_last Hb) as (b' & y & ->).
  rewrite app_assoc in E. apply app_inj_tail in E. destruct E as [_ ->].
  now exists b'.
Qed.

Lemma run_group n r st k :
  run (Group n r) st k
  = run r st (fun st' =>
      k (MState (pos st') (rest st')
           (setcap n (firstn (pos st' - pos st) (rest st)) (caps st')))).
Proof. reflexivity. Qed.

Lemma run_starL p st k :
  run (StarLazy p) st k = starL p k (pos st) (rest st) (caps st).
Proof. reflexivity. Qed.

Lemma body_match b w2 i cs :
  tight b -> allSpace w2 ->
  run bodyRegex (MState i (b ++ w2 ++ backticks) cs) accept
  = Some (setcap 2 b cs).
Proof.
  intros [(a & r0 & Hb & Ha) (r' & z & Hb' & Hz)] Hw.
  unfold bodyRegex. rewrite run_seq.
  assert (Ha10 : a <> 10%N) by (intros ->; discriminate).
  rewrite Hb at 1. cbn [app]. rewrite opt_char_skip by exact Ha10.
  change (a :: r0 ++ w2 ++ backticks) with ((a :: r0) ++ w2 ++ backticks).
  rewrite <- Hb. rewrite run_seq, run_group, run_starL.
  cbn [pos rest caps].
  apply starL_first.
  - apply forallb_any.
  - intros x y Hxy Hy. cbn [pos rest caps].
    match goal with |- ?t = None => destruct t as [res|] eqn:E end;
      [|reflexivity].
    exfalso. apply tail_sound in E. destruct E as (w & E & Hw').
    rewrite app_assoc in E. apply app_inv_tail in E. subst w.
    apply allSpace_app in Hw'. destruct Hw' as [Hy' _].
    rewrite Hxy in Hb'.
    destruct (@suffix_last _ _ _ _ _ Hb' Hy) as (y' & ->).
    apply allSpace_app in Hy'. destruct Hy' as [_ Hz'].
    unfold allSpace in Hz'. cbn in Hz'. rewrite Hz in Hz'. discriminate.
  - cbn [pos rest caps]. rewrite Nat.add_sub, firstn_length_app.
    now apply tail_complete.
Qed.

Lemma tight_stop b s : tight b -> stops isSpace (b ++ s).
Proof. intros [(a & r & -> & Ha) _]. right. now exists a, (r ++ s). Qed.

(** From the white space after the language tag to the end. *)
Lemma afterTag_match w1 b w2 i cs :
  allSpace w1 -> tight b -> allSpace w2 ->
  run (Seq (StarGreedy isSpace) bodyRegex)
      (MState i (w1 ++ b ++ w2 ++ backticks) cs) accept
  = Some (setcap 2 b cs).
Proof.
  intros H1 Hb H2. rewrite run_seq, run_starG. cbn [pos rest caps].
  apply starG_first; [exact H1 | now apply tight_stop |].
  now apply body_match.
Qed.

Lemma fenceRegex_unfold st k :
  run fenceRegex st k
  = run Bol st (fun s0 =>
      run (Char 96) s0 (fun s1 =>
        run (Char 96) s1 (fun s2 =>
          run (Char 96) s2 (fun s3 =>
            run (Opt (Group 1 (StarGreedy isWord))) s3 (fun s4 =>
              run (Seq (StarGreedy isSpace) bodyRegex) s4 k))))).
Proof. reflexivity. Qed.

Lemma run_bol s cs k : run Bol (MState 0 s cs) k = k (MState 0 s cs).
Proof. reflexivity. Qed.

Lemma run_char c i s cs k :
  run (Char c) (MState i (c :: s) cs) k = k (MState (S i) s cs).
Proof. cbn [run pos rest caps]. now rewrite N.eqb_refl. Qed.

Lemma run_opt r st k :
  run (Opt r) st k
  = match run r st (fun st' =>
                      if Nat.eqb (pos st') (pos st) then None else k st') with
    | Some x => Some x
    | None => k st
    end.
Proof. reflexivity. Qed.

Lemma fence_match tag l1 b w2 :
  forallb isWord tag = true -> allSpace l1 -> tight b -> allSpace w2 ->
  exists m,
    exec fenceRegex (backticks ++ tag ++ (10%N :: l1) ++ b ++ w2 ++ backticks)
    = Some m /\ m 2%nat = Some b.
Proof.
  intros Htag H1 Hb H2.
  assert (Hw1 : allSpace (10%N :: l1)) by (unfold allSpace; cbn; exact H1).
  assert (Hstop : stops isWord ((10%N :: l1) ++ b ++ w2 ++ backticks)).
  { right. exists 10%N, (l1 ++ b ++ w2 ++ backticks). now split. }
  assert (E : exists m,
    run fenceRegex
        (MState 0 (backticks ++ tag ++ (10%N :: l1) ++ b ++ w2 ++ backticks)
           nocaps)
        accept = Some m /\ m 2%nat = Some b).
  { rewrite fenceRegex_unfold. unfold backticks at 1. cbn [app].
    rewrite run_bol, !run_char, run_opt, run_group, run_starG.
    cbn [pos rest caps].
    destruct tag as [|t tag].
    - pose proof (@afterTag_match (10%N :: l1) b w2 3 nocaps Hw1 Hb H2) as M.
      cbn [app] in M, Hstop |- *.
      rewrite starG_stop by exact Hstop. cbn [pos rest caps].
      rewrite Nat.eqb_refl, M. eexists. split; reflexivity.
    - set (cs1 := setcap 1 (t :: tag) nocaps).
      change (t :: tag ++ 10%N :: l1 ++ b ++ w2 ++ backticks)
        with ((t :: tag) ++ (10%N :: l1) ++ b ++ w2 ++ backticks).
      rewrite (@starG_first isWord _ (t :: tag) _ nocaps (setcap 2 b cs1) Htag Hstop).
      + eexists. split; reflexivity.
      + cbn [pos rest caps].
        replace (Nat.eqb (List.length (t :: tag) + 3) 3) with false
          by (symmetry; apply Nat.eqb_neq; cbn; lia).
        rewrite Nat.add_sub, firstn_length_app.
        apply (@afterTag_match (10%N :: l1) b w2 _ cs1 Hw1 Hb H2). }
  destruct E as (m & E & Hm). exists m. split; [|exact Hm].
  unfold exec.
  destruct (backticks ++ tag ++ (10%N :: l1) ++ b ++ w2 ++ backticks);
    cbn [scan]; fold accept; now rewrite E.
Qed.

Lemma run_bol_later i s cs k : run Bol (MState (S i) s cs) k = None.
Proof. reflexivity. Qed.

Lemma scan_after_start s : forall i, scan fenceRegex (S i) s = None.
Proof.
  induction s as [|c s IH]; intros i; cbn [scan];
    rewrite fenceRegex_unfold, run_bol_later; [reflexivity | apply IH].
Qed.

(** A text that does not start with a backtick is not fenced. *)
Lemma exec_no_fence s :
  (forall r, s <> 96%N :: r) -> exec fenceRegex s = None.
Proof.
  intros H. unfold exec. destruct s as [|c s]; cbn [scan];
    rewrite fenceRegex_unfold, run_bol.
  - reflexivity.
  - cbn [run pos rest caps].
    destruct (N.eqb_spec c 96) as [->|_]; [now destruct (H s)|].
    apply scan_after_start.
Qed.

End Matcher.

(** ** [JSON.parse]: white space around the text, and the first character *)

Section ParserFacts.

Import JSONParser.

Lemma step_error st c : mode st = MError -> step st c = perror.
Proof. destruct st as [stk m]. cbn. now intros ->. Qed.

Lemma run_error s : forall st, mode st = MError -> finish (fold_left step s st) = None.
Proof.
  induction s as [|c s IH]; intros st H; cbn [fold_left].
  - unfold finish. now rewrite H.
  - apply IH. now rewrite step_error.
Qed.

(** Rewrites every test of [c] against a constant that is not a white
    space character to [false]. *)
Ltac not_that_char H :=
  repeat match goal with
         | |- context [N.eqb ?c ?k] =>
             let E := fresh "E" in
             assert (E : N.eqb c k = false)
               by (apply N.eqb_neq; intros ->; vm_compute in H; discriminate H);
             rewrite E; clear E
         end.

Lemma space_not_digit c : isSpace c = true -> in_range 48 57 c = false.
Proof.
  intros H. destruct (in_range 48 57 c) eqn:E; [exfalso; charclass | reflexivity].
Qed.

Lemma space_not_digit19 c : isSpace c = true -> in_range 49 57 c = false.
Proof.
  intros H. destruct (in_range 49 57 c) eqn:E; [exfalso; charclass | reflexivity].
Qed.

Lemma space_not_hex c : isSpace c = true -> hexVal c = None.
Proof.
  intros H. unfold hexVal, isDigit. rewrite space_not_digit by exact H.
  destruct (in_range 65 70 c) eqn:E1; [exfalso; charclass|].
  destruct (in_range 97 102 c) eqn:E2; [exfalso; charclass|]. reflexivity.
Qed.

Lemma space_numStart c : isSpace c = true -> numStart c = None.
Proof.
  intros H. unfold numStart. not_that_char H.
  now rewrite space_not_digit19.
Qed.

Lemma space_numStep a c : isSpace c = true -> numStep a c = None.
Proof.
  intros H. destruct a as [ph ng m sc en ev].
  destruct ph; cbn [numStep]; unfold isExpMark, isDigit; not_that_char H;
    rewrite ?space_not_digit, ?space_not_digit19 by exact H; reflexivity.
Qed.

Lemma space_startValue stk b c :
  isSpace c = true -> startValue stk b c = perror.
Proof.
  intros H. unfold startValue. not_that_char H.
  now rewrite space_numStart.
Qed.

Lemma space_escape c : isSpace c = true -> escapeChar c = None.
Proof. intros H. unfold escapeChar. now not_that_char H. Qed.

Lemma lit_not_space l k c :
  nth_error (litText l) k = Some c -> isSpace c = false.
Proof.
  destruct l; do 6 (destruct k as [|k]; [now intros [= <-]|]);
    cbn; intros H; try discriminate; now destruct k.
Qed.

Lemma finish_perror : finish perror = None.
Proof. reflexivity. Qed.

(** Reading a white space character never completes a text that was not
    already complete. *)
Lemma stepMain_space st c v :
  isSpace c = true -> (forall a, mode st <> MNumber a) ->
  finish (stepMain st c) = Some v -> finish st = Some v.
Proof.
  intros H Hn. destruct st as [stk m]. unfold stepMain. cbn [stack mode].
  destruct m as [b|b| | |isKey acc esc|a|l k|w|];
    try (destruct (isJsonSpace c); [exact (fun E => E)|]).
  - now rewrite space_startValue.
  - not_that_char H. now rewrite finish_perror.
  - not_that_char H. now rewrite finish_perror.
  - not_that_char H. now rewrite finish_perror.
  - unfold stepString. destruct esc as [| |n x].
    + not_that_char H. destruct (N.ltb c 32); discriminate.
    + not_that_char H. now rewrite space_escape.
    + now rewrite space_not_hex.
  - now destruct (Hn a).
  - destruct (nth_error (litText l) k) as [c'|] eqn:E; [|discriminate].
    destruct (N.eqb_spec c c') as [->|]; [|discriminate].
    apply lit_not_space in E. congruence.
  - now rewrite finish_perror.
  - now rewrite finish_perror.
Qed.

Lemma step_space st c v :
  isSpace c = true -> finish (step st c) = Some v -> finish st = Some v.
Proof.
  intros H. destruct st as [stk m].
  destruct m as [b|b| | |isKey acc esc|a|l k|w|];
    try (apply stepMain_space; [exact H | discriminate]).
  unfold step. cbn [mode stack]. rewrite space_numStep by exact H.
  unfold finish at 2. cbn [mode stack].
  destruct (numComplete a); [|discriminate].
  destruct stk as [|[items|ms [key|]] tl]; cbn [deliver].
  - intros E. apply stepMain_space in E; [exact E | exact H | discriminate].
  - intros E. apply stepMain_space in E; [discriminate E | exact H | discriminate].
  - intros E. apply stepMain_space in E; [discriminate E | exact H | discriminate].
  - intros E. apply stepMain_space in E; [discriminate E | exact H | discriminate].
Qed.

Lemma run_trailing l : allSpace l ->
  forall st v, finish (fold_left step l st) = Some v -> finish st = Some v.
Proof.
  unfold allSpace. induction l as [|c l IH]; cbn [fold_left forallb];
    intros Hl st v H; [exact H|].
  apply andb_true_iff in Hl. destruct Hl as [Hc Hl].
  apply step_space with (c := c); [exact Hc|]. now apply IH.
Qed.

Lemma step_init_space c :
  isSpace c = true -> step init c = init \/ step init c = perror.
Proof.
  intros H. unfold step, stepMain, init. cbn [mode stack].
  destruct (isJsonSpace c); [now left | right].
  now apply space_startValue.
Qed.

Lemma run_leading l s v : allSpace l ->
  finish (fold_left step (l ++ s) init) = Some v ->
  finish (fold_left step s init) = Some v.
Proof.
  unfold allSpace. induction l as [|c l IH]; cbn [app fold_left forallb];
    intros Hl H; [exact H|].
  apply andb_true_iff in Hl. destruct Hl as [Hc Hl].
  destruct (@step_init_space c Hc) as [E|E]; rewrite E in H.
  - now apply IH.
  - now rewrite run_error in H.
Qed.

Lemma parse_not_backtick s v r : JSON_parse s = Some v -> s <> 96%N :: r.
Proof.
  intros H ->. unfold JSON_parse in H. cbn [fold_left] in H.
  change (step init 96) with perror in H. now rewrite run_error in H.
Qed.

Lemma parse_nonempty v : JSON_parse [] <> Some v.
Proof. discriminate. Qed.

(** What [JSON.parse] accepts, it accepts with the same value once the
    white space around it is removed; what is left is not empty and does
    not start with a backtick. *)
Lemma parse_trim s v :
  JSON_parse s = Some v ->
  JSON_parse (trim s) = Some v /\ tight (trim s)
  /\ (forall r, trim s <> 96%N :: r).
Proof.
  intros H. destruct (trim_spec s) as (l1 & l2 & E & H1 & H2 & T).
  assert (P : JSON_parse (trim s) = Some v).
  { unfold JSON_parse in *. rewrite E in H. apply run_leading in H; [|exact H1].
    rewrite fold_left_app in H. now apply run_trailing in H. }
  split; [exact P | split].
  - destruct T as [T|T]; [|exact T]. rewrite T in P. discriminate.
  - intros r. now apply parse_not_backtick with (v := v).
Qed.

End ParserFacts.

(** ** [parseJsonResponse] *)

Lemma str_backticks : str "```" = FencePattern.backticks.
Proof. reflexivity. Qed.

Lemma fence_tight tag s : tight (fence tag s).
Proof.
  unfold fence. rewrite str_backticks. unfold FencePattern.backticks. split.
  - eexists _, _. split; [reflexivity | reflexivity].
  - exists ([96; 96; 96]%N ++ tag ++ [10%N] ++ s ++ [10%N] ++ [96; 96]%N), 96%N.
    split; [|reflexivity]. rewrite <- !app_assoc. reflexivity.
Qed.

Lemma tight_truthy b : tight b -> truthy b = true.
Proof. now intros [(a & r & -> & _) _]. Qed.

Lemma stripFence_plain s v : JSON_parse s = Some v -> stripFence s = trim s.
Proof.
  intros H. apply parse_trim in H. destruct H as (_ & _ & H).
  unfold stripFence. now rewrite exec_no_fence.
Qed.

Lemma stripFence_fence tag s v :
  JSON_parse s = Some v -> forallb isWord tag = true ->
  stripFence (fence tag s) = trim s.
Proof.
  intros H Htag. apply parse_trim in H. destruct H as (_ & T & _).
  destruct (trim_spec s) as (l1 & l2 & E & H1 & H2 & _).
  assert (H2' : allSpace (l2 ++ [10%N])).
  { apply allSpace_app. split; [exact H2 | reflexivity]. }
  destruct (@fence_match tag l1 (trim s) (l2 ++ [10%N]) Htag H1 T H2')
    as (m & Hm & Hg).
  assert (F : fence tag s
              = FencePattern.backticks ++ tag ++ (10%N :: l1) ++ trim s
                ++ (l2 ++ [10%N]) ++ FencePattern.backticks).
  { unfold fence. rewrite str_backticks. rewrite E at 1.
    cbn [app]. rewrite <- !app_assoc. reflexivity. }
  unfold stripFence. rewrite (@trim_tight_id _ (fence_tight tag s)).
  rewrite F, Hm, Hg, (@tight_truthy _ T). now apply trim_tight_id.
Qed.

(** The general form of C5: for every text that [JSON.parse] accepts. *)
Lemma parseJsonResponse_fence tag s v :
  JSON_parse s = Some v -> forallb isWord tag = true ->
  parseJsonResponse (fence tag s) = Return v
  /\ parseJsonResponse s = Return v.
Proof.
  intros H Htag. unfold parseJsonResponse.
  rewrite (@stripFence_fence tag s v H Htag), (@stripFence_plain s v H).
  apply parse_trim in H. destruct H as (-> & _). now split.
Qed.

(** C5. For every text [s] that [JSON.parse] reads as an array,
    [parseJsonResponse] returns that array, with the same elements and so
    with as many, both for [s] alone and for [s] wrapped in a code fence,
    whether the fence carries a language tag (any run of word characters)
    or none. *)
Theorem parseJsonResponse_fenced_array (s tag : jsstring) (items : list JSON) :
  JSON_parse s = Some (JArr items) ->
  forallb isWord tag = true ->
  parseJsonResponse (fence tag s) = parseJsonResponse s
  /\ parseJsonResponse s = Return (JArr items)
  /\ parseJsonResponse (fence [] s) = Return (JArr items)
  /\ elementCount (parseJsonResponse (fence tag s)) = Some (List.length items).
Proof.
  intros H Htag.
  destruct (@parseJsonResponse_fence tag s _ H Htag) as [F P].
  destruct (@parseJsonResponse_fence [] s _ H eq_refl) as [F0 _].
  rewrite F, P, F0. repeat split; reflexivity.
Qed.

Lemma parseJsonResponse_fenced_array_witness :
  JSON_parse sampleHotspots = Some (JArr sampleHotspotValues)
  /\ List.length sampleHotspotValues = 3%nat
  /\ parseJsonResponse (fence (str "json") sampleHotspots)
     = parseJsonResponse sampleHotspots
  /\ elementCount (parseJsonResponse (fence (str "json") sampleHotspots))
     = Some 3%nat.
Proof.
  assert (H : JSON_parse sampleHotspots = Some (JArr sampleHotspotValues))
    by (vm_compute; reflexivity).
  split; [exact H | split; [reflexivity|]].
  destruct (@parseJsonResponse_fenced_array sampleHotspots (str "json")
              sampleHotspotValues H eq_refl) as (A & _ & _ & B).
  split; [exact A | exact B].
Defined.

(** ** The entry points without a key, and on short inputs *)

Lemma ai_absent key : keyPresent key = false -> ai key = None.
Proof. now destruct key as [[|c k]|]. Qed.

Lemma ai_present key : keyPresent key = true -> exists client, ai key = Some client.
Proof. destruct key as [[|c k]|]; try discriminate. now eexists. Qed.

(** C7. When the API key is absent (undefined, or empty), each of the
    five entry points returns without throwing and without a request: the
    three briefings and summaries return the fixed sentence
    "AI service is not available (API key missing).", the two
    list-valued ones the empty array. *)
Theorem missing_key_never_fatal (rt : Runtime) (key : option jsstring) :
  keyPresent key = false ->
  forall (crime : Crime) (stopSearch : StopSearch) (crimes : list Crime)
         (stopSearches : list StopSearch) (ep : Endpoint) (log : list Request),
    generateIncidentBriefing rt key crime crimes stopSearches ep log
    = (Return unavailable, log)
    /\ generateStopSearchBriefing rt key stopSearch crimes stopSearches ep log
       = (Return unavailable, log)
    /\ summarizeCrimeTrends rt key crimes ep log = (Return unavailable, log)
    /\ generateCrimeInsights rt key crimes ep log = (Return (JArr []), log)
    /\ generatePredictiveHotspots rt key crimes ep log = (Return (JArr []), log).
Proof.
  intros H crime stopSearch crimes stopSearches ep log.
  unfold generateIncidentBriefing, generateStopSearchBriefing,
    summarizeCrimeTrends, generateCrimeInsights, generatePredictiveHotspots.
  rewrite (ai_absent key H). repeat split.
Qed.

Lemma missing_key_never_fatal_witness :
  keyPresent None = false
  /\ generateIncidentBriefing Ideal.runtime None referenceCrime
       [candidateNear] [] (answering []) []
     = (Return unavailable, [])
  /\ generatePredictiveHotspots Ideal.runtime (Some []) [candidateNear]
       (answering []) []
     = (Return (JArr []), []).
Proof.
  split; [reflexivity|]. split.
  - apply (@missing_key_never_fatal Ideal.runtime None eq_refl referenceCrime
             (MkStopSearch [] [] None [] None) [candidateNear] [] (answering []) []).
  - apply (@missing_key_never_fatal Ideal.runtime (Some []) eq_refl referenceCrime
             (MkStopSearch [] [] None [] None) [candidateNear] [] (answering []) []).
Defined.

(** C9. With fewer than ten crimes [generatePredictiveHotspots] returns
    the empty array, and with no crime [generateCrimeInsights] does; in
    both cases nothing is sent to the model, whether or not a key is
    configured. *)
Theorem short_input_no_request (rt : Runtime) (key : option jsstring)
    (crimes : list Crime) (ep : Endpoint) (log : list Request) :
  (List.length crimes < 10)%nat ->
  generatePredictiveHotspots rt key crimes ep log = (Return (JArr []), log)
  /\ generateCrimeInsights rt key [] ep log = (Return (JArr []), log).
Proof.
  intros H. unfold generatePredictiveHotspots, generateCrimeInsights.
  apply Nat.ltb_lt in H. rewrite H. cbn. now destruct (ai key).
Qed.

Lemma short_input_no_request_witness :
  (List.length [candidateNear; candidateFar; candidateOld] < 10)%nat
  /\ generatePredictiveHotspots Ideal.runtime (Some (str "key"))
       [candidateNear; candidateFar; candidateOld] (answering (str "[]")) []
     = (Return (JArr []), []).
Proof.
  split; [cbn; lia|].
  apply (@short_input_no_request Ideal.runtime (Some (str "key"))
           [candidateNear; candidateFar; candidateOld] (answering (str "[]")) []).
  cbn; lia.
Defined.

(** With a key and enough crimes, exactly one request is sent and its
    answer goes through [parseJsonResponse]. *)
Lemma generateCrimeInsights_run rt key crimes ep log :
  keyPresent key = true -> crimes <> [] ->
  generateCrimeInsights rt key crimes ep log
  = (match ep (insightsRequest rt crimes) with
     | Return text => parseJsonResponse text
     | Throw e => Throw e
     end, log ++ [insightsRequest rt crimes]).
Proof.
  intros Hk Hc. unfold generateCrimeInsights.
  destruct (ai_present key Hk) as (client & ->).
  destruct crimes as [|c crimes]; [now destruct Hc|].
  cbn [List.length Nat.eqb]. unfold bind, generateContent, lift.
  now destruct (ep (insightsRequest rt (c :: crimes))).
Qed.

Lemma generatePredictiveHotspots_run rt key crimes ep log :
  keyPresent key = true -> (10 <= List.length crimes)%nat ->
  generatePredictiveHotspots rt key crimes ep log
  = (match ep (hotspotsRequest rt crimes) with
     | Return text => parseJsonResponse text
     | Throw e => Throw e
     end, log ++ [hotspotsRequest rt crimes]).
Proof.
  intros Hk Hc. unfold generatePredictiveHotspots.
  destruct (ai_present key Hk) as (client & ->).
  replace (Nat.ltb (List.length crimes) 10) with false
    by (symmetry; apply Nat.ltb_ge; exact Hc).
  unfold bind, generateContent, lift.
  now destruct (ep (hotspotsRequest rt crimes)).
Qed.

(** C6. A response that, once a fence is stripped, [JSON.parse] rejects
    makes [parseJsonResponse] throw the error "Failed to parse AI response
    as JSON."; one it accepts is returned as parsed.  Whatever error the
    call throws, [handleAIFeature] makes the call once and ends with the
    message in the modal, red, the spinner off; for the insights feature
    the log then holds the single request of that one call, and the same
    for the hotspots. *)
Theorem malformed_json_surfaced :
  (forall text, JSON_parse (stripFence text) = None ->
                parseJsonResponse text
                = Throw (ErrorObject (str "Failed to parse AI response as JSON.")))
  /\ (forall text v, JSON_parse (stripFence text) = Some v ->
                     parseJsonResponse text = Return v)
  /\ (forall (A : Type) key (apiCall : Async A) onSuccess store ep log msg log',
         apiCall ep log = (Throw (ErrorObject msg), log') ->
         handleAIFeature key apiCall onSuccess store ep log
         = (Return (MkModalStore (setFlag (modal initialModalState) key)
                      (errorNode msg) false), log'))
  /\ (forall rt key crimes onSuccess store ep log text,
         keyPresent key = true -> crimes <> [] ->
         ep (insightsRequest rt crimes) = Return text ->
         JSON_parse (stripFence text) = None ->
         handleAIFeature insights (generateCrimeInsights rt key crimes)
           onSuccess store ep log
         = (Return (MkModalStore (MkModalState false false true false)
                      (errorNode (str "Failed to parse AI response as JSON."))
                      false),
            log ++ [insightsRequest rt crimes]))
  /\ (forall rt key crimes onSuccess store ep log text,
         keyPresent key = true -> (10 <= List.length crimes)%nat ->
         ep (hotspotsRequest rt crimes) = Return text ->
         JSON_parse (stripFence text) = None ->
         handleAIFeature predictive (generatePredictiveHotspots rt key crimes)
           onSuccess store ep log
         = (Return (MkModalStore (MkModalState false false false true)
                      (errorNode (str "Failed to parse AI response as JSON."))
                      false),
            log ++ [hotspotsRequest rt crimes])).
Proof.
  assert (P : forall text, JSON_parse (stripFence text) = None ->
                parseJsonResponse text = Throw parseFailure).
  { intros text H. unfold parseJsonResponse. now rewrite H. }
  split; [exact P | split; [|split; [|split]]].
  - intros text v H. unfold parseJsonResponse. now rewrite H.
  - intros A key apiCall onSuccess store ep log msg log' H.
    unfold handleAIFeature. rewrite H. reflexivity.
  - intros rt key crimes onSuccess store ep log text Hk Hc He Hp.
    unfold handleAIFeature.
    rewrite (@generateCrimeInsights_run rt key crimes ep log Hk Hc), He, (P text Hp).
    reflexivity.
  - intros rt key crimes onSuccess store ep log text Hk Hc He Hp.
    unfold handleAIFeature.
    rewrite (@generatePredictiveHotspots_run rt key crimes ep log Hk Hc), He,
      (P text Hp).
    reflexivity.
Qed.

Lemma malformed_json_surfaced_witness :
  JSON_parse (stripFence (str "Sorry, I cannot help with that.")) = None
  /\ handleAIFeature insights
       (generateCrimeInsights Ideal.runtime (Some (str "key")) [candidateNear])
       (fun _ => RText []) initialModalState
       (answering (str "Sorry, I cannot help with that.")) []
     = (Return (MkModalStore (MkModalState false false true false)
                  (errorNode (str "Failed to parse AI response as JSON."))
                  false),
        [insightsRequest Ideal.runtime [candidateNear]]).
Proof.
  assert (H : JSON_parse (stripFence (str "Sorry, I cannot help with that.")) = None)
    by (vm_compute; reflexivity).
  split; [exact H|].
  destruct malformed_json_surfaced as (_ & _ & _ & W & _).
  apply (W Ideal.runtime (Some (str "key")) [candidateNear] (fun _ => RText [])
           initialModalState (answering (str "Sorry, I cannot help with that."))
           [] (str "Sorry, I cannot help with that.")).
  - reflexivity.
  - discriminate.
  - reflexivity.
  - exact H.
Defined.

(** ** The reference platform *)

Section IdealFacts.

Import Ideal.
Local Open Scope R_scope.

Lemma sgn_pos r : 0 < r -> sgn r = Pos.
Proof.
  intros H. unfold sgn. destruct (Rlt_dec r 0); [lra|].
  destruct (Rlt_dec 0 r); [reflexivity | lra].
Qed.

Lemma sgn_nonneg r : 0 <= r -> sgn r <> Neg.
Proof.
  intros H. unfold sgn. destruct (Rlt_dec r 0); [lra|].
  destruct (Rlt_dec 0 r); discriminate.
Qed.

Lemma xsqrt_nonneg r : 0 <= r -> xsqrt (Fin r) = Fin (sqrt r).
Proof.
  intros H. cbn. pose proof (sgn_nonneg H). now destruct (sgn r).
Qed.

Lemma atan2R_pos y x : 0 < x -> atan2R y x = atan (y / x).
Proof. intros H. unfold atan2R. now rewrite sgn_pos. Qed.

Lemma xle_fin a b : xle (Fin a) (Fin b) = true <-> a <= b.
Proof. cbn. destruct (Rle_dec a b); split; intros; try easy. Qed.

Ltac xcases :=
  intros;
  repeat match goal with x : xreal |- _ => destruct x end;
  cbn in *; try discriminate; try reflexivity;
  unfold scaleInf; repeat (destruct (sgn _); cbn);
  try reflexivity; try discriminate.

Lemma ideal_laws : IEEELaws runtime.
Proof. split; cbn; xcases. Qed.

Lemma near_eq r exact : r = exact -> near r exact.
Proof.
  intros ->. unfold near, eps, eta.
  replace (exact - exact) with 0 by ring. rewrite Rabs_R0.
  pose proof (Rabs_pos exact). lra.
Qed.

Lemma xtoR_fin x a : xtoR x = Some a -> x = Fin a.
Proof. destruct x; cbn; congruence. Qed.

Lemma xdiv_nonzero a b : b <> 0 -> xdiv (Fin a) (Fin b) = Fin (a / b).
Proof.
  intros H. cbn. unfold sgn.
  destruct (Rlt_dec b 0); [reflexivity|].
  destruct (Rlt_dec 0 b); [reflexivity | lra].
Qed.

(** The reference platform meets the standard model, with no error at
    all. *)
Lemma ideal_float_model : FloatModel runtime xtoR.
Proof.
  split.
  - intros d _. exists (decimalValue d). split; [reflexivity | now apply near_eq].
  - exists PI. split; [reflexivity | now apply near_eq].
  - intros x y a b Ea%xtoR_fin Eb%xtoR_fin _. subst x y.
    exists (a + b). split; [reflexivity | now apply near_eq].
  - intros x y a b Ea%xtoR_fin Eb%xtoR_fin _. subst x y.
    exists (a + - b). split; [reflexivity | apply near_eq; ring].
  - intros x y a b Ea%xtoR_fin Eb%xtoR_fin _. subst x y.
    exists (a * b). split; [reflexivity | now apply near_eq].
  - intros x y a b Ea%xtoR_fin Eb%xtoR_fin D _. subst x y.
    exists (a / b). split; [|now apply near_eq].
    cbn [ndiv runtime]. now rewrite xdiv_nonzero.
  - intros x a Ea%xtoR_fin _. subst x.
    exists (sin a). split; [reflexivity | now apply near_eq].
  - intros x a Ea%xtoR_fin _. subst x.
    exists (cos a). split; [reflexivity | now apply near_eq].
  - intros x a Ea%xtoR_fin [P _]. subst x.
    exists (sqrt a). split; [|now apply near_eq].
    cbn [Math_sqrt runtime]. now rewrite xsqrt_nonneg.
  - intros y x a b Ea%xtoR_fin Eb%xtoR_fin P. subst x y.
    exists (atan (a / b)). split; [|now apply near_eq].
    cbn [Math_atan2 runtime xatan2]. now rewrite atan2R_pos.
  - intros x y a b Ea%xtoR_fin Eb%xtoR_fin. subst x y. apply xle_fin.
  - intros x a Ea%xtoR_fin. now subst x.
Qed.

End IdealFacts.

(** ** Real bounds for the enclosures *)

Section RealBounds.

Local Open Scope R_scope.

Lemma fact_R n z : Z.of_nat (fact n) = z -> INR (fact n) = IZR z.
Proof. intros <-. apply INR_IZR_INZ. Qed.

Lemma sin_lb_poly a :
  sin_lb a = a - a * a * a / 6 + a * a * a * a * a / 120
             - a * a * a * a * a * a * a / 5040.
Proof.
  unfold sin_lb, sin_approx, sin_term. cbn [sum_f_R0 Nat.mul Nat.add].
  rewrite (@fact_R 1 1), (@fact_R 3 6), (@fact_R 5 120), (@fact_R 7 5040)
    by reflexivity.
  cbn [pow]. field.
Qed.

Lemma cos_lb_poly a :
  cos_lb a = 1 - a * a / 2 + a * a * a * a / 24
             - a * a * a * a * a * a / 720.
Proof.
  unfold cos_lb, cos_approx, cos_term. cbn [sum_f_R0 Nat.mul Nat.add].
  rewrite (@fact_R 0 1), (@fact_R 2 2), (@fact_R 4 24), (@fact_R 6 720)
    by reflexivity.
  cbn [pow]. field.
Qed.

Lemma cos_ub_poly a :
  cos_ub a = 1 - a * a / 2 + a * a * a * a / 24
             - a * a * a * a * a * a / 720
             + a * a * a * a * a * a * a * a / 40320.
Proof.
  unfold cos_ub, cos_approx, cos_term. cbn [sum_f_R0 Nat.mul Nat.add].
  rewrite (@fact_R 0 1), (@fact_R 2 2), (@fact_R 4 24), (@fact_R 6 720),
    (@fact_R 8 40320) by reflexivity.
  cbn [pow]. field.
Qed.

Lemma PI_gt_3 : 3 < PI.
Proof. pose proof PI2_3_2. lra. Qed.

Lemma square_le a h : 0 <= a <= h -> 0 <= a * a <= h * h.
Proof.
  intros [H0 H1]. split; [now apply Rmult_le_pos|].
  apply Rmult_le_compat; lra.
Qed.

Lemma cube_le a h : 0 <= a <= h -> 0 <= a * a * a <= h * h * h.
Proof.
  intros H. destruct (square_le H) as [Q0 Q1]. split.
  - apply Rmult_le_pos; lra.
  - apply Rmult_le_compat; lra.
Qed.

Lemma sin_cubic a : 0 <= a <= 1 -> a - a * a * a / 6 <= sin a <= a.
Proof.
  intros [Ha Hb]. pose proof PI_gt_3.
  destruct (SIN a ltac:(lra) ltac:(lra)) as [L _].
  assert (U : sin a <= a).
  { destruct (Req_dec a 0) as [->|N]; [rewrite sin_0; lra|].
    apply Rlt_le, sin_lt_x. lra. }
  split; [|exact U].
  eapply Rle_trans; [|exact L]. rewrite sin_lb_poly. clear L U.
  destruct (@square_le a 1 ltac:(lra)) as [Q0 Q1].
  assert (P : 0 <= a * (a * a) * (a * a) * (1 / 120 - a * a / 5040)).
  { repeat apply Rmult_le_pos; lra. }
  lra.
Qed.

Lemma cos_lb_quadratic a : 0 <= a <= 3 / 2 -> 1 - a * a / 2 <= cos_lb a.
Proof.
  intros H. rewrite cos_lb_poly.
  destruct (@square_le a (3 / 2) H) as [Q0 Q1].
  assert (P : 0 <= a * a * (a * a) * (1 / 24 - a * a / 720)).
  { repeat apply Rmult_le_pos; lra. }
  lra.
Qed.

Lemma cos_quadratic a : 0 <= a <= 3 / 2 -> 1 - a * a / 2 <= cos a <= 1.
Proof.
  intros H. pose proof PI_gt_3.
  destruct (COS a ltac:(lra) ltac:(lra)) as [L _].
  split; [|apply COS_bound].
  eapply Rle_trans; [|exact L]. now apply cos_lb_quadratic.
Qed.

(** The sine of an angle of magnitude at most [m <= 1]. *)
Lemma sin_box a m :
  - m <= a <= m -> m <= 1 ->
  a - m * m * m / 6 <= sin a <= a + m * m * m / 6.
Proof.
  intros H Hm. destruct (Rle_dec 0 a) as [P|N].
  - pose proof (@sin_cubic a ltac:(lra)). pose proof (@cube_le a m ltac:(lra)).
    lra.
  - pose proof (@sin_cubic (- a) ltac:(lra)) as S. rewrite sin_neg in S.
    pose proof (@cube_le (- a) m ltac:(lra)). lra.
Qed.

(** The cosine of an angle of magnitude at most [m <= 3/2]. *)
Lemma cos_box a m :
  - m <= a <= m -> m <= 3 / 2 -> 1 - m * m / 2 <= cos a <= 1.
Proof.
  intros H Hm. destruct (Rle_dec 0 a) as [P|N].
  - pose proof (@cos_quadratic a ltac:(lra)). pose proof (@square_le a m ltac:(lra)).
    lra.
  - pose proof (@cos_quadratic (- a) ltac:(lra)) as C. rewrite cos_neg in C.
    pose proof (@square_le (- a) m ltac:(lra)). lra.
Qed.

Lemma sqrt_box a l h : 0 <= l -> 0 <= h -> l * l <= a <= h * h -> l <= sqrt a <= h.
Proof.
  intros Hl Hh [H1 H2].
  assert (A : 0 <= a) by (pose proof (@square_le l l ltac:(lra)); lra).
  split.
  - rewrite <- (sqrt_square l) at 1 by exact Hl.
    apply sqrt_le_1; [apply Rmult_le_pos| |]; lra.
  - rewrite <- (sqrt_square h) by exact Hh.
    apply sqrt_le_1; [|apply Rmult_le_pos|]; lra.
Qed.

Lemma atan_le_of_tan t th :
  - (PI / 2) < th < PI / 2 -> t <= tan th -> atan t <= th.
Proof.
  intros H [L|E].
  - apply atan_increasing in L. rewrite atan_tan in L by exact H. lra.
  - subst t. rewrite atan_tan by exact H. lra.
Qed.

Lemma atan_ge_of_tan t th :
  - (PI / 2) < th < PI / 2 -> tan th <= t -> th <= atan t.
Proof.
  intros H [L|E].
  - apply atan_increasing in L. rewrite atan_tan in L by exact H. lra.
  - subst t. rewrite atan_tan by exact H. lra.
Qed.

Lemma atan_monotone s t : s <= t -> atan s <= atan t.
Proof.
  intros [L|E]; [|subst s; lra]. apply Rlt_le. now apply atan_increasing.
Qed.

(** For an angle in (0, 1], [th <= tan th <= th / (1 - th^2/2)]. *)
Lemma tan_between th :
  0 < th <= 1 -> th <= tan th /\ tan th * (1 - th * th / 2) <= th.
Proof.
  intros H. pose proof PI_gt_3 as P3.
  pose proof (@cos_quadratic th ltac:(lra)) as [C0 C1].
  pose proof (@square_le th 1 ltac:(lra)) as [Q0 Q1].
  pose proof (cos_gt_0 th ltac:(lra) ltac:(lra)) as Cp.
  pose proof (sin_lt_x th (proj1 H)) as Sx.
  pose proof (sin_gt_0 th (proj1 H) ltac:(lra)) as Sp.
  assert (T : tan th * cos th = sin th).
  { unfold tan, Rdiv. rewrite Rmult_assoc, Rinv_l by lra. ring. }
  assert (Tp : 0 < tan th).
  { unfold tan. apply Rdiv_lt_0_compat; lra. }
  split.
  - destruct (COS th ltac:(lra) ltac:(lra)) as [_ U].
    destruct (@sin_cubic th ltac:(lra)) as [S _].
    assert (K : th * cos th <= sin th).
    { apply Rle_trans with (th * cos_ub th);
        [apply Rmult_le_compat_l; lra|].
      rewrite cos_ub_poly.
      pose proof (@cube_le (th * th) 1 ltac:(lra)) as [K0 K1].
      assert (0 <= th * (th * th)
                   * (1 / 3 - th * th / 24 + th * th * (th * th) / 720
                      - th * th * (th * th) * (th * th) / 40320)).
      { apply Rmult_le_pos; [apply Rmult_le_pos; lra|].
        pose proof (@square_le (th * th) 1 ltac:(lra)). lra. }
      lra. }
    apply Rmult_le_reg_r with (cos th); [exact Cp|]. lra.
  - apply Rle_trans with (tan th * cos th); [|lra].
    apply Rmult_le_compat_l; lra.
Qed.

(** The arc tangent of a number in [0, 1]. *)
Lemma atan_box t : 0 <= t <= 1 -> t * (1 - t * t / 2) <= atan t <= t.
Proof.
  intros [H0 H1]. pose proof PI_gt_3 as P3. split.
  - destruct (Req_dec t 0) as [->|N]; [rewrite atan_0; lra|].
    pose proof (@square_le t 1 ltac:(lra)) as [Q0 Q1].
    set (th := t * (1 - t * t / 2)).
    assert (Th : 0 < th <= t).
    { unfold th. split; [apply Rmult_lt_0_compat; lra|].
      assert (t * (1 - t * t / 2) <= t * 1) by (apply Rmult_le_compat_l; lra).
      lra. }
    apply atan_ge_of_tan; [lra|].
    pose proof (@tan_between th ltac:(lra)) as [T0 T1].
    pose proof (@square_le th t ltac:(lra)) as [S0 S1].
    assert (D : 0 < 1 - t * t / 2) by lra.
    apply Rmult_le_reg_r with (1 - t * t / 2); [exact D|].
    fold th. apply Rle_trans with (tan th * (1 - th * th / 2)); [|exact T1].
    apply Rmult_le_compat_l; lra.
  - destruct (Req_dec t 0) as [->|N]; [rewrite atan_0; lra|].
    apply atan_le_of_tan; [lra|]. now apply tan_between; lra.
Qed.

(** A property that holds at the four corners of a box holds, when it is
    convex, at every product and quotient inside. *)
Section Corners.

Variable P : R -> Prop.
Hypothesis convex : forall u v w, P u -> P w -> u <= v <= w -> P v.

Lemma convex_either u v w : P u -> P w -> u <= v <= w \/ w <= v <= u -> P v.
Proof. intros Hu Hw [H|H]; [now apply (@convex u v w) | now apply (@convex w v u)]. Qed.

Lemma mul_side k lb hb b : lb <= b <= hb -> P (k * lb) -> P (k * hb) -> P (k * b).
Proof.
  intros Hb Hl Hh. apply (@convex_either (k * lb) (k * b) (k * hb) Hl Hh).
  destruct (Rle_dec 0 k) as [K|K]; [left | right]; split.
  - apply Rmult_le_compat_l; lra.
  - apply Rmult_le_compat_l; lra.
  - apply Rmult_le_compat_neg_l; lra.
  - apply Rmult_le_compat_neg_l; lra.
Qed.

Lemma mul_box la ha lb hb a b :
  la <= a <= ha -> lb <= b <= hb ->
  P (la * lb) -> P (la * hb) -> P (ha * lb) -> P (ha * hb) -> P (a * b).
Proof.
  intros Ha Hb P1 P2 P3 P4.
  pose proof (@mul_side la lb hb b Hb P1 P2) as Q1.
  pose proof (@mul_side ha lb hb b Hb P3 P4) as Q2.
  rewrite (Rmult_comm la) in Q1. rewrite (Rmult_comm ha) in Q2.
  rewrite (Rmult_comm a).
  exact (@mul_side b la ha a Ha Q1 Q2).
Qed.

Lemma div_box la ha lb hb a b :
  la <= a <= ha -> lb <= b <= hb -> 0 < lb ->
  P (la / lb) -> P (la / hb) -> P (ha / lb) -> P (ha / hb) -> P (a / b).
Proof.
  intros Ha Hb Hp P1 P2 P3 P4. unfold Rdiv in *.
  apply (@mul_box la ha (/ hb) (/ lb)); try assumption.
  split; apply Rinv_le_contravar; lra.
Qed.

End Corners.

End RealBounds.

(** ** Enclosures under the standard model

    Each lemma turns enclosures of the operands of one operation into an
    enclosure of its result; what is left to check are inequalities
    between constants. *)

Section Enclosures.

Local Open Scope R_scope.

Variable rt : Runtime.
Variable toR : number rt -> option R.
Hypothesis fm : FloatModel rt toR.

Lemma fits_convex M lo hi u v w :
  fits M lo hi u -> fits M lo hi w -> u <= v <= w -> fits M lo hi v.
Proof. unfold fits. lra. Qed.

Lemma fits_near M lo hi r exact :
  near r exact -> fits M lo hi exact -> lo <= r <= hi.
Proof.
  unfold near, fits. intros N [HM H].
  assert (A : Rabs exact <= M) by (apply Rabs_le; lra).
  assert (E : 0 <= eps) by (unfold eps; lra).
  assert (B : eps * Rabs exact <= eps * M) by (apply Rmult_le_compat_l; lra).
  pose proof (Rle_abs (r - exact)) as U.
  pose proof (Rle_abs (- (r - exact))) as L. rewrite Rabs_Ropp in L. lra.
Qed.

Lemma fits_vmax M lo hi v : M <= vmax -> fits M lo hi v -> Rabs v <= vmax.
Proof. unfold fits. intros H1 [H2 _]. apply Rabs_le. lra. Qed.

Lemma enc_lit d M lo hi :
  M <= vmax -> fits M lo hi (decimalValue d) ->
  within toR (fromDecimal rt d) lo hi.
Proof.
  intros Hv H.
  destruct (@fm_fromDecimal rt toR fm d (fits_vmax Hv H)) as (r & E & N).
  exists r. split; [exact E|]. exact (fits_near N H).
Qed.

Lemma enc_pi : within toR (Math_PI rt) 2.99 4.01.
Proof.
  destruct (fm_PI fm) as (r & E & N). exists r. split; [exact E|].
  pose proof PI_4. pose proof PI_gt_3.
  apply (@fits_near 4 _ _ r PI N). unfold fits, eps, eta. lra.
Qed.

Lemma enc_add x y lx hx ly hy M lo hi :
  within toR x lx hx -> within toR y ly hy -> M <= vmax ->
  fits M lo hi (lx + ly) -> fits M lo hi (hx + hy) ->
  within toR (nadd rt x y) lo hi.
Proof.
  intros (a & Ea & Ha) (b & Eb & Hb) Hv F1 F2.
  assert (F : fits M lo hi (a + b)).
  { apply (fits_convex F1 F2). lra. }
  destruct (@fm_add rt toR fm x y a b Ea Eb (fits_vmax Hv F)) as (r & E & N).
  exists r. split; [exact E|]. exact (fits_near N F).
Qed.

Lemma enc_sub x y lx hx ly hy M lo hi :
  within toR x lx hx -> within toR y ly hy -> M <= vmax ->
  fits M lo hi (lx - hy) -> fits M lo hi (hx - ly) ->
  within toR (nsub rt x y) lo hi.
Proof.
  intros (a & Ea & Ha) (b & Eb & Hb) Hv F1 F2.
  assert (F : fits M lo hi (a - b)).
  { apply (fits_convex F1 F2). lra. }
  destruct (@fm_sub rt toR fm x y a b Ea Eb (fits_vmax Hv F)) as (r & E & N).
  exists r. split; [exact E|]. exact (fits_near N F).
Qed.

Lemma enc_mul x y lx hx ly hy M lo hi :
  within toR x lx hx -> within toR y ly hy -> M <= vmax ->
  fits M lo hi (lx * ly) -> fits M lo hi (lx * hy) ->
  fits M lo hi (hx * ly) -> fits M lo hi (hx * hy) ->
  within toR (nmul rt x y) lo hi.
Proof.
  intros (a & Ea & Ha) (b & Eb & Hb) Hv F1 F2 F3 F4.
  assert (F : fits M lo hi (a * b)).
  { exact (@mul_box (fits M lo hi) (@fits_convex M lo hi)
             lx hx ly hy a b Ha Hb F1 F2 F3 F4). }
  destruct (@fm_mul rt toR fm x y a b Ea Eb (fits_vmax Hv F)) as (r & E & N).
  exists r. split; [exact E|]. exact (fits_near N F).
Qed.

Lemma enc_div x y lx hx ly hy M lo hi :
  within toR x lx hx -> within toR y ly hy -> M <= vmax -> 0 < ly ->
  fits M lo hi (lx / ly) -> fits M lo hi (lx / hy) ->
  fits M lo hi (hx / ly) -> fits M lo hi (hx / hy) ->
  within toR (ndiv rt x y) lo hi.
Proof.
  intros (a & Ea & Ha) (b & Eb & Hb) Hv Hp F1 F2 F3 F4.
  assert (F : fits M lo hi (a / b)).
  { exact (@div_box (fits M lo hi) (@fits_convex M lo hi)
             lx hx ly hy a b Ha Hb Hp F1 F2 F3 F4). }
  assert (D : b <> 0) by lra.
  destruct (@fm_div rt toR fm x y a b Ea Eb D (fits_vmax Hv F)) as (r & E & N).
  exists r. split; [exact E|]. exact (fits_near N F).
Qed.

Lemma enc_sin x lx hx m M lo hi :
  within toR x lx hx -> - m <= lx -> hx <= m -> m <= 1 ->
  fits M lo hi (lx - m * m * m / 6) -> fits M lo hi (hx + m * m * m / 6) ->
  within toR (Math_sin rt x) lo hi.
Proof.
  intros (a & Ea & Ha) H1 H2 H3 F1 F2.
  assert (F : fits M lo hi (sin a)).
  { apply (fits_convex F1 F2).
    pose proof (@sin_box a m ltac:(lra) H3). lra. }
  assert (D : Rabs a <= 4) by (apply Rabs_le; lra).
  destruct (@fm_sin rt toR fm x a Ea D) as (r & E & N).
  exists r. split; [exact E|]. exact (fits_near N F).
Qed.

Lemma enc_cos x lx hx m M lo hi :
  within toR x lx hx -> - m <= lx -> hx <= m -> m <= 3 / 2 ->
  fits M lo hi (1 - m * m / 2) -> fits M lo hi 1 ->
  within toR (Math_cos rt x) lo hi.
Proof.
  intros (a & Ea & Ha) H1 H2 H3 F1 F2.
  assert (F : fits M lo hi (cos a)).
  { apply (fits_convex F1 F2). apply (@cos_box a m); lra. }
  assert (D : Rabs a <= 4) by (apply Rabs_le; lra).
  destruct (@fm_cos rt toR fm x a Ea D) as (r & E & N).
  exists r. split; [exact E|]. exact (fits_near N F).
Qed.

Lemma enc_sqrt x lx hx l h M lo hi :
  within toR x lx hx -> 0 <= l -> 0 <= h -> l * l <= lx -> hx <= h * h ->
  h * h <= vmax -> fits M lo hi l -> fits M lo hi h ->
  within toR (Math_sqrt rt x) lo hi.
Proof.
  intros (a & Ea & Ha) H1 H2 H3 H4 Hv F1 F2.
  assert (F : fits M lo hi (sqrt a)).
  { apply (fits_convex F1 F2). apply sqrt_box; lra. }
  assert (D : 0 <= a <= vmax).
  { pose proof (@square_le l l ltac:(lra)). lra. }
  destruct (@fm_sqrt rt toR fm x a Ea D) as (r & E & N).
  exists r. split; [exact E|]. exact (fits_near N F).
Qed.

(** [Math.atan2 y x] for [y >= 0] and [x > 0], the quotient being between
    [tl] and [th]. *)
Lemma enc_atan2 y x ly hy lx hx tl th M lo hi :
  within toR y ly hy -> within toR x lx hx -> 0 < lx -> 0 <= tl ->
  tl * hx <= ly -> hy <= th * lx -> th <= 1 ->
  fits M lo hi (tl * (1 - tl * tl / 2)) -> fits M lo hi th ->
  within toR (Math_atan2 rt y x) lo hi.
Proof.
  intros (a & Ea & Ha) (b & Eb & Hb) Hp H0 H1 H2 H3 F1 F2.
  assert (P : 0 <= th).
  { assert (0 <= tl * hx) by (apply Rmult_le_pos; lra).
    destruct (Rle_dec 0 th) as [K|K]; [exact K|].
    assert (th * lx < 0 * lx) by (apply Rmult_lt_compat_r; lra). lra. }
  assert (T : tl <= a / b <= th).
  { split.
    - apply Rmult_le_reg_r with b; [lra|].
      unfold Rdiv. rewrite Rmult_assoc, Rinv_l, Rmult_1_r by lra.
      apply Rle_trans with (tl * hx); [apply Rmult_le_compat_l|]; lra.
    - apply Rmult_le_reg_r with b; [lra|].
      unfold Rdiv. rewrite Rmult_assoc, Rinv_l, Rmult_1_r by lra.
      apply Rle_trans with (th * lx); [|apply Rmult_le_compat_l]; lra. }
  assert (F : fits M lo hi (atan (a / b))).
  { apply (fits_convex F1 F2).
    pose proof (@atan_box tl ltac:(lra)) as [L _].
    pose proof (@atan_box th ltac:(lra)) as [_ U].
    pose proof (@atan_monotone tl (a / b) (proj1 T)).
    pose proof (@atan_monotone (a / b) th (proj2 T)). lra. }
  assert (D : 0 < b) by lra.
  destruct (@fm_atan2 rt toR fm y x a b Ea Eb D) as (r & E & N).
  exists r. split; [exact E|]. exact (fits_near N F).
Qed.

Lemma within_le x y lx hx ly hy :
  within toR x lx hx -> within toR y ly hy -> hx <= ly -> nle rt x y = true.
Proof.
  intros (a & Ea & Ha) (b & Eb & Hb) H.
  apply (@fm_le rt toR fm x y a b Ea Eb). lra.
Qed.

Lemma within_gt x y lx hx ly hy :
  within toR x lx hx -> within toR y ly hy -> hy < lx -> nle rt x y = false.
Proof.
  intros (a & Ea & Ha) (b & Eb & Hb) H.
  destruct (nle rt x y) eqn:E; [|reflexivity].
  apply (@fm_le rt toR fm x y a b Ea Eb) in E. lra.
Qed.

End Enclosures.

(** ** The two distances of the worked example

    Under the standard model the distance between the reference point and
    each of the two candidate positions is enclosed step by step, one
    operation of [haversineDistance] at a time. *)

Section Distances.

Local Open Scope R_scope.

Variable rt : Runtime.
Variable toR : number rt -> option R.
Hypothesis fm : FloatModel rt toR.

Local Abbreviation lit n := (fromDecimal rt (MkDecimal false n 0)).
Local Abbreviation refLat := (fromDecimal rt (MkDecimal false 535228 (-4))).
Local Abbreviation refLng := (fromDecimal rt (MkDecimal true 11285 (-4))).
Local Abbreviation nearLat := (fromDecimal rt (MkDecimal false 535230 (-4))).
Local Abbreviation nearLng := (fromDecimal rt (MkDecimal true 11286 (-4))).
Local Abbreviation farLat := (fromDecimal rt (MkDecimal false 535300 (-4))).
Local Abbreviation farLng := (fromDecimal rt (MkDecimal true 11400 (-4))).

Ltac side :=
  unfold fits, decimalValue, eps, eta, vmax;
  cbn [dneg dmant dexp Z.leb Z.compare Z.opp Z.of_N];
  lra.

Ltac discharge H :=
  repeat match type of H with
         | ?A -> _ =>
             let a := fresh in
             assert (a : A) by side; specialize (H a); clear a
         end;
  lazymatch type of H with
  | within _ _ _ _ => idtac
  | ?T => fail "side condition left:" T
  end.

Tactic Notation "enclose" ident(H) "by" constr(t) :=
  pose proof t as H; discharge H.

Lemma enc_180 : within toR (lit 180) 179.9999998 180.0000002.
Proof.
  enclose W180 by
    (enc_lit fm
       (MkDecimal false 180 0) (M:=180) (lo:=179.9999998) (hi:=180.0000002)).
  exact W180.
Qed.

Lemma enc_2 : within toR (lit 2) 1.999999997 2.000000003.
Proof.
  enclose W2 by
    (enc_lit fm
       (MkDecimal false 2 0) (M:=2) (lo:=1.999999997) (hi:=2.000000003)).
  exact W2.
Qed.

Lemma enc_1 : within toR (lit 1) 0.9999999989 1.000000002.
Proof.
  enclose W1 by
    (enc_lit fm
       (MkDecimal false 1 0) (M:=1) (lo:=0.9999999989) (hi:=1.000000002)).
  exact W1.
Qed.

Lemma enc_6371 : within toR (lit 6371) 6370.999993 6371.000007.
Proof.
  enclose WR by
    (enc_lit fm
       (MkDecimal false 6371 0) (M:=6400) (lo:=6370.999993) (hi:=6371.000007)).
  exact WR.
Qed.

Lemma enc_refLat : within toR (refLat) 53.52279994 53.52280006.
Proof.
  enclose Wlat1 by
    (enc_lit fm
       (MkDecimal false 535228 (-4)) (M:=54) (lo:=53.52279994) (hi:=53.52280006)).
  exact Wlat1.
Qed.

Lemma enc_refLng : within toR (refLng) (-1.128500002) (-1.128499998).
Proof.
  enclose Wlon1 by
    (enc_lit fm
       (MkDecimal true 11285 (-4)) (M:=1.2) (lo:=(-1.128500002)) (hi:=(-1.128499998))).
  exact Wlon1.
Qed.

(** The cosine of the reference latitude, in radians. *)
Lemma enc_refCos :
  within toR (Math_cos rt (ndiv rt (nmul rt refLat (Math_PI rt)) (lit 180)))
    0.2883 1.001.
Proof.
  pose proof (enc_pi fm) as Wpi. pose proof enc_180 as W180.
  pose proof enc_refLat as Wlat1.
  enclose Wp1 by (enc_mul fm Wlat1 Wpi (M:=220) (lo:=160) (hi:=214.7)).
  enclose Wr1 by (enc_div fm Wp1 W180 (M:=1.2) (lo:=0.8888) (hi:=1.193)).
  enclose Wc1 by (enc_cos fm Wr1 (m:=1.193) (M:=1) (lo:=0.2883) (hi:=1.001)).
  exact Wc1.
Qed.

Lemma enc_radius : within toR (proximityRadiusKm rt) 0.2499999997 0.2500000003.
Proof.
  enclose Wrad by
    (enc_lit fm
       (MkDecimal false 25 (-2)) (M:=0.25) (lo:=0.2499999997) (hi:=0.2500000003)).
  exact Wrad.
Qed.

(** From (53.5228, -1.1285) to (53.5230, -1.1286): between 21 and 32 metres. *)
Lemma enc_distance_near :
  within toR (haversineDistance rt refLat refLng nearLat nearLng) 0.02123 0.03188.
Proof.
  pose proof (enc_pi fm) as Wpi. pose proof enc_180 as W180.
  pose proof enc_2 as W2. pose proof enc_1 as W1. pose proof enc_6371 as WR.
  pose proof enc_refLat as Wlat1. pose proof enc_refLng as Wlon1.
  pose proof enc_refCos as Wc1.
  enclose Wlat2 by
    (enc_lit fm
       (MkDecimal false 535230 (-4)) (M:=54) (lo:=53.52299994) (hi:=53.52300006)).
  enclose Wlon2 by
    (enc_lit fm
       (MkDecimal true 11286 (-4)) (M:=1.2) (lo:=(-1.128600002)) (hi:=(-1.128599998))).
  enclose Wdlat by
    (enc_sub fm Wlat2 Wlat1
       (M:=0.00021) (lo:=0.0001998) (hi:=0.0002002)).
  enclose Wdlatpi by
    (enc_mul fm Wdlat Wpi
       (M:=0.00081) (lo:=0.0005974) (hi:=0.0008029)).
  enclose WdLat by
    (enc_div fm Wdlatpi W180
       (M:=4.5e-6) (lo:=3.318e-6) (hi:=4.461e-6)).
  enclose Wdlon by
    (enc_sub fm Wlon2 Wlon1
       (M:=0.00011) (lo:=(-0.0001001)) (hi:=(-9.999e-5))).
  enclose Wdlonpi by
    (enc_mul fm Wdlon Wpi
       (M:=0.00041) (lo:=(-0.0004015)) (hi:=(-0.0002989))).
  enclose WdLon by
    (enc_div fm Wdlonpi W180
       (M:=2.3e-6) (lo:=(-2.231e-6)) (hi:=(-1.66e-6))).
  enclose Wh1 by
    (enc_div fm WdLat W2
       (M:=2.3e-6) (lo:=1.658e-6) (hi:=2.231e-6)).
  enclose Ws1 by
    (enc_sin fm Wh1
       (m:=2.231e-6) (M:=2.3e-6) (lo:=1.657e-6) (hi:=2.232e-6)).
  enclose Wss1 by
    (enc_mul fm Ws1 Ws1
       (M:=5e-12) (lo:=2.745e-12) (hi:=4.982e-12)).
  enclose Wp2 by (enc_mul fm Wlat2 Wpi (M:=220) (lo:=160) (hi:=214.7)).
  enclose Wr2 by (enc_div fm Wp2 W180 (M:=1.2) (lo:=0.8888) (hi:=1.193)).
  enclose Wc2 by (enc_cos fm Wr2 (m:=1.193) (M:=1) (lo:=0.2883) (hi:=1.001)).
  enclose Wcc by (enc_mul fm Wc1 Wc2 (M:=1.1) (lo:=0.08311) (hi:=1.003)).
  enclose Wh2 by
    (enc_div fm WdLon W2
       (M:=1.2e-6) (lo:=(-1.116e-6)) (hi:=(-8.299e-7))).
  enclose Ws2 by
    (enc_sin fm Wh2
       (m:=1.116e-6) (M:=1.2e-6) (lo:=(-1.117e-6)) (hi:=(-8.298e-7))).
  enclose Wccs by
    (enc_mul fm Wcc Ws2
       (M:=1.2e-6) (lo:=(-1.121e-6)) (hi:=(-6.896e-8))).
  enclose Wccss by
    (enc_mul fm Wccs Ws2
       (M:=1.3e-12) (lo:=5.722e-14) (hi:=1.253e-12)).
  enclose Wa by
    (enc_add fm Wss1 Wccss
       (M:=6.3e-12) (lo:=2.802e-12) (hi:=6.236e-12)).
  enclose Wq1 by
    (enc_sqrt fm Wa
       (l:=1.673e-6) (h:=2.498e-6) (M:=2.5e-6) (lo:=1.672e-6) (hi:=2.499e-6)).
  enclose Wna by (enc_sub fm W1 Wa (M:=1.1) (lo:=0.9999) (hi:=1.001)).
  enclose Wq2 by
    (enc_sqrt fm Wna
       (l:=0.9999) (h:=1.001) (M:=1.1) (lo:=0.9998) (hi:=1.002)).
  enclose Wat by
    (enc_atan2 fm Wq1 Wq2
       (tl:=1.668e-6) (th:=2.5e-6) (M:=2.5e-6) (lo:=1.667e-6) (hi:=2.501e-6)).
  enclose Wc by (enc_mul fm W2 Wat (M:=5.1e-6) (lo:=3.333e-6) (hi:=5.003e-6)).
  enclose Wd by (enc_mul fm WR Wc (M:=0.032) (lo:=0.02123) (hi:=0.03188)).
  exact Wd.
Qed.

(** From (53.5228, -1.1285) to (53.5300, -1.1400): between 835 and 1938 metres. *)
Lemma enc_distance_far :
  within toR (haversineDistance rt refLat refLng farLat farLng) 0.8352 1.938.
Proof.
  pose proof (enc_pi fm) as Wpi. pose proof enc_180 as W180.
  pose proof enc_2 as W2. pose proof enc_1 as W1. pose proof enc_6371 as WR.
  pose proof enc_refLat as Wlat1. pose proof enc_refLng as Wlon1.
  pose proof enc_refCos as Wc1.
  enclose Wlat2 by
    (enc_lit fm
       (MkDecimal false 535300 (-4)) (M:=54) (lo:=53.52999994) (hi:=53.53000006)).
  enclose Wlon2 by
    (enc_lit fm
       (MkDecimal true 11400 (-4)) (M:=1.2) (lo:=(-1.140000002)) (hi:=(-1.139999998))).
  enclose Wdlat by
    (enc_sub fm Wlat2 Wlat1
       (M:=0.0073) (lo:=0.007199) (hi:=0.007201)).
  enclose Wdlatpi by
    (enc_mul fm Wdlat Wpi
       (M:=0.029) (lo:=0.02152) (hi:=0.02888)).
  enclose WdLat by
    (enc_div fm Wdlatpi W180
       (M:=0.00017) (lo:=0.0001195) (hi:=0.0001605)).
  enclose Wdlon by
    (enc_sub fm Wlon2 Wlon1
       (M:=0.012) (lo:=(-0.01151)) (hi:=(-0.01149))).
  enclose Wdlonpi by
    (enc_mul fm Wdlon Wpi
       (M:=0.047) (lo:=(-0.04616)) (hi:=(-0.03435))).
  enclose WdLon by
    (enc_div fm Wdlonpi W180
       (M:=0.00026) (lo:=(-0.0002565)) (hi:=(-0.0001908))).
  enclose Wh1 by
    (enc_div fm WdLat W2
       (M:=8.1e-5) (lo:=5.974e-5) (hi:=8.026e-5)).
  enclose Ws1 by
    (enc_sin fm Wh1
       (m:=8.026e-5) (M:=8.1e-5) (lo:=5.973e-5) (hi:=8.027e-5)).
  enclose Wss1 by
    (enc_mul fm Ws1 Ws1
       (M:=6.5e-9) (lo:=3.567e-9) (hi:=6.444e-9)).
  enclose Wp2 by (enc_mul fm Wlat2 Wpi (M:=220) (lo:=160) (hi:=214.7)).
  enclose Wr2 by (enc_div fm Wp2 W180 (M:=1.2) (lo:=0.8888) (hi:=1.193)).
  enclose Wc2 by (enc_cos fm Wr2 (m:=1.193) (M:=1) (lo:=0.2883) (hi:=1.001)).
  enclose Wcc by (enc_mul fm Wc1 Wc2 (M:=1.1) (lo:=0.08311) (hi:=1.003)).
  enclose Wh2 by
    (enc_div fm WdLon W2
       (M:=0.00013) (lo:=(-0.0001283)) (hi:=(-9.539e-5))).
  enclose Ws2 by
    (enc_sin fm Wh2
       (m:=0.0001283) (M:=0.00013) (lo:=(-0.0001284)) (hi:=(-9.538e-5))).
  enclose Wccs by
    (enc_mul fm Wcc Ws2
       (M:=0.00013) (lo:=(-0.0001288)) (hi:=(-7.927e-6))).
  enclose Wccss by
    (enc_mul fm Wccs Ws2
       (M:=1.7e-8) (lo:=7.56e-10) (hi:=1.654e-8)).
  enclose Wa by
    (enc_add fm Wss1 Wccss
       (M:=2.3e-8) (lo:=4.322e-9) (hi:=2.299e-8)).
  enclose Wq1 by
    (enc_sqrt fm Wa
       (l:=6.574e-5) (h:=0.0001517) (M:=0.00016) (lo:=6.573e-5) (hi:=0.0001518)).
  enclose Wna by (enc_sub fm W1 Wa (M:=1) (lo:=0.9999) (hi:=1)).
  enclose Wq2 by
    (enc_sqrt fm Wna
       (l:=0.9999) (h:=1.001) (M:=1.1) (lo:=0.9998) (hi:=1.002)).
  enclose Wat by
    (enc_atan2 fm Wq1 Wq2
       (tl:=6.559e-5) (th:=0.0001519) (M:=0.00016) (lo:=6.558e-5) (hi:=0.000152)).
  enclose Wc by
    (enc_mul fm W2 Wat
       (M:=0.00031) (lo:=0.0001311) (hi:=0.0003041)).
  enclose Wd by (enc_mul fm WR Wc (M:=2) (lo:=0.8352) (hi:=1.938)).
  exact Wd.
Qed.

Lemma near_within_radius :
  nle rt (haversineDistance rt refLat refLng nearLat nearLng)
    (proximityRadiusKm rt) = true.
Proof. apply (within_le fm enc_distance_near enc_radius). lra. Qed.

Lemma far_beyond_radius :
  nle rt (haversineDistance rt refLat refLng farLat farLng)
    (proximityRadiusKm rt) = false.
Proof. apply (within_gt fm enc_distance_far enc_radius). lra. Qed.

End Distances.

(** ** The proximity filter *)

Section Filter.

Variable rt : Runtime.

Lemma isNearby_true lat lng before after loc when :
  isNearby rt lat lng before after loc when = true ->
  exists cLat cLng,
    candidateCoords rt loc = Some (cLat, cLng)
    /\ nle rt (haversineDistance rt lat lng cLat cLng) (proximityRadiusKm rt) = true
    /\ Moment.isBetween when before after (str "[]") = true.
Proof.
  unfold isNearby. destruct (candidateCoords rt loc) as [[cLat cLng]|];
    [|discriminate].
  intros H. apply andb_true_iff in H. now exists cLat, cLng.
Qed.

(** What the guard lets through: both strings present and not empty, and
    the coordinates are what [parseFloat] makes of them, neither NaN. *)
Lemma candidateCoords_some loc cLat cLng :
  candidateCoords rt loc = Some (cLat, cLng) ->
  exists l sLat sLng,
    loc = Some l /\ latitude l = Some sLat /\ longitude l = Some sLng
    /\ sLat <> [] /\ sLng <> []
    /\ cLat = parseFloat rt sLat /\ cLng = parseFloat rt sLng
    /\ isNaN rt cLat = false /\ isNaN rt cLng = false.
Proof.
  unfold candidateCoords. destruct loc as [l|]; [|discriminate].
  destruct (latitude l) as [[|a sLat]|] eqn:Ela; try discriminate.
  destruct (longitude l) as [[|b sLng]|] eqn:Elo; try discriminate.
  cbn [falsy orb toStringArg].
  destruct (isNaN rt (parseFloat rt (a :: sLat))) eqn:Na; [discriminate|].
  destruct (isNaN rt (parseFloat rt (b :: sLng))) eqn:Nb; [discriminate|].
  cbn [orb]. intros [= <- <-].
  exists l, (a :: sLat), (b :: sLng). repeat split; try assumption; discriminate.
Qed.

Lemma isBetween_inclusive cm lo hi :
  Moment.isBetween (Some cm) (Some lo) (Some hi) (str "[]") = true
  <-> (Moment.valueOf lo <= Moment.valueOf cm <= Moment.valueOf hi)%Z.
Proof.
  cbn. unfold Moment.isBefore, Moment.isAfter.
  rewrite andb_true_iff, !negb_true_iff, !Z.ltb_ge. tauto.
Qed.

Lemma isBetween_valid m lo hi incl :
  Moment.isBetween m lo hi incl = true ->
  exists cm l h, m = Some cm /\ lo = Some l /\ hi = Some h.
Proof.
  destruct m as [cm|], lo as [l|], hi as [h|]; try discriminate.
  intros _. now exists cm, l, h.
Qed.

Lemma window_ends (target : Moment.moment) l h :
  Moment.subtract 1 Moment.Month (Moment.clone target) = Some l ->
  Moment.add 1 Moment.Month (Moment.clone target) = Some h ->
  exists t, target = Some t
            /\ l = Moment.setMonth t (Moment.month t - 1)
            /\ h = Moment.setMonth t (Moment.month t + 1).
Proof.
  destruct target as [t|]; [|discriminate]. cbn. intros [= <-] [= <-].
  now exists t.
Qed.

Lemma filter_subseq {A} (p : A -> bool) (l : list A) : subseq (filter p l) l.
Proof.
  induction l as [|x l IH]; cbn; [constructor|].
  destruct (p x); now constructor.
Qed.

Lemma subseq_nil_l {A} (l : list A) : subseq [] l.
Proof. induction l; now constructor. Qed.





End Filter.


(** C2. Every record the proximity filter returns has a valid time stamp
    [cm] with [lo <= cm <= hi], where [lo] and [hi] are the reference time
    moved one month back and one month forward; the comparison is by the
    millisecond and includes both ends. *)
Theorem nearby_within_window (rt : Runtime) (lat lng : number rt)
    (target : Moment.moment) :
  let before := Moment.subtract 1 Moment.Month (Moment.clone target) in
  let after := Moment.add 1 Moment.Month (Moment.clone target) in
  (forall allCrimes c,
      In c (filter (crimeIsNearby rt lat lng before after) allCrimes) ->
      exists t cm,
        target = Some t /\ momentOf rt (month c) = Some cm
        /\ (Moment.valueOf (Moment.setMonth t (Moment.month t - 1))
            <= Moment.valueOf cm
            <= Moment.valueOf (Moment.setMonth t (Moment.month t + 1)))%Z)
  /\ (forall allStopSearches ss,
         In ss (filter (stopSearchIsNearby rt lat lng before after) allStopSearches) ->
         exists t cm,
           target = Some t /\ momentOf rt (datetime ss) = Some cm
           /\ (Moment.valueOf (Moment.setMonth t (Moment.month t - 1))
               <= Moment.valueOf cm
               <= Moment.valueOf (Moment.setMonth t (Moment.month t + 1)))%Z)
  /\ (forall cm lo hi,
         Moment.isBetween (Some cm) (Some lo) (Some hi) (str "[]") = true
         <-> (Moment.valueOf lo <= Moment.valueOf cm <= Moment.valueOf hi)%Z).
Proof.
  intros before after.
  assert (W : forall loc when,
             isNearby rt lat lng before after loc when = true ->
             exists t cm,
               target = Some t /\ when = Some cm
               /\ (Moment.valueOf (Moment.setMonth t (Moment.month t - 1))
                   <= Moment.valueOf cm
                   <= Moment.valueOf (Moment.setMonth t (Moment.month t + 1)))%Z).
  { intros loc when H. apply isNearby_true in H.
    destruct H as (_ & _ & _ & _ & H).
    destruct (isBetween_valid _ _ _ _ H) as (cm & l & h & -> & El & Eh).
    rewrite El, Eh in H. apply isBetween_inclusive in H.
    destruct (window_ends target El Eh) as (t & -> & -> & ->).
    now exists t, cm. }
  split; [|split].
  - intros all c H. apply filter_In in H. destruct H as [_ H]. now apply W in H.
  - intros all ss H. apply filter_In in H. destruct H as [_ H]. now apply W in H.
  - apply isBetween_inclusive.
Qed.

(** The distance is NaN as soon as a coordinate of the candidate is not
    finite. *)
Lemma haversine_not_finite (rt : Runtime) (laws : IEEELaws rt)
    (lat lng cLat cLng : number rt) :
  isFinite rt cLat = false \/ isFinite rt cLng = false ->
  isNaN rt (haversineDistance rt lat lng cLat cLng) = true.
Proof.
  intros H. unfold haversineDistance.
  apply (mul_nan_r laws), (mul_nan_r laws), (atan2_nan_l laws), (sqrt_nan laws).
  destruct H as [H|H].
  - apply (add_nan_l laws), (mul_nan_l laws), (sin_not_finite laws),
      (div_not_finite_l laws), (div_not_finite_l laws), (mul_not_finite_l laws),
      (sub_not_finite_l laws). exact H.
  - apply (add_nan_r laws), (mul_nan_l laws), (mul_nan_r laws),
      (sin_not_finite laws), (div_not_finite_l laws), (div_not_finite_l laws),
      (mul_not_finite_l laws), (sub_not_finite_l laws). exact H.
Qed.

Lemma parseFloat_not_finite (rt : Runtime) (laws : IEEELaws rt) s :
  (parseFloatSyntax s = PNaN \/ exists neg, parseFloatSyntax s = PInfinity neg) ->
  isFinite rt (parseFloat rt s) = false.
Proof.
  unfold parseFloat. intros [->|([|] & ->)].
  - apply (nan_not_finite laws), (nan_isNaN laws).
  - apply (negInfinity_not_finite laws).
  - apply (posInfinity_not_finite laws).
Qed.

(** C3. A candidate whose location, latitude or longitude is missing or
    empty, or whose latitude or longitude does not parse to a finite
    number (no numeric prefix, an infinity, or any text [parseFloat] maps
    to a non-finite number), is rejected by the filter callback, which is
    a total function and raises nothing; the coordinates that reach the
    distance are exactly what [parseFloat] returns for the two strings of
    the record, never a default. *)
Theorem malformed_coordinates_excluded (rt : Runtime) (laws : IEEELaws rt)
    (lat lng : number rt) (before after : Moment.moment) :
  (forall loc when,
      (loc = None
       \/ exists l, loc = Some l
            /\ (falsy (latitude l) = true \/ falsy (longitude l) = true
                \/ isFinite rt (parseFloat rt (toStringArg (latitude l))) = false
                \/ isFinite rt (parseFloat rt (toStringArg (longitude l))) = false)) ->
      isNearby rt lat lng before after loc when = false)
  /\ (forall s,
         (parseFloatSyntax s = PNaN \/ exists neg, parseFloatSyntax s = PInfinity neg) ->
         isFinite rt (parseFloat rt s) = false)
  /\ (forall allCrimes c,
         (falsy (latitude (location c)) = true
          \/ falsy (longitude (location c)) = true
          \/ isFinite rt (parseFloat rt (toStringArg (latitude (location c)))) = false
          \/ isFinite rt (parseFloat rt (toStringArg (longitude (location c)))) = false) ->
         ~ In c (filter (crimeIsNearby rt lat lng before after) allCrimes))
  /\ (forall allStopSearches ss,
         (ss_location ss = None
          \/ exists l, ss_location ss = Some l
               /\ (falsy (latitude l) = true \/ falsy (longitude l) = true
                   \/ isFinite rt (parseFloat rt (toStringArg (latitude l))) = false
                   \/ isFinite rt (parseFloat rt (toStringArg (longitude l))) = false)) ->
         ~ In ss (filter (stopSearchIsNearby rt lat lng before after) allStopSearches))
  /\ (forall loc cLat cLng,
         candidateCoords rt loc = Some (cLat, cLng) ->
         exists l sLat sLng,
           loc = Some l /\ latitude l = Some sLat /\ longitude l = Some sLng
           /\ sLat <> [] /\ sLng <> []
           /\ cLat = parseFloat rt sLat /\ cLng = parseFloat rt sLng
           /\ isNaN rt cLat = false /\ isNaN rt cLng = false).
Proof.
  assert (X : forall loc when,
      (loc = None
       \/ exists l, loc = Some l
            /\ (falsy (latitude l) = true \/ falsy (longitude l) = true
                \/ isFinite rt (parseFloat rt (toStringArg (latitude l))) = false
                \/ isFinite rt (parseFloat rt (toStringArg (longitude l))) = false)) ->
      isNearby rt lat lng before after loc when = false).
  { intros loc when H. unfold isNearby.
    destruct (candidateCoords rt loc) as [[cLat cLng]|] eqn:E; [|reflexivity].
    destruct (candidateCoords_some rt loc E)
      as (l & sLat & sLng & -> & Ela & Elo & Hla & Hlo & -> & -> & _).
    destruct H as [H|(l' & [= <-] & H)]; [discriminate|].
    rewrite Ela, Elo in H. cbn [toStringArg] in H.
    destruct H as [H|[H|H]].
    - destruct sLat; [now destruct Hla | discriminate H].
    - destruct sLng; [now destruct Hlo | discriminate H].
    - rewrite (le_nan_l laws); [reflexivity|].
      apply haversine_not_finite; [exact laws | exact H]. }
  split; [exact X | split; [|split; [|split]]].
  - intros s. now apply parseFloat_not_finite.
  - intros all c H In'. apply filter_In in In'. destruct In' as [_ In'].
    unfold crimeIsNearby in In'. rewrite X in In'; [discriminate|].
    right. now exists (location c).
  - intros all ss H In'. apply filter_In in In'. destruct In' as [_ In'].
    unfold stopSearchIsNearby in In'. rewrite X in In'; [discriminate | exact H].
  - apply candidateCoords_some.
Qed.

Lemma malformed_coordinates_excluded_witness :
  parseFloatSyntax (str "unknown") = PNaN
  /\ ~ In candidateNoCoords
       (filter (crimeIsNearby Ideal.runtime (Ideal.Fin 53) (Ideal.Fin (-1))
                  (Ideal.xmomentOf (str "2024-04")) (Ideal.xmomentOf (str "2024-06")))
          [candidateNear; candidateNoCoords]).
Proof.
  split; [reflexivity|].
  destruct (@malformed_coordinates_excluded Ideal.runtime ideal_laws
              (Ideal.Fin 53) (Ideal.Fin (-1))
              (Ideal.xmomentOf (str "2024-04")) (Ideal.xmomentOf (str "2024-06")))
    as (_ & P & C & _).
  apply C. right. right. left. apply P. left. reflexivity.
Defined.


(** ** The worked example *)

Section Example.

Variable rt : Runtime.
Variable toR : number rt -> option R.
Hypothesis fm : FloatModel rt toR.

Lemma parse_decimal s d :
  parseFloatSyntax s = PDecimal d -> parseFloat rt s = fromDecimal rt d.
Proof. unfold parseFloat. now intros ->. Qed.

(** A decimal literal of moderate size is a number. *)
Lemma parse_not_nan s d :
  parseFloatSyntax s = PDecimal d -> (Rabs (decimalValue d) <= vmax)%R ->
  isNaN rt (parseFloat rt s) = false.
Proof.
  intros E H. rewrite (@parse_decimal s d E).
  destruct (@fm_fromDecimal rt toR fm d H) as (r & Er & _).
  exact (@fm_isNaN rt toR fm _ r Er).
Qed.

Ltac moderate :=
  apply Rabs_le; unfold decimalValue, vmax;
  cbn [dneg dmant dexp Z.leb Z.compare Z.opp Z.of_N]; lra.

(** The guard on a sample record. *)
Lemma coords_sample lat lng when dlat dlng :
  parseFloatSyntax (str lat) = PDecimal dlat ->
  parseFloatSyntax (str lng) = PDecimal dlng ->
  (Rabs (decimalValue dlat) <= vmax)%R ->
  (Rabs (decimalValue dlng) <= vmax)%R ->
  candidateCoords rt (Some (location (sampleCrime lat lng when)))
  = Some (fromDecimal rt dlat, fromDecimal rt dlng).
Proof.
  intros E1 E2 H1 H2.
  pose proof (@parse_not_nan _ _ E1 H1) as N1.
  pose proof (@parse_not_nan _ _ E2 H2) as N2.
  rewrite <- (@parse_decimal _ _ E1), <- (@parse_decimal _ _ E2).
  unfold candidateCoords, sampleCrime, sampleLocation.
  cbn [location latitude longitude toStringArg].
  destruct (str lat) eqn:L1; [discriminate E1|].
  destruct (str lng) eqn:L2; [discriminate E2|].
  cbn [falsy orb]. now rewrite N1, N2.
Qed.

Lemma coords_near when :
  candidateCoords rt
    (Some (location (sampleCrime "53.5230" "-1.1286" when)))
  = Some (fromDecimal rt (MkDecimal false 535230 (-4)),
          fromDecimal rt (MkDecimal true 11286 (-4))).
Proof. apply coords_sample; try reflexivity; moderate. Qed.

Lemma coords_far when :
  candidateCoords rt
    (Some (location (sampleCrime "53.5300" "-1.1400" when)))
  = Some (fromDecimal rt (MkDecimal false 535300 (-4)),
          fromDecimal rt (MkDecimal true 11400 (-4))).
Proof. apply coords_sample; try reflexivity; moderate. Qed.

Lemma reference_not_nan :
  isNaN rt (parseFloat rt (str "53.5228")) = false
  /\ isNaN rt (parseFloat rt (str "-1.1285")) = false.
Proof.
  split.
  - apply (@parse_not_nan (str "53.5228") (MkDecimal false 535228 (-4)));
      [reflexivity | moderate].
  - apply (@parse_not_nan (str "-1.1285") (MkDecimal true 11285 (-4)));
      [reflexivity | moderate].
Qed.

(** The distance test of the filter on the two candidate positions. *)
Lemma radius_test_near when :
  match candidateCoords rt
          (Some (location (sampleCrime "53.5230" "-1.1286" when))) with
  | Some (cLat, cLng) =>
      nle rt (haversineDistance rt (parseFloat rt (str "53.5228"))
                (parseFloat rt (str "-1.1285")) cLat cLng)
        (proximityRadiusKm rt)
  | None => false
  end = true.
Proof. rewrite coords_near. exact (near_within_radius fm). Qed.

Lemma radius_test_far when :
  match candidateCoords rt
          (Some (location (sampleCrime "53.5300" "-1.1400" when))) with
  | Some (cLat, cLng) =>
      nle rt (haversineDistance rt (parseFloat rt (str "53.5228"))
                (parseFloat rt (str "-1.1285")) cLat cLng)
        (proximityRadiusKm rt)
  | None => false
  end = false.
Proof. rewrite coords_far. exact (far_beyond_radius fm). Qed.

(** The filter on a sample record, given what its month parses to. *)
Lemma nearby_sample lat lng when (t : Moment.moment) :
  momentOf rt (str when) = t ->
  crimeIsNearby rt (parseFloat rt (str "53.5228")) (parseFloat rt (str "-1.1285"))
    exampleBefore exampleAfter (sampleCrime lat lng when)
  = (match candidateCoords rt (Some (location (sampleCrime lat lng when))) with
     | Some (cLat, cLng) =>
         nle rt (haversineDistance rt (parseFloat rt (str "53.5228"))
                   (parseFloat rt (str "-1.1285")) cLat cLng)
           (proximityRadiusKm rt)
     | None => false
     end
     && Moment.isBetween t exampleBefore exampleAfter (str "[]"))%bool.
Proof.
  intros <-. unfold crimeIsNearby, isNearby.
  change (month (sampleCrime lat lng when)) with (str when).
  now destruct (candidateCoords rt _) as [[cLat cLng]|].
Qed.

Hypothesis april : momentOf rt (str "2024-04") = Some (Moment.MkCivil 2024 3 1 0).
Hypothesis june : momentOf rt (str "2024-06") = Some (Moment.MkCivil 2024 5 1 0).
Hypothesis january : momentOf rt (str "2024-01") = Some (Moment.MkCivil 2024 0 1 0).

Lemma example_near :
  crimeIsNearby rt (parseFloat rt (str "53.5228")) (parseFloat rt (str "-1.1285"))
    exampleBefore exampleAfter candidateNear = true.
Proof.
  unfold candidateNear. rewrite (@nearby_sample _ _ _ _ june), radius_test_near.
  reflexivity.
Qed.

Lemma example_april :
  crimeIsNearby rt (parseFloat rt (str "53.5228")) (parseFloat rt (str "-1.1285"))
    exampleBefore exampleAfter candidateApril = true.
Proof.
  unfold candidateApril. rewrite (@nearby_sample _ _ _ _ april), radius_test_near.
  reflexivity.
Qed.

Lemma example_far :
  crimeIsNearby rt (parseFloat rt (str "53.5228")) (parseFloat rt (str "-1.1285"))
    exampleBefore exampleAfter candidateFar = false.
Proof.
  unfold candidateFar. rewrite (@nearby_sample _ _ _ _ june), radius_test_far.
  reflexivity.
Qed.

Lemma example_old :
  crimeIsNearby rt (parseFloat rt (str "53.5228")) (parseFloat rt (str "-1.1285"))
    exampleBefore exampleAfter candidateOld = false.
Proof.
  unfold candidateOld. rewrite (@nearby_sample _ _ _ _ january), radius_test_near.
  reflexivity.
Qed.

Lemma example_filter :
  filter (crimeIsNearby rt (parseFloat rt (str "53.5228"))
            (parseFloat rt (str "-1.1285")) exampleBefore exampleAfter)
    [candidateApril; candidateFar; candidateOld; candidateNear]
  = [candidateApril; candidateNear].
Proof.
  cbn [filter]. now rewrite example_april, example_far, example_old, example_near.
Qed.

End Example.

(** C4. On every platform that meets the standard model of floating-point
    arithmetic and reads the three months of the example as the first of
    the month at midnight, with the reference point (53.5228, -1.1285) of
    May 2024, the radius 0.25 km and one month either side: the candidate
    at (53.5230, -1.1286) of June 2024 is kept; the one at
    (53.5300, -1.1400) of June 2024 is dropped, its date being inside the
    window and its distance above 0.25; the one at (53.5230, -1.1286) of
    January 2024 is dropped, its distance being within 0.25 and its date
    outside the window.  The briefing for that incident over these three
    candidates sends one request, whose prompt lists the first candidate
    alone. *)
Theorem proximity_example (rt : Runtime) (toR : number rt -> option R) :
  FloatModel rt toR ->
  momentOfFormat rt (str "2024-05") (str "YYYY-MM")
  = Some (Moment.MkCivil 2024 4 1 0) ->
  momentOf rt (str "2024-06") = Some (Moment.MkCivil 2024 5 1 0) ->
  momentOf rt (str "2024-01") = Some (Moment.MkCivil 2024 0 1 0) ->
  let lat := parseFloat rt (str "53.5228") in
  let lng := parseFloat rt (str "-1.1285") in
  let target := momentOfFormat rt (str "2024-05") (str "YYYY-MM") in
  let before := Moment.subtract 1 Moment.Month (Moment.clone target) in
  let after := Moment.add 1 Moment.Month (Moment.clone target) in
  let inWindow c := Moment.isBetween (momentOf rt (month c)) before after (str "[]") in
  let inRadius c :=
    match candidateCoords rt (Some (location c)) with
    | Some (cLat, cLng) =>
        nle rt (haversineDistance rt lat lng cLat cLng) (proximityRadiusKm rt)
    | None => false
    end in
  crimeIsNearby rt lat lng before after candidateNear = true
  /\ (crimeIsNearby rt lat lng before after candidateFar = false
      /\ inWindow candidateFar = true /\ inRadius candidateFar = false)
  /\ (crimeIsNearby rt lat lng before after candidateOld = false
      /\ inRadius candidateOld = true /\ inWindow candidateOld = false)
  /\ filter (crimeIsNearby rt lat lng before after)
       [candidateNear; candidateFar; candidateOld] = [candidateNear]
  /\ (forall key ep log,
         keyPresent key = true ->
         let req :=
           MkRequest modelName
             (incidentPromptFor rt referenceCrime (str "On or near High Street")
                [crimeSummary rt candidateNear] [])
             None in
         generateIncidentBriefing rt key referenceCrime
           [candidateNear; candidateFar; candidateOld] [] ep log
         = (ep req, log ++ [req])).
Proof.
  intros fm may june january lat lng target before after inWindow inRadius.
  assert (Eb : before = exampleBefore) by (unfold before, target; now rewrite may).
  assert (Ea : after = exampleAfter) by (unfold after, target; now rewrite may).
  pose proof (example_near fm june) as N. fold lat lng in N.
  pose proof (example_far fm june) as F. fold lat lng in F.
  pose proof (example_old fm january) as O. fold lat lng in O.
  assert (Fw : inWindow candidateFar = true).
  { unfold inWindow. rewrite Eb, Ea.
    change (month candidateFar) with (str "2024-06"). now rewrite june. }
  assert (Ow : inWindow candidateOld = false).
  { unfold inWindow. rewrite Eb, Ea.
    change (month candidateOld) with (str "2024-01"). now rewrite january. }
  assert (Fr : inRadius candidateFar = false) by apply (radius_test_far fm).
  assert (Or : inRadius candidateOld = true) by apply (radius_test_near fm).
  rewrite Eb, Ea.
  assert (L : filter (crimeIsNearby rt lat lng exampleBefore exampleAfter)
                [candidateNear; candidateFar; candidateOld] = [candidateNear]).
  { cbn [filter]. now rewrite N, F, O. }
  split; [exact N | split; [now repeat split | split; [now repeat split | split]]].
  - exact L.
  - intros key ep log Hk req.
    unfold generateIncidentBriefing.
    destruct (ai_present key Hk) as (client & ->).
    change (parseFloat rt (toStringArg (latitude (location referenceCrime))))
      with lat.
    change (parseFloat rt (toStringArg (longitude (location referenceCrime))))
      with lng.
    change (month referenceCrime) with (str "2024-05").
    fold target. fold before after. rewrite Eb, Ea.
    destruct (reference_not_nan fm) as [Nlat Nlng]. fold lat lng in Nlat, Nlng.
    rewrite Nlat, Nlng.
    cbn [orb]. unfold nearbyCrimes, nearbyStopSearches. rewrite L.
    cbn [map filter].
    unfold bind, lift, generateContent, ret.
    cbn [streetNameStrict street location referenceCrime sampleCrime
         sampleLocation name toStringArg].
    fold referenceCrime. fold req. now destruct (ep req).
Qed.

(** The example on the reference platform. *)
Lemma ideal_example_filter :
  filter (crimeIsNearby Ideal.runtime
            (parseFloat Ideal.runtime (str "53.5228"))
            (parseFloat Ideal.runtime (str "-1.1285"))
            exampleBefore exampleAfter)
    [candidateApril; candidateFar; candidateOld; candidateNear]
  = [candidateApril; candidateNear].
Proof.
  exact (@example_filter Ideal.runtime Ideal.xtoR ideal_float_model
           eq_refl eq_refl eq_refl).
Qed.

Lemma proximity_example_witness :
  FloatModel Ideal.runtime Ideal.xtoR
  /\ momentOfFormat Ideal.runtime (str "2024-05") (str "YYYY-MM")
     = Some (Moment.MkCivil 2024 4 1 0)
  /\ momentOf Ideal.runtime (str "2024-06") = Some (Moment.MkCivil 2024 5 1 0)
  /\ momentOf Ideal.runtime (str "2024-01") = Some (Moment.MkCivil 2024 0 1 0)
  /\ filter (crimeIsNearby Ideal.runtime
               (parseFloat Ideal.runtime (str "53.5228"))
               (parseFloat Ideal.runtime (str "-1.1285"))
               exampleBefore exampleAfter)
       [candidateNear; candidateFar; candidateOld]
     = [candidateNear].
Proof.
  split; [exact ideal_float_model|].
  split; [reflexivity|]. split; [reflexivity|]. split; [reflexivity|].
  pose proof (@proximity_example Ideal.runtime Ideal.xtoR ideal_float_model
                eq_refl eq_refl eq_refl) as P.
  cbv zeta in P. destruct P as (_ & _ & _ & F & _). exact F.
Defined.


Lemma nearby_within_window_witness :
  In candidateApril
     (filter (crimeIsNearby Ideal.runtime
                (parseFloat Ideal.runtime (str "53.5228"))
                (parseFloat Ideal.runtime (str "-1.1285"))
                exampleBefore exampleAfter)
        [candidateApril; candidateFar; candidateOld; candidateNear])
  /\ exists t cm,
       Ideal.xmomentOf (str "2024-05") = Some t
       /\ momentOf Ideal.runtime (month candidateApril) = Some cm
       /\ (Moment.valueOf (Moment.setMonth t (Moment.month t - 1))
           <= Moment.valueOf cm
           <= Moment.valueOf (Moment.setMonth t (Moment.month t + 1)))%Z.
Proof.
  assert (I : In candidateApril
     (filter (crimeIsNearby Ideal.runtime
                (parseFloat Ideal.runtime (str "53.5228"))
                (parseFloat Ideal.runtime (str "-1.1285"))
                exampleBefore exampleAfter)
        [candidateApril; candidateFar; candidateOld; candidateNear])).
  { rewrite ideal_example_filter. now left. }
  split; [exact I|].
  pose proof (@nearby_within_window Ideal.runtime
                (parseFloat Ideal.runtime (str "53.5228"))
                (parseFloat Ideal.runtime (str "-1.1285"))
                (Ideal.xmomentOf (str "2024-05"))) as W.
  cbv zeta in W. destruct W as (C & _).
  exact (C _ _ I).
Defined.


(** ** The entry points and the endpoint *)

Section Requests.

Variable rt : Runtime.
Variable key : option jsstring.

(** A run that ends in [generateContent] and hands the answer on. *)
Lemma send_text_run req ep log :
  bind (generateContent req) (fun response => ret response) ep log
  = (ep req, log ++ [req]).
Proof. unfold bind, generateContent, ret. now destruct (ep req). Qed.

Lemma send_json_run req ep log :
  bind (generateContent req) (fun response => lift (parseJsonResponse response))
    ep log
  = (parsedAnswer (ep req), log ++ [req]).
Proof. unfold bind, generateContent, lift, parsedAnswer. now destruct (ep req). Qed.

(** The four ways [generateIncidentBriefing] ends. *)
Lemma generateIncidentBriefing_cases crime crimes stopSearches ep log :
  let run := generateIncidentBriefing rt key crime crimes stopSearches ep log in
  run = (Return unavailable, log)
  \/ run = (Return invalidLocation, log)
  \/ (street (location crime) = None /\ exists msg, run = (Throw (ErrorObject msg), log))
  \/ (street (location crime) <> None
      /\ exists prompt,
           run = (ep (MkRequest modelName prompt None),
                  log ++ [MkRequest modelName prompt None])).
Proof.
  intros run. unfold run, generateIncidentBriefing.
  destruct (ai key); [|now left].
  destruct (isNaN rt _ || isNaN rt _)%bool; [now right; left|].
  cbv zeta. unfold streetNameStrict.
  destruct (street (location crime)) as [st|].
  - right; right; right. split; [discriminate|]. eexists.
    unfold bind at 1, lift. apply send_text_run.
  - right; right; left. split; [reflexivity|]. eexists. reflexivity.
Qed.

Lemma generateStopSearchBriefing_cases stopSearch crimes stopSearches ep log :
  let run :=
    generateStopSearchBriefing rt key stopSearch crimes stopSearches ep log in
  run = (Return unavailable, log)
  \/ run = (Return (str "Briefing not available: no location data for this incident."), log)
  \/ run = (Return invalidLocation, log)
  \/ ((exists loc, ss_location stopSearch = Some loc /\ street loc = None)
      /\ exists msg, run = (Throw (ErrorObject msg), log))
  \/ ((exists loc st, ss_location stopSearch = Some loc /\ street loc = Some st)
      /\ exists prompt,
           run = (ep (MkRequest modelName prompt None),
                  log ++ [MkRequest modelName prompt None])).
Proof.
  intros run. unfold run, generateStopSearchBriefing.
  destruct (ai key); [|now left].
  destruct (ss_location stopSearch) as [loc|]; [|now right; left].
  destruct (isNaN rt _ || isNaN rt _)%bool; [now right; right; left|].
  cbv zeta. unfold streetNameStrict.
  destruct (street loc) as [st|] eqn:E.
  - right; right; right; right. split; [now exists loc, st|]. eexists.
    unfold bind at 1, lift. apply send_text_run.
  - right; right; right; left. split; [now exists loc|]. eexists. reflexivity.
Qed.

Lemma summarizeCrimeTrends_cases crimes ep log :
  let run := summarizeCrimeTrends rt key crimes ep log in
  run = (Return unavailable, log)
  \/ (crimes = [] /\ run = (Return (str "No crime data available to summarize."), log))
  \/ (exists prompt,
        run = (ep (MkRequest modelName prompt None),
               log ++ [MkRequest modelName prompt None])).
Proof.
  intros run. unfold run, summarizeCrimeTrends.
  destruct (ai key); [|now left].
  destruct crimes as [|c crimes]; [now right; left|].
  right; right. eexists. cbn [List.length Nat.eqb]. apply send_text_run.
Qed.

Lemma generateCrimeInsights_cases crimes ep log :
  let run := generateCrimeInsights rt key crimes ep log in
  let req := insightsRequest rt crimes in
  run = (Return (JArr []), log)
  \/ run = (parsedAnswer (ep req), log ++ [req]).
Proof.
  intros run req. unfold run, req, generateCrimeInsights.
  destruct (ai key); [|now left].
  destruct crimes as [|c crimes]; [now left|].
  right. cbn [List.length Nat.eqb]. apply send_json_run.
Qed.

Lemma generatePredictiveHotspots_cases crimes ep log :
  let run := generatePredictiveHotspots rt key crimes ep log in
  let req := hotspotsRequest rt crimes in
  run = (Return (JArr []), log)
  \/ run = (parsedAnswer (ep req), log ++ [req]).
Proof.
  intros run req. unfold run, req, generatePredictiveHotspots.
  destruct (ai key); [|now left].
  destruct (Nat.ltb (List.length crimes) 10); [now left|].
  right. apply send_json_run.
Qed.

Lemma log_grew (log : list Request) req : log ++ [req] <> log.
Proof.
  intros H. apply (f_equal (@List.length _)) in H.
  rewrite length_app in H. cbn in H. lia.
Qed.

Lemma log_last (log : list Request) a b : log ++ [a] = log ++ [b] -> a = b.
Proof. intros H. apply app_inv_head in H. now injection H. Qed.

End Requests.

(** X1. Each of the five entry points sends at most one request per
    call (nothing is retried and nothing already in the log is touched);
    the request goes to the model gemini-2.5-flash-preview-04-17, with no
    response type for the three text features and with application/json
    for the two list-valued ones. *)
Theorem at_most_one_request (rt : Runtime) (key : option jsstring)
    (crime : Crime) (stopSearch : StopSearch) (crimes : list Crime)
    (stopSearches : list StopSearch) (ep : Endpoint) (log : list Request) :
  sendsAtMostOne (generateIncidentBriefing rt key crime crimes stopSearches)
    None ep log
  /\ sendsAtMostOne
       (generateStopSearchBriefing rt key stopSearch crimes stopSearches)
       None ep log
  /\ sendsAtMostOne (summarizeCrimeTrends rt key crimes) None ep log
  /\ sendsAtMostOne (generateCrimeInsights rt key crimes)
       (Some (str "application/json")) ep log
  /\ sendsAtMostOne (generatePredictiveHotspots rt key crimes)
       (Some (str "application/json")) ep log.
Proof.
  split; [|split; [|split; [|split]]].
  - destruct (generateIncidentBriefing_cases rt key crime crimes stopSearches ep log)
      as [H|[H|[[_ [msg H]]|[_ [prompt H]]]]].
    + left; now rewrite H.
    + left; now rewrite H.
    + left; now rewrite H.
    + right; eexists; now rewrite H.
  - destruct (generateStopSearchBriefing_cases rt key stopSearch crimes
                stopSearches ep log)
      as [H|[H|[H|[[_ [msg H]]|[_ [prompt H]]]]]].
    + left; now rewrite H.
    + left; now rewrite H.
    + left; now rewrite H.
    + left; now rewrite H.
    + right; eexists; now rewrite H.
  - destruct (summarizeCrimeTrends_cases rt key crimes ep log)
      as [H|[[_ H]|[prompt H]]].
    + left; now rewrite H.
    + left; now rewrite H.
    + right; eexists; now rewrite H.
  - destruct (generateCrimeInsights_cases rt key crimes ep log) as [H|H].
    + left; now rewrite H.
    + right; eexists; now rewrite H.
  - destruct (generatePredictiveHotspots_cases rt key crimes ep log) as [H|H].
    + left; now rewrite H.
    + right; eexists; now rewrite H.
Qed.

(** X2. What an entry point makes of its one request: the three text
    features return the text of the answer as it is, the two list-valued
    ones what [parseJsonResponse] makes of it, and whatever the endpoint
    throws is thrown on unchanged (nothing is caught on the way). *)
Theorem answer_decides_result (rt : Runtime) (key : option jsstring)
    (crime : Crime) (stopSearch : StopSearch) (crimes : list Crime)
    (stopSearches : list StopSearch) (ep : Endpoint) (log : list Request)
    (req : Request) :
  (snd (generateIncidentBriefing rt key crime crimes stopSearches ep log)
   = log ++ [req] ->
   fst (generateIncidentBriefing rt key crime crimes stopSearches ep log)
   = ep req)
  /\ (snd (generateStopSearchBriefing rt key stopSearch crimes stopSearches ep log)
      = log ++ [req] ->
      fst (generateStopSearchBriefing rt key stopSearch crimes stopSearches ep log)
      = ep req)
  /\ (snd (summarizeCrimeTrends rt key crimes ep log) = log ++ [req] ->
      fst (summarizeCrimeTrends rt key crimes ep log) = ep req)
  /\ (snd (generateCrimeInsights rt key crimes ep log) = log ++ [req] ->
      fst (generateCrimeInsights rt key crimes ep log) = parsedAnswer (ep req))
  /\ (snd (generatePredictiveHotspots rt key crimes ep log) = log ++ [req] ->
      fst (generatePredictiveHotspots rt key crimes ep log)
      = parsedAnswer (ep req)).
Proof.
  split; [|split; [|split; [|split]]].
  - destruct (generateIncidentBriefing_cases rt key crime crimes stopSearches ep log)
      as [H|[H|[[_ [msg H]]|[_ [prompt H]]]]]; rewrite H; cbn [fst snd]; intros E;
      try (symmetry in E; now apply log_grew in E).
    now rewrite (log_last _ _ _ E).
  - destruct (generateStopSearchBriefing_cases rt key stopSearch crimes
                stopSearches ep log)
      as [H|[H|[H|[[_ [msg H]]|[_ [prompt H]]]]]]; rewrite H; cbn [fst snd];
      intros E; try (symmetry in E; now apply log_grew in E).
    now rewrite (log_last _ _ _ E).
  - destruct (summarizeCrimeTrends_cases rt key crimes ep log)
      as [H|[[_ H]|[prompt H]]]; rewrite H; cbn [fst snd]; intros E;
      try (symmetry in E; now apply log_grew in E).
    now rewrite (log_last _ _ _ E).
  - destruct (generateCrimeInsights_cases rt key crimes ep log) as [H|H];
      rewrite H; cbn [fst snd]; intros E;
      try (symmetry in E; now apply log_grew in E).
    now rewrite (log_last _ _ _ E).
  - destruct (generatePredictiveHotspots_cases rt key crimes ep log) as [H|H];
      rewrite H; cbn [fst snd]; intros E;
      try (symmetry in E; now apply log_grew in E).
    now rewrite (log_last _ _ _ E).
Qed.

Lemma answer_decides_result_witness :
  let run :=
    summarizeCrimeTrends Ideal.runtime (Some (str "key")) [candidateNear]
      (failing (ErrorObject (str "503"))) [] in
  (exists req, snd run = [] ++ [req])
  /\ fst run = Throw (ErrorObject (str "503")).
Proof.
  intros run.
  assert (S : snd run
              = [] ++ [MkRequest modelName
                         (trendsPrompt
                            (JSON_stringify Ideal.runtime
                               (VArray [crimeSummary Ideal.runtime candidateNear])))
                         None]) by reflexivity.
  split; [eexists; exact S|].
  destruct (answer_decides_result Ideal.runtime (Some (str "key")) candidateNear
              (MkStopSearch [] [] None [] None) [candidateNear] []
              (failing (ErrorObject (str "503"))) []
              (MkRequest modelName
                 (trendsPrompt
                    (JSON_stringify Ideal.runtime
                       (VArray [crimeSummary Ideal.runtime candidateNear])))
                 None))
    as (_ & _ & T & _).
  exact (T S).
Defined.

(** X3. With a key configured, each input guard answers with its fixed
    sentence and sends nothing: no crimes to summarize, a stop and search
    without a location, and a reference record one of whose coordinates
    parses to NaN. *)
Theorem guards_send_nothing (rt : Runtime) (key : option jsstring) :
  keyPresent key = true ->
  forall (crimes : list Crime) (stopSearches : list StopSearch)
         (ep : Endpoint) (log : list Request),
    summarizeCrimeTrends rt key [] ep log
    = (Return (str "No crime data available to summarize."), log)
    /\ (forall stopSearch,
          ss_location stopSearch = None ->
          generateStopSearchBriefing rt key stopSearch crimes stopSearches ep log
          = (Return (str "Briefing not available: no location data for this incident."),
             log))
    /\ (forall stopSearch loc,
          ss_location stopSearch = Some loc ->
          (isNaN rt (parseFloat rt (toStringArg (latitude loc)))
           || isNaN rt (parseFloat rt (toStringArg (longitude loc))))%bool = true ->
          generateStopSearchBriefing rt key stopSearch crimes stopSearches ep log
          = (Return invalidLocation, log))
    /\ (forall crime,
          (isNaN rt (parseFloat rt (toStringArg (latitude (location crime))))
           || isNaN rt (parseFloat rt (toStringArg (longitude (location crime)))))%bool
          = true ->
          generateIncidentBriefing rt key crime crimes stopSearches ep log
          = (Return invalidLocation, log)).
Proof.
  intros Hk crimes stopSearches ep log.
  destruct (ai_present key Hk) as (client & A).
  split; [|split; [|split]].
  - unfold summarizeCrimeTrends. now rewrite A.
  - intros stopSearch H. unfold generateStopSearchBriefing. now rewrite A, H.
  - intros stopSearch loc H N. unfold generateStopSearchBriefing.
    now rewrite A, H, N.
  - intros crime N. unfold generateIncidentBriefing. now rewrite A, N.
Qed.

Lemma guards_send_nothing_witness :
  keyPresent (Some (str "key")) = true
  /\ generateStopSearchBriefing Ideal.runtime (Some (str "key"))
       (MkStopSearch (str "2024-05-03T10:00:00+00:00") (str "Person search")
          None (str "Arrest") None)
       [candidateNear] [] (answering (str "unused")) []
     = (Return (str "Briefing not available: no location data for this incident."),
        []).
Proof.
  split; [reflexivity|].
  destruct (@guards_send_nothing Ideal.runtime (Some (str "key")) eq_refl
              [candidateNear] [] (answering (str "unused")) [])
    as (_ & G & _).
  now apply G.
Defined.

(** X4. A record whose location has no street never gets a briefing: no
    request is sent for it, the only texts returned are the two fixed
    sentences, and once the key and the coordinates are in order building
    the prompt throws an error. *)
Theorem street_missing_sends_nothing (rt : Runtime) (key : option jsstring)
    (crime : Crime) (stopSearch : StopSearch) (loc : Location)
    (crimes : list Crime) (stopSearches : list StopSearch)
    (ep : Endpoint) (log : list Request) :
  (street (location crime) = None ->
   let run := generateIncidentBriefing rt key crime crimes stopSearches ep log in
   snd run = log
   /\ (forall text, fst run = Return text ->
                    text = unavailable \/ text = invalidLocation)
   /\ (keyPresent key = true ->
       (isNaN rt (parseFloat rt (toStringArg (latitude (location crime))))
        || isNaN rt (parseFloat rt (toStringArg (longitude (location crime)))))%bool
       = false ->
       exists msg, fst run = Throw (ErrorObject msg)))
  /\ (ss_location stopSearch = Some loc -> street loc = None ->
      let run :=
        generateStopSearchBriefing rt key stopSearch crimes stopSearches ep log in
      snd run = log
      /\ (forall text, fst run = Return text ->
                       text = unavailable \/ text = invalidLocation)
      /\ (keyPresent key = true ->
          (isNaN rt (parseFloat rt (toStringArg (latitude loc)))
           || isNaN rt (parseFloat rt (toStringArg (longitude loc))))%bool = false ->
          exists msg, fst run = Throw (ErrorObject msg))).
Proof.
  split.
  - intros S run.
    assert (C : run = (Return unavailable, log)
                \/ run = (Return invalidLocation, log)
                \/ exists msg, run = (Throw (ErrorObject msg), log)).
    { destruct (generateIncidentBriefing_cases rt key crime crimes stopSearches
                  ep log) as [H|[H|[[_ H]|[N _]]]]; auto.
      now destruct N. }
    split; [|split].
    + destruct C as [->|[->|[msg ->]]]; reflexivity.
    + intros text. destruct C as [->|[->|[msg ->]]]; cbn [fst]; intros E;
        try discriminate; injection E as <-; auto.
    + intros Hk N. unfold run, generateIncidentBriefing.
      destruct (ai_present key Hk) as (client & ->). rewrite N. cbv zeta.
      unfold streetNameStrict. rewrite S. eexists. reflexivity.
  - intros L S run.
    assert (C : run = (Return unavailable, log)
                \/ run = (Return invalidLocation, log)
                \/ exists msg, run = (Throw (ErrorObject msg), log)).
    { destruct (generateStopSearchBriefing_cases rt key stopSearch crimes
                  stopSearches ep log)
        as [H|[H|[H|[[_ H]|[(l & st & E1 & E2) _]]]]]; auto.
      - unfold run in *. exfalso. revert H.
        unfold generateStopSearchBriefing. rewrite L.
        destruct (ai key); [|discriminate].
        destruct (isNaN rt _ || isNaN rt _)%bool; [discriminate|].
        cbv zeta. unfold streetNameStrict. rewrite S. discriminate.
      - congruence. }
    split; [|split].
    + destruct C as [->|[->|[msg ->]]]; reflexivity.
    + intros text. destruct C as [->|[->|[msg ->]]]; cbn [fst]; intros E;
        try discriminate; injection E as <-; auto.
    + intros Hk N. unfold run, generateStopSearchBriefing.
      destruct (ai_present key Hk) as (client & ->). rewrite L, N. cbv zeta.
      unfold streetNameStrict. rewrite S. eexists. reflexivity.
Qed.

Lemma street_missing_sends_nothing_witness :
  street (location streetlessCrime) = None
  /\ keyPresent (Some (str "key")) = true
  /\ snd (generateIncidentBriefing Ideal.runtime (Some (str "key"))
            streetlessCrime [candidateNear] [] (answering (str "unused")) [])
     = []
  /\ exists msg,
       fst (generateIncidentBriefing Ideal.runtime (Some (str "key"))
              streetlessCrime [candidateNear] [] (answering (str "unused")) [])
       = Throw (ErrorObject msg).
Proof.
  split; [reflexivity|]. split; [reflexivity|].
  destruct (street_missing_sends_nothing Ideal.runtime (Some (str "key"))
              streetlessCrime (MkStopSearch [] [] None [] None)
              (location streetlessCrime) [candidateNear] []
              (answering (str "unused")) []) as [I _].
  destruct (I eq_refl) as (A & _ & B).
  split; [exact A|]. apply B; reflexivity.
Defined.

(** X5. Only the first 100 crimes reach the trend summary and only the
    first 200 the insights: a list and its first 100 (or 200) records give
    the same run, request included, so later records never weigh on the
    prompt. *)
Theorem sample_bounds (rt : Runtime) (key : option jsstring)
    (crimes : list Crime) (ep : Endpoint) (log : list Request) :
  summarizeCrimeTrends rt key crimes ep log
  = summarizeCrimeTrends rt key (slice0 100 crimes) ep log
  /\ generateCrimeInsights rt key crimes ep log
     = generateCrimeInsights rt key (slice0 200 crimes) ep log
  /\ (List.length (slice0 100 crimes) <= 100)%nat
  /\ (List.length (slice0 200 crimes) <= 200)%nat.
Proof.
  unfold summarizeCrimeTrends, generateCrimeInsights, insightsRequest, slice0.
  rewrite !firstn_firstn, !Nat.min_id.
  repeat split; try apply firstn_le_length.
  - destruct (ai key); [|reflexivity]. now destruct crimes.
  - destruct (ai key); [|reflexivity]. now destruct crimes.
Qed.

(* ------------------------------------------------------------------ *)
(** ** [parseJsonResponse]: white space around a reply, and prose *)

Section ReplyShape.

Lemma trim_padding l1 text l2 :
  allSpace l1 -> allSpace l2 -> trim (l1 ++ text ++ l2) = trim text.
Proof.
  intros H1 H2. unfold trim. rewrite trimStart_allSpace by exact H1.
  destruct (trimStart_split text) as (l & E & Hl & [T | (a & r & T & Ha)]).
  - rewrite T. rewrite E at 1. rewrite T, app_nil_r.
    rewrite trimStart_allSpace by exact Hl.
    rewrite <- (app_nil_r l2), trimStart_allSpace by exact H2.
    reflexivity.
  - rewrite E at 1. rewrite <- app_assoc.
    rewrite trimStart_allSpace by exact Hl.
    rewrite T. cbn [app]. rewrite trimStart_head by exact Ha.
    change (a :: r ++ l2) with ((a :: r) ++ l2).
    now apply trimEnd_allSpace.
Qed.

Lemma trim_keeps_head c rest :
  isSpace c = false -> exists r, trim (c :: rest) = c :: r.
Proof.
  intros Hc. destruct (trim_spec (c :: rest)) as (l1 & l2 & E & H1 & H2 & _).
  destruct l1 as [|x l1].
  - cbn [app] in E. destruct (trim (c :: rest)) as [|y r].
    + cbn [app] in E. subst l2. unfold allSpace in H2. cbn in H2.
      rewrite Hc in H2. discriminate.
    + cbn [app] in E. injection E as -> _. now exists r.
  - cbn [app] in E. injection E as <- _. unfold allSpace in H1. cbn in H1.
    rewrite Hc in H1. discriminate.
Qed.

Lemma letter_not_space c :
  (in_range 65 90 c || in_range 97 122 c)%bool = true -> isSpace c = false.
Proof. intros H. charclass. Qed.

Lemma letter_starts_nothing c :
  (in_range 65 90 c || in_range 97 122 c)%bool = true ->
  c <> 102%N -> c <> 110%N -> c <> 116%N ->
  JSONParser.step JSONParser.init c = JSONParser.perror.
Proof.
  intros H Hf Hn Ht.
  unfold JSONParser.step, JSONParser.init. cbn [JSONParser.mode].
  unfold JSONParser.stepMain. cbn [JSONParser.mode JSONParser.stack].
  assert (S : JSONParser.isJsonSpace c = false).
  { unfold JSONParser.isJsonSpace. charclass. }
  rewrite S. unfold JSONParser.startValue.
  apply N.eqb_neq in Hf, Hn, Ht. rewrite Hf, Hn, Ht.
  assert (E1 : N.eqb c 91 = false) by charclass.
  assert (E2 : N.eqb c 93 = false) by charclass.
  assert (E3 : N.eqb c 123 = false) by charclass.
  assert (E4 : N.eqb c 34 = false) by charclass.
  rewrite E1, E2, E3, E4.
  assert (E5 : JSONParser.numStart c = None).
  { unfold JSONParser.numStart.
    assert (F1 : N.eqb c 45 = false) by charclass.
    assert (F2 : N.eqb c 48 = false) by charclass.
    assert (F3 : in_range 49 57 c = false) by charclass.
    now rewrite F1, F2, F3. }
  now rewrite E5.
Qed.

End ReplyShape.

(** X6. White space around a reply does not change what
    [parseJsonResponse] returns or throws: the reply is trimmed before
    anything else is looked at. *)
Theorem reply_padding_ignored (l1 text l2 : jsstring) :
  allSpace l1 -> allSpace l2 ->
  parseJsonResponse (l1 ++ text ++ l2) = parseJsonResponse text.
Proof.
  intros H1 H2. unfold parseJsonResponse, stripFence.
  now rewrite trim_padding.
Qed.

Lemma reply_padding_ignored_witness :
  allSpace (str " ") /\ allSpace [10%N] /\
  parseJsonResponse (str " " ++ str "[1]" ++ [10%N])
  = parseJsonResponse (str "[1]").
Proof.
  split; [reflexivity | split; [reflexivity |]].
  apply (@reply_padding_ignored (str " ") (str "[1]") [10%N]); reflexivity.
Defined.

(** X7. A reply that opens with a letter other than f, n and t (prose
    before the data, say) is rejected with the parse failure, whatever
    follows and even when a fenced block follows: the fence pattern is
    anchored at the start of the trimmed reply, and no JSON text starts
    with such a letter. *)
Theorem prose_reply_rejected (c : N) (rest : jsstring) :
  (in_range 65 90 c || in_range 97 122 c)%bool = true ->
  c <> 102%N -> c <> 110%N -> c <> 116%N ->
  parseJsonResponse (c :: rest) = Throw parseFailure.
Proof.
  intros H Hf Hn Ht.
  destruct (@trim_keeps_head c rest (letter_not_space c H)) as (r & E).
  unfold parseJsonResponse, stripFence. rewrite E.
  rewrite exec_no_fence.
  2:{ intros r' [= -> _]. vm_compute in H. discriminate. }
  unfold JSON_parse. cbn [fold_left].
  rewrite letter_starts_nothing by assumption.
  now rewrite run_error.
Qed.

Lemma prose_reply_rejected_witness :
  parseJsonResponse (str "Here it is: ```json [1] ```") = Throw parseFailure.
Proof.
  apply (@prose_reply_rejected 72%N (str "ere it is: ```json [1] ```"));
    [reflexivity | discriminate | discriminate | discriminate].
Defined.

(** ** The title case of a category *)

Section TitleCase.

Lemma toUpperCase_isWord c : isWord (toUpperCase c) = isWord c.
Proof.
  unfold toUpperCase. destruct (in_range 97 122 c) eqn:E; [|reflexivity].
  assert (W : isWord c = true) by charclass.
  rewrite W. charclass.
Qed.

Lemma toUpperCase_idem c : toUpperCase (toUpperCase c) = toUpperCase c.
Proof.
  destruct (in_range 97 122 c) eqn:E.
  - assert (U : toUpperCase c = (c - 32)%N) by (unfold toUpperCase; now rewrite E).
    rewrite U. unfold toUpperCase.
    replace (in_range 97 122 (c - 32)) with false; [reflexivity|].
    symmetry. charclass.
  - assert (U : toUpperCase c = c) by (unfold toUpperCase; now rewrite E).
    now rewrite !U.
Qed.

Lemma toUpperCase_not_hyphen c : c <> 45%N -> toUpperCase c <> 45%N.
Proof.
  unfold toUpperCase. destruct (in_range 97 122 c) eqn:E; [|easy].
  intros _. charclass.
Qed.

Lemma toUpperCase_not_lower c : in_range 97 122 (toUpperCase c) = false.
Proof.
  unfold toUpperCase. destruct (in_range 97 122 c) eqn:E; [|exact E].
  charclass.
Qed.

Lemma capitalizeWords_length b s :
  List.length (capitalizeWords b s) = List.length s.
Proof. revert b. induction s as [|c s IH]; intros b; cbn; [|rewrite IH]; reflexivity. Qed.

Lemma capitalizeWords_no_hyphen b s :
  ~ In 45%N s -> ~ In 45%N (capitalizeWords b s).
Proof.
  revert b. induction s as [|c s IH]; intros b H; cbn [capitalizeWords].
  - exact H.
  - intros [E|I].
    + destruct (isWord c && negb b)%bool.
      * apply (@toUpperCase_not_hyphen c); [|exact E]. intros ->. apply H. now left.
      * apply H. now left.
    + apply (IH (isWord c)); [|exact I]. intros J. apply H. now right.
Qed.

Lemma capitalizeWords_idem b s :
  capitalizeWords b (capitalizeWords b s) = capitalizeWords b s.
Proof.
  revert b. induction s as [|c s IH]; intros b; cbn [capitalizeWords];
    [reflexivity|].
  destruct (isWord c && negb b)%bool eqn:E.
  - rewrite toUpperCase_isWord, E, toUpperCase_idem. f_equal. apply IH.
  - rewrite E. f_equal. apply IH.
Qed.

Lemma hyphens_gone s :
  ~ In 45%N (map (fun c => if N.eqb c 45 then 32%N else c) s).
Proof.
  induction s as [|c s IH]; cbn [map]; [easy|].
  intros [E|I]; [|now apply IH].
  destruct (N.eqb_spec c 45); [discriminate | congruence].
Qed.

Lemma no_hyphen_map s :
  ~ In 45%N s -> map (fun c => if N.eqb c 45 then 32%N else c) s = s.
Proof.
  induction s as [|c s IH]; intros H; cbn [map]; [reflexivity|].
  destruct (N.eqb_spec c 45) as [->|_]; [exfalso; apply H; now left|].
  f_equal. apply IH. intros I. apply H. now right.
Qed.

(** A word character that follows none is never a lower-case letter. *)
Lemma capitalizeWords_starts b s l1 c l2 :
  capitalizeWords b s = l1 ++ c :: l2 ->
  (match rev l1 with [] => b | p :: _ => isWord p end) = false ->
  in_range 97 122 c = false.
Proof.
  revert b l1. induction s as [|x s IH]; intros b l1 E H; cbn [capitalizeWords] in E.
  - now destruct l1.
  - destruct l1 as [|y l1]; cbn [app] in E; injection E as E1 E2.
    + cbn [rev] in H. subst b c. destruct (isWord x) eqn:W; cbn [andb negb].
      * apply toUpperCase_not_lower.
      * destruct (in_range 97 122 x) eqn:L; [|reflexivity]. exfalso. charclass.
    + apply (IH (isWord x) l1 E2).
      assert (Wy : isWord y = isWord x).
      { subst y. destruct (isWord x && negb b)%bool; [apply toUpperCase_isWord | reflexivity]. }
      cbn [rev] in H. destruct (rev l1) as [|p r] eqn:R; cbn [app] in H.
      * now rewrite <- Wy.
      * exact H.
Qed.

End TitleCase.

(** X8. The title case of a category, as every prompt, popup and table
    row shows it: as long as the category, with no hyphen left, and with no
    lower-case letter at the start of a word (a word character that
    follows none); applying it again changes nothing. *)
Theorem titleCase_shape (s : jsstring) :
  List.length (titleCase s) = List.length s
  /\ ~ In 45%N (titleCase s)
  /\ (forall l1 c l2,
        titleCase s = l1 ++ c :: l2 ->
        (match rev l1 with [] => false | p :: _ => isWord p end) = false ->
        in_range 97 122 c = false)
  /\ titleCase (titleCase s) = titleCase s.
Proof.
  unfold titleCase. split; [|split; [|split]].
  - now rewrite capitalizeWords_length, length_map.
  - apply capitalizeWords_no_hyphen, hyphens_gone.
  - intros l1 c l2. apply capitalizeWords_starts.
  - rewrite no_hyphen_map by (apply capitalizeWords_no_hyphen, hyphens_gone).
    apply capitalizeWords_idem.
Qed.

(** ** The map: which crimes are drawn *)

Section MapGuards.

Variable rt : Runtime.

Lemma parseFloat_undefined : parseFloat rt (str "undefined") = nan rt.
Proof. reflexivity. Qed.

Lemma parseFloat_empty : parseFloat rt [] = nan rt.
Proof. reflexivity. Qed.

Lemma falsy_parses_nan x :
  falsy x = true -> parseFloat rt (toStringArg x) = nan rt.
Proof. destruct x as [[|c s]|]; try discriminate; reflexivity. Qed.

Lemma markerPosition_heat c :
  (if heatFilter rt
        (parseFloat rt (toStringArg (latitude (location c))),
         parseFloat rt (toStringArg (longitude (location c))),
         fromDecimal rt (MkDecimal false 1 0))
   then true else false)
  = match markerPosition rt c with Some _ => true | None => false end.
Proof.
  unfold markerPosition, heatFilter. cbn [fst snd].
  destruct (isNaN rt _), (isNaN rt _); reflexivity.
Qed.

Lemma heat_positions (w : Crime -> number rt) crimes :
  map fst
    (filter (heatFilter rt)
       (map (fun c => (parseFloat rt (toStringArg (latitude (location c))),
                       parseFloat rt (toStringArg (longitude (location c))),
                       w c)) crimes))
  = markerPositions rt crimes.
Proof.
  unfold markerPositions.
  induction crimes as [|c crimes IH]; [reflexivity|].
  cbn [map filter flat_map]. unfold heatFilter at 1, markerPosition at 1.
  cbn [fst snd].
  destruct (isNaN rt _), (isNaN rt _); cbn [negb andb orb app map fst];
    now rewrite IH.
Qed.

Lemma recency_positions clock i crimes :
  map fst (filter (heatFilter rt) (recencyPoints rt clock i crimes))
  = markerPositions rt crimes.
Proof.
  unfold markerPositions. revert i.
  induction crimes as [|c crimes IH]; intros i; [reflexivity|].
  cbn [recencyPoints filter flat_map]. unfold heatFilter at 1, markerPosition at 1.
  cbn [fst snd].
  destruct (isNaN rt _), (isNaN rt _); cbn [negb andb orb app map fst];
    now rewrite IH.
Qed.

Lemma markerPositions_length crimes :
  (List.length (markerPositions rt crimes) <= List.length crimes)%nat.
Proof.
  unfold markerPositions. induction crimes as [|c crimes IH]; [reflexivity|].
  cbn [flat_map]. rewrite length_app.
  destruct (markerPosition rt c); cbn [List.length]; lia.
Qed.

Lemma addMarkers_prefix crimes :
  exists unmarked,
    markerPositions rt crimes = fst (addMarkers rt crimes) ++ unmarked.
Proof.
  unfold markerPositions.
  induction crimes as [|c crimes (u & IH)]; [now exists []|].
  cbn [flat_map addMarkers]. destruct (markerPosition rt c) as [p|].
  - destruct (createCrimePopupContent rt c loadingBriefingContent).
    + destruct (addMarkers rt crimes) as [added thrown]. cbn [fst] in *.
      exists u. cbn [app]. now rewrite IH.
    + cbn [fst app]. eexists. reflexivity.
  - exists u. exact IH.
Qed.

Lemma addMarkers_all crimes :
  snd (addMarkers rt crimes) = None ->
  fst (addMarkers rt crimes) = markerPositions rt crimes.
Proof.
  unfold markerPositions.
  induction crimes as [|c crimes IH]; [reflexivity|].
  cbn [flat_map addMarkers]. destruct (markerPosition rt c) as [p|].
  - destruct (createCrimePopupContent rt c loadingBriefingContent);
      [|discriminate].
    destruct (addMarkers rt crimes) as [added thrown]. cbn [fst snd] in *.
    intros H. cbn [app]. now rewrite IH.
  - exact IH.
Qed.

Lemma addMarkers_streets crimes :
  (forall c, In c crimes -> street (location c) <> None) ->
  snd (addMarkers rt crimes) = None.
Proof.
  induction crimes as [|c crimes IH]; intros S; [reflexivity|].
  assert (T : snd (addMarkers rt crimes) = None).
  { apply IH. intros c' I. apply S. now right. }
  cbn [addMarkers]. destruct (markerPosition rt c) as [p|]; [|exact T].
  unfold createCrimePopupContent, streetNameStrict.
  destruct (street (location c)) eqn:E.
  - now destruct (addMarkers rt crimes).
  - exfalso. apply (S c); [now left | exact E].
Qed.

End MapGuards.

(** X9. The map and the proximity filter agree on which crimes have
    usable coordinates: the guard a marker is created under accepts a
    crime exactly when the guard of the proximity filter does, and with
    the same parsed position (a missing or empty coordinate parses to NaN,
    so the filter's extra test for one changes nothing). *)
Theorem marker_guard_agrees (rt : Runtime) :
  isNaN rt (nan rt) = true ->
  forall crime : Crime,
    markerPosition rt crime = candidateCoords rt (Some (location crime)).
Proof.
  intros N crime. unfold markerPosition, candidateCoords.
  destruct (falsy (latitude (location crime))) eqn:F1.
  - rewrite (@falsy_parses_nan rt _ F1), N. reflexivity.
  - destruct (falsy (longitude (location crime))) eqn:F2.
    + rewrite (@falsy_parses_nan rt _ F2), N, orb_true_r. reflexivity.
    + reflexivity.
Qed.

Lemma marker_guard_agrees_witness :
  isNaN Ideal.runtime (nan Ideal.runtime) = true
  /\ markerPosition Ideal.runtime candidateNoCoords = None
  /\ candidateCoords Ideal.runtime (Some (location candidateNoCoords)) = None.
Proof.
  split; [reflexivity|].
  pose proof (@marker_guard_agrees Ideal.runtime eq_refl candidateNoCoords) as E.
  split; [rewrite E|]; reflexivity.
Defined.

(** X10. Both heat layers are drawn over the same positions, those of
    the crimes that pass the marker guard, in the order of the list, so
    neither holds more points than there are crimes.  The markers stand on
    an initial part of these positions, and on all of them when no popup
    content threw, which is the case when every crime has a street. *)
Theorem heat_layers_match_markers (rt : Runtime)
    (clock : nat -> Moment.Civil) (crimes : list Crime) :
  map fst (densityHeatData rt crimes) = markerPositions rt crimes
  /\ map fst (recencyHeatData rt clock crimes) = markerPositions rt crimes
  /\ (List.length (densityHeatData rt crimes) <= List.length crimes)%nat
  /\ (exists unmarked,
        markerPositions rt crimes = fst (addMarkers rt crimes) ++ unmarked)
  /\ (snd (addMarkers rt crimes) = None ->
      fst (addMarkers rt crimes) = markerPositions rt crimes)
  /\ ((forall c, In c crimes -> street (location c) <> None) ->
      snd (addMarkers rt crimes) = None).
Proof.
  assert (D : map fst (densityHeatData rt crimes) = markerPositions rt crimes)
    by apply heat_positions.
  assert (R : map fst (recencyHeatData rt clock crimes) = markerPositions rt crimes)
    by apply recency_positions.
  pose proof (f_equal (@List.length _) D) as LD. rewrite length_map in LD.
  split; [exact D | split; [exact R | split; [|split; [|split]]]].
  - pose proof (markerPositions_length rt crimes) as X. rewrite <- LD in X.
    exact X.
  - apply addMarkers_prefix.
  - apply addMarkers_all.
  - apply addMarkers_streets.
Qed.

Lemma heat_layers_match_markers_witness :
  (forall c, In c [referenceCrime; candidateNear] ->
             street (location c) <> None)
  /\ fst (addMarkers Ideal.runtime [referenceCrime; candidateNear])
     = map fst (densityHeatData Ideal.runtime [referenceCrime; candidateNear]).
Proof.
  assert (S : forall c, In c [referenceCrime; candidateNear] ->
                        street (location c) <> None).
  { intros c [<-|[<-|[]]]; discriminate. }
  split; [exact S|].
  destruct (heat_layers_match_markers Ideal.runtime
              (fun _ => Moment.MkCivil 2024 5 20 0)
              [referenceCrime; candidateNear]) as (D & _ & _ & _ & A & N).
  rewrite D. apply A, N, S.
Defined.

(** ** The map: the age of a crime *)

Section Age.

Variable rt : Runtime.
Variable now : Moment.Civil.

Lemma daysAtMost_mono d1 d2 k :
  (d2 <= d1)%Z -> daysAtMost (Some d1) k = true -> daysAtMost (Some d2) k = true.
Proof. cbn. rewrite !Z.leb_le. lia. Qed.

Lemma daysAtMost_step d j k :
  (j <= k)%Z -> daysAtMost d j = true -> daysAtMost d k = true.
Proof. destruct d as [d|]; cbn; [|easy]. rewrite !Z.leb_le. lia. Qed.


End Age.



(** ** The map: the briefing cache *)

Section Refs.

Lemma jseqb_eq a b : jseqb a b = true <-> a = b.
Proof.
  revert b. induction a as [|x a IH]; intros [|y b]; cbn; try easy.
  rewrite andb_true_iff, N.eqb_eq, IH. split.
  - now intros [-> ->].
  - intros E. now injection E.
Qed.

Lemma jseqb_refl a : jseqb a a = true.
Proof. now apply jseqb_eq. Qed.

Lemma jseqb_neq a b : jseqb a b = false <-> a <> b.
Proof.
  split.
  - intros H E. apply jseqb_eq in E. congruence.
  - intros H. destruct (jseqb a b) eqn:E; [|reflexivity].
    apply jseqb_eq in E. contradiction.
Qed.

Lemma mapGet_mapSet k k' v m :
  mapGet k (mapSet k' v m) = if jseqb k' k then Some v else mapGet k m.
Proof.
  induction m as [|[k0 v0] m IH]; cbn [mapSet mapGet].
  - reflexivity.
  - destruct (jseqb k0 k') eqn:E0.
    + apply jseqb_eq in E0. subst k0. cbn [mapGet].
      now destruct (jseqb k' k).
    + cbn [mapGet]. destruct (jseqb k0 k) eqn:E1; [|exact IH].
      apply jseqb_eq in E1. subst k0. apply jseqb_neq in E0.
      replace (jseqb k' k) with false; [reflexivity|].
      symmetry. apply jseqb_neq. congruence.
Qed.

Lemma setHas_In k s : setHas k s = true <-> In k s.
Proof.
  unfold setHas. rewrite existsb_exists. split.
  - intros (x & I & E). apply jseqb_eq in E. now subst.
  - intros I. exists k. split; [exact I | apply jseqb_refl].
Qed.

Lemma setHas_false k s : setHas k s = false <-> ~ In k s.
Proof.
  rewrite <- setHas_In. destruct (setHas k s); split; congruence.
Qed.

Lemma setAdd_In k x s : In x (setAdd k s) <-> x = k \/ In x s.
Proof.
  unfold setAdd. destruct (setHas k s) eqn:E.
  - apply setHas_In in E. split; [now right | intros [->|I]; assumption].
  - rewrite in_app_iff. cbn. split.
    + intros [I|[->|[]]]; auto.
    + intros [->|I]; auto.
Qed.

Lemma setDelete_In k x s : In x (setDelete k s) <-> In x s /\ x <> k.
Proof.
  unfold setDelete. rewrite filter_In, negb_true_iff, jseqb_neq. reflexivity.
Qed.

Lemma setDelete_absent k s : ~ In k s -> setDelete k s = s.
Proof.
  intros H. unfold setDelete. induction s as [|x s IH]; [reflexivity|].
  cbn [filter]. destruct (jseqb x k) eqn:E.
  - apply jseqb_eq in E. subst x. exfalso. apply H. now left.
  - cbn [negb]. f_equal. apply IH. intros I. apply H. now right.
Qed.

(** Adding a key that is not there and deleting it again. *)
Lemma setDelete_setAdd k s : setHas k s = false -> setDelete k (setAdd k s) = s.
Proof.
  intros H. unfold setAdd. rewrite H. unfold setDelete.
  rewrite filter_app. cbn [filter]. rewrite jseqb_refl. cbn [negb].
  rewrite app_nil_r. apply setDelete_absent. now apply setHas_false.
Qed.

Lemma removeOne_In k x l :
  NoDup l -> (In x (removeOne k l) <-> In x l /\ x <> k).
Proof.
  induction 1 as [|y l N D IH]; cbn [removeOne]; [easy|].
  destruct (jseqb y k) eqn:E.
  - apply jseqb_eq in E. subst y. split.
    + intros I. split; [now right|]. intros ->. contradiction.
    + intros [[E|I] Nx]; [congruence | exact I].
  - apply jseqb_neq in E. cbn [In]. rewrite IH. split.
    + intros [->|[I Nx]]; [split; [now left | exact E] | split; [now right | exact Nx]].
    + intros [[->|I] Nx]; [now left | right; now split].
Qed.

Lemma removeOne_NoDup k l : NoDup l -> NoDup (removeOne k l).
Proof.
  induction 1 as [|y l N D IH]; cbn [removeOne]; [constructor|].
  destruct (jseqb y k); [exact D|].
  constructor; [|exact IH]. intros I. apply removeOne_In in I; [|exact D].
  now destruct I.
Qed.

End Refs.

Section Protocol.

Variable rt : Runtime.

Lemma crimeStart_shape ids crime refs :
  let s := crimePopupStart rt ids crime refs in
  (exists sh ra, s = Finished (MkPopupResult refs sh ra))
  \/ (s = Waiting (MkBriefingRefs (briefingCache refs)
                     (setAdd (crimeCacheKey ids) (briefingLoading refs)))
      /\ mapGet (crimeCacheKey ids) (briefingCache refs) = None
      /\ setHas (crimeCacheKey ids) (briefingLoading refs) = false).
Proof.
  unfold crimePopupStart. cbv zeta.
  destruct (mapGet _ _) as [cached|].
  - left. destruct (createCrimePopupContent rt crime cached); eexists _, _; reflexivity.
  - destruct (setHas _ _) eqn:E.
    + left. eexists _, _. reflexivity.
    + right. now repeat split.
Qed.

Lemma stopSearchStart_shape ss lat lng refs :
  let s := stopSearchPopupStart rt ss lat lng refs in
  (exists sh ra, s = Finished (MkPopupResult refs sh ra))
  \/ (s = Waiting (MkBriefingRefs (briefingCache refs)
                     (setAdd (stopSearchCacheKey rt ss lat lng)
                        (briefingLoading refs)))
      /\ mapGet (stopSearchCacheKey rt ss lat lng) (briefingCache refs) = None
      /\ setHas (stopSearchCacheKey rt ss lat lng) (briefingLoading refs) = false).
Proof.
  unfold stopSearchPopupStart. cbv zeta.
  destruct (mapGet _ _) as [cached|].
  - left. eexists _, _. reflexivity.
  - destruct (setHas _ _) eqn:E.
    + left. eexists _, _. reflexivity.
    + right. now repeat split.
Qed.

(** How a handler leaves the refs once its briefing arrived. *)
Lemma crimeSettle_refs ids crime answer refs :
  refsAfter (crimePopupSettle rt ids crime answer refs)
  = MkBriefingRefs
      (match answer with
       | Return text =>
           mapSet (crimeCacheKey ids) (lineBreaks text) (briefingCache refs)
       | Throw _ => briefingCache refs
       end)
      (setDelete (crimeCacheKey ids) (briefingLoading refs)).
Proof.
  unfold crimePopupSettle. cbv zeta.
  destruct answer as [text|e].
  - destruct (createCrimePopupContent rt crime (lineBreaks text)); [reflexivity|].
    now destruct (createCrimePopupContent rt crime briefingErrorHtml).
  - now destruct (createCrimePopupContent rt crime briefingErrorHtml).
Qed.

Lemma stopSearchSettle_refs ss lat lng answer refs :
  refsAfter (stopSearchPopupSettle rt ss lat lng answer refs)
  = MkBriefingRefs
      (match answer with
       | Return text =>
           mapSet (stopSearchCacheKey rt ss lat lng) (lineBreaks text)
             (briefingCache refs)
       | Throw _ => briefingCache refs
       end)
      (setDelete (stopSearchCacheKey rt ss lat lng) (briefingLoading refs)).
Proof. unfold stopSearchPopupSettle. cbv zeta. now destruct answer. Qed.

Lemma opened_oneEach cacheKey s st :
  ((exists sh ra, s = Finished (MkPopupResult (refsNow st) sh ra))
   \/ (s = Waiting (MkBriefingRefs (briefingCache (refsNow st))
                      (setAdd cacheKey (briefingLoading (refsNow st))))
       /\ mapGet cacheKey (briefingCache (refsNow st)) = None
       /\ setHas cacheKey (briefingLoading (refsNow st)) = false)) ->
  oneEach st -> oneEach (afterStart cacheKey s st).
Proof.
  intros [(sh & ra & ->)|(-> & _ & F)] [N W]; unfold oneEach, afterStart; cbn.
  - split; [exact N | exact W].
  - apply setHas_false in F. split.
    + constructor; [|exact N]. now rewrite W.
    + intros k. rewrite setAdd_In, <- W. split; intros [E|I]; auto.
Qed.

Lemma opened_entries cacheKey s st seen e :
  ((exists sh ra, s = Finished (MkPopupResult (refsNow st) sh ra))
   \/ (s = Waiting (MkBriefingRefs (briefingCache (refsNow st))
                      (setAdd cacheKey (briefingLoading (refsNow st))))
       /\ mapGet cacheKey (briefingCache (refsNow st)) = None
       /\ setHas cacheKey (briefingLoading (refsNow st)) = false)) ->
  entriesArrived rt seen st -> entriesArrived rt (seen ++ [e]) (afterStart cacheKey s st).
Proof.
  intros S H k v G.
  assert (G' : mapGet k (briefingCache (refsNow st)) = Some v).
  { destruct S as [(sh & ra & ->)|(-> & _)]; exact G. }
  destruct (H k v G') as (e0 & text & I & A & E).
  exists e0, text. rewrite in_app_iff. auto.
Qed.

Lemma arrived_oneEach cacheKey cache st :
  oneEach st ->
  oneEach (MkMapState
             (MkBriefingRefs cache
                (setDelete cacheKey (briefingLoading (refsNow st))))
             (removeOne cacheKey (waiting st))).
Proof.
  intros [N W]. unfold oneEach. cbn. split.
  - now apply removeOne_NoDup.
  - intros k. rewrite (@removeOne_In cacheKey k _ N), setDelete_In, W. reflexivity.
Qed.

Lemma arrived_entries cacheKey answer st seen e :
  (forall text, answer = Return text -> arrivedFor rt cacheKey e = Some text) ->
  entriesArrived rt seen st ->
  entriesArrived rt (seen ++ [e])
    (MkMapState
       (MkBriefingRefs
          (match answer with
           | Return text => mapSet cacheKey (lineBreaks text)
                              (briefingCache (refsNow st))
           | Throw _ => briefingCache (refsNow st)
           end)
          (setDelete cacheKey (briefingLoading (refsNow st))))
       (removeOne cacheKey (waiting st))).
Proof.
  intros A H k v G. cbn in G.
  assert (Old : mapGet k (briefingCache (refsNow st)) = Some v ->
                exists e0 text, In e0 (seen ++ [e])
                                /\ arrivedFor rt k e0 = Some text
                                /\ v = lineBreaks text).
  { intros G'. destruct (H k v G') as (e0 & text & I & A0 & E).
    exists e0, text. rewrite in_app_iff. auto. }
  destruct answer as [text|err]; [|now apply Old].
  rewrite mapGet_mapSet in G. destruct (jseqb cacheKey k) eqn:E; [|now apply Old].
  apply jseqb_eq in E. subst k. injection G as <-.
  exists e, text. rewrite in_app_iff. cbn. split; [auto|]. split; [|reflexivity].
  now apply A.
Qed.

Lemma step_keeps st e st' seen :
  mapStep rt st e = Some st' ->
  oneEach st /\ entriesArrived rt seen st ->
  oneEach st' /\ entriesArrived rt (seen ++ [e]) st'.
Proof.
  intros S [I P]. destruct e as [ids crime|ids crime answer|ss lat lng|ss lat lng answer];
    cbn [mapStep] in S.
  - injection S as <-.
    pose proof (crimeStart_shape ids crime (refsNow st)) as Sh. cbv zeta in Sh.
    split; [now apply opened_oneEach | now apply opened_entries].
  - destruct (setHas _ _); [|discriminate]. injection S as <-.
    rewrite crimeSettle_refs. split; [now apply arrived_oneEach|].
    apply arrived_entries; [|exact P].
    intros text ->. cbn [arrivedFor]. now rewrite jseqb_refl.
  - injection S as <-.
    pose proof (stopSearchStart_shape ss lat lng (refsNow st)) as Sh.
    cbv zeta in Sh.
    split; [now apply opened_oneEach | now apply opened_entries].
  - destruct (setHas _ _); [|discriminate]. injection S as <-.
    rewrite stopSearchSettle_refs. split; [now apply arrived_oneEach|].
    apply arrived_entries; [|exact P].
    intros text ->. cbn [arrivedFor]. now rewrite jseqb_refl.
Qed.

Lemma run_none events :
  fold_left (fun acc e => match acc with
                          | Some st' => mapStep rt st' e
                          | None => None
                          end) events None = None.
Proof. induction events as [|e events IH]; [reflexivity | exact IH]. Qed.

Lemma run_keeps events st st' seen :
  mapRun rt st events = Some st' ->
  oneEach st /\ entriesArrived rt seen st ->
  oneEach st' /\ entriesArrived rt (seen ++ events) st'.
Proof.
  unfold mapRun. revert st seen.
  induction events as [|e events IH]; intros st seen R H; cbn [fold_left] in R.
  - injection R as <-. now rewrite app_nil_r.
  - destruct (mapStep rt st e) as [st1|] eqn:S; [|now rewrite run_none in R].
    replace (seen ++ e :: events) with ((seen ++ [e]) ++ events)
      by (now rewrite <- app_assoc).
    apply (IH st1 (seen ++ [e]) R). now apply (@step_keeps st e st1 seen S).
Qed.

End Protocol.

(** X12. However popups open and briefings arrive, starting from the
    empty cache: no incident has two briefings under way at once (the
    handlers that wait have distinct cache keys, which are exactly the
    keys of the loading set), and every entry of the cache is the text,
    with its line breaks replaced, of a briefing that arrived for that
    key, so a failed call is never cached. *)
Theorem briefing_cache_protocol (rt : Runtime) (events : list (MapEvent rt))
    (st : MapState) :
  mapRun rt initialMapState events = Some st ->
  NoDup (waiting st)
  /\ (forall k, In k (waiting st) <-> setHas k (briefingLoading (refsNow st)) = true)
  /\ (forall k v,
         mapGet k (briefingCache (refsNow st)) = Some v ->
         exists e text, In e events /\ arrivedFor rt k e = Some text
                        /\ v = lineBreaks text).
Proof.
  intros R.
  assert (H0 : oneEach initialMapState /\ entriesArrived rt [] initialMapState).
  { split; [split; [constructor | now intros k] | now intros k v]. }
  destruct (@run_keeps rt events initialMapState st [] R H0) as [[N W] P].
  split; [exact N | split; [|exact P]].
  intros k. now rewrite setHas_In.
Qed.

Lemma briefing_cache_protocol_witness :
  let events :=
    [ CrimePopupOpened sampleIds referenceCrime;
      CrimePopupOpened sampleIds referenceCrime;
      CrimeBriefingArrived sampleIds referenceCrime (Return (str "a" ++ [10%N] ++ str "b")) ] in
  mapRun Ideal.runtime initialMapState events
  = Some (MkMapState (MkBriefingRefs [(str "crime-1234", str "a<br/>b")] []) [])
  /\ exists e text,
       In e events /\ arrivedFor Ideal.runtime (str "crime-1234") e = Some text
       /\ str "a<br/>b" = lineBreaks text.
Proof.
  intros events.
  assert (R : mapRun Ideal.runtime initialMapState events
              = Some (MkMapState
                        (MkBriefingRefs [(str "crime-1234", str "a<br/>b")] []) []))
    by reflexivity.
  split; [exact R|].
  destruct (@briefing_cache_protocol Ideal.runtime events _ R) as (_ & _ & P).
  now apply P.
Defined.

(** X13. A briefing is fetched once.  When a popup opens for an incident
    that is neither cached nor being loaded, the handler makes the one
    call; if the call returns, its text is cached under the incident's
    key with the loading set as before, and opening the popup again,
    whatever the endpoint would answer, sends nothing and ends as the
    first time; if the call throws, the refs are back to what they were,
    so the next opening starts over.  The same for both kinds of popup. *)
Theorem briefing_fetched_once (rt : Runtime) (key : option jsstring)
    (allCrimes : list Crime) (allStopSearches : list StopSearch)
    (refs : BriefingRefs) (ep : Endpoint) (log : list Request) :
  (forall ids crime answer log1,
      mapGet (crimeCacheKey ids) (briefingCache refs) = None ->
      setHas (crimeCacheKey ids) (briefingLoading refs) = false ->
      generateIncidentBriefing rt key crime allCrimes allStopSearches ep log
      = (answer, log1) ->
      exists r1,
        crimePopupOpen rt key ids crime allCrimes allStopSearches refs ep log
        = (Return r1, log1)
        /\ match answer with
           | Return text =>
               briefingLoading (refsAfter r1) = briefingLoading refs
               /\ mapGet (crimeCacheKey ids) (briefingCache (refsAfter r1))
                  = Some (lineBreaks text)
               /\ forall ep' log',
                    crimePopupOpen rt key ids crime allCrimes allStopSearches
                      (refsAfter r1) ep' log'
                    = (Return r1, log')
           | Throw _ => refsAfter r1 = refs
           end)
  /\ (forall stopSearch lat lng answer log1,
         mapGet (stopSearchCacheKey rt stopSearch lat lng) (briefingCache refs)
         = None ->
         setHas (stopSearchCacheKey rt stopSearch lat lng) (briefingLoading refs)
         = false ->
         generateStopSearchBriefing rt key stopSearch allCrimes allStopSearches
           ep log
         = (answer, log1) ->
         exists r1,
           stopSearchPopupOpen rt key stopSearch lat lng allCrimes
             allStopSearches refs ep log
           = (Return r1, log1)
           /\ match answer with
              | Return text =>
                  briefingLoading (refsAfter r1) = briefingLoading refs
                  /\ mapGet (stopSearchCacheKey rt stopSearch lat lng)
                       (briefingCache (refsAfter r1))
                     = Some (lineBreaks text)
                  /\ forall ep' log',
                       stopSearchPopupOpen rt key stopSearch lat lng allCrimes
                         allStopSearches (refsAfter r1) ep' log'
                       = (Return r1, log')
              | Throw _ => refsAfter r1 = refs
              end).
Proof.
  split.
  - intros ids crime answer log1 C L G.
    unfold crimePopupOpen at 1. unfold crimePopupStart. cbv zeta.
    rewrite C, L, G. eexists. split; [reflexivity|].
    rewrite crimeSettle_refs. cbn [briefingCache briefingLoading].
    rewrite (setDelete_setAdd _ _ L).
    destruct answer as [text|e]; [|now destruct refs].
    split; [reflexivity|]. split; [now rewrite mapGet_mapSet, jseqb_refl|].
    intros ep' log'. unfold crimePopupOpen, crimePopupStart. cbv zeta.
    cbn [briefingCache]. rewrite mapGet_mapSet, jseqb_refl.
    unfold crimePopupSettle. cbv zeta. cbn [briefingCache briefingLoading].
    rewrite (setDelete_setAdd _ _ L).
    unfold createCrimePopupContent.
    now destruct (streetNameStrict (location crime)).
  - intros ss lat lng answer log1 C L G.
    unfold stopSearchPopupOpen at 1. unfold stopSearchPopupStart. cbv zeta.
    rewrite C, L, G. eexists. split; [reflexivity|].
    rewrite stopSearchSettle_refs. cbn [briefingCache briefingLoading].
    rewrite (setDelete_setAdd _ _ L).
    destruct answer as [text|e]; [|now destruct refs].
    split; [reflexivity|]. split; [now rewrite mapGet_mapSet, jseqb_refl|].
    intros ep' log'. unfold stopSearchPopupOpen, stopSearchPopupStart. cbv zeta.
    cbn [briefingCache]. rewrite mapGet_mapSet, jseqb_refl.
    unfold stopSearchPopupSettle. cbv zeta. cbn [briefingCache briefingLoading].
    now rewrite (setDelete_setAdd _ _ L).
Qed.

Lemma briefing_fetched_once_witness :
  let refs := MkBriefingRefs [] [] in
  mapGet (crimeCacheKey sampleIds) (briefingCache refs) = None
  /\ setHas (crimeCacheKey sampleIds) (briefingLoading refs) = false
  /\ exists r1,
       crimePopupOpen Ideal.runtime None sampleIds referenceCrime [] [] refs
         (answering (str "unused")) []
       = (Return r1, [])
       /\ mapGet (crimeCacheKey sampleIds) (briefingCache (refsAfter r1))
          = Some (lineBreaks unavailable).
Proof.
  intros refs. split; [reflexivity|]. split; [reflexivity|].
  destruct (briefing_fetched_once Ideal.runtime None [] [] refs
              (answering (str "unused")) []) as [C _].
  destruct (C sampleIds referenceCrime (Return unavailable) []
              eq_refl eq_refl eq_refl) as (r1 & E & _ & G & _).
  exists r1. now split.
Defined.

(** ** The sort state of the tables *)

Section Sorting.

Lemma stringLt_irrefl a : stringLt a a = false.
Proof.
  induction a as [|x a IH]; cbn; [reflexivity|].
  now rewrite N.ltb_irrefl.
Qed.

Lemma stringLt_asym a b : stringLt a b = true -> stringLt b a = false.
Proof.
  revert b. induction a as [|x a IH]; intros [|y b]; cbn; try easy.
  destruct (N.ltb_spec x y), (N.ltb_spec y x); try easy; try lia.
  apply IH.
Qed.

(** If [c < a] then [c < b] or [b < a]. *)
Lemma stringLt_between a b c :
  stringLt c a = true -> stringLt c b = true \/ stringLt b a = true.
Proof.
  revert b c. induction a as [|x a IH]; intros b c H.
  - now destruct c.
  - destruct c as [|z c].
    + destruct b as [|y b]; [right; reflexivity | left; reflexivity].
    + destruct b as [|y b]; [right; reflexivity|]. cbn in H |- *.
      destruct (N.ltb_spec z x) as [L1|L1].
      * destruct (N.ltb_spec z y), (N.ltb_spec y x), (N.ltb_spec y z),
          (N.ltb_spec x y); auto; lia.
      * destruct (N.ltb_spec x z) as [L2|L2]; [discriminate|].
        assert (z = x) by lia. subst z.
        destruct (N.ltb_spec x y), (N.ltb_spec y x); auto; try lia.
Qed.

Lemma numberLt_asym a b : numberLt a b = true -> numberLt b a = false.
Proof.
  destruct a as [x|], b as [y|]; cbn; try easy.
  rewrite Z.ltb_lt, Z.ltb_ge. lia.
Qed.

Lemma numberLt_between x y z :
  numberLt (Some z) (Some x) = true ->
  numberLt (Some z) (Some y) = true \/ numberLt (Some y) (Some x) = true.
Proof. cbn. rewrite !Z.ltb_lt. lia. Qed.

End Sorting.

(** X14. Clicking a column header.  The table is then sorted by that
    column; the first click on a column sorts it descending, and further
    clicks on the same column alternate between ascending and descending,
    so three clicks do what one does; the direction is never anything but
    'asc' or 'desc'.  Both tables behave alike. *)
Theorem sort_toggle (key : jsstring) (prev : SortConfig) :
  sortKey (handleCrimeSort key prev) = key
  /\ (sortKey prev <> key -> sortDirection (handleCrimeSort key prev) = str "desc")
  /\ sortDirection (handleCrimeSort key (handleCrimeSort key prev))
     <> sortDirection (handleCrimeSort key prev)
  /\ handleCrimeSort key (handleCrimeSort key (handleCrimeSort key prev))
     = handleCrimeSort key prev
  /\ (sortDirection (handleCrimeSort key prev) = str "asc"
      \/ sortDirection (handleCrimeSort key prev) = str "desc")
  /\ handleStopSearchSort key prev = handleCrimeSort key prev.
Proof.
  unfold handleStopSearchSort, handleCrimeSort. cbn [sortKey sortDirection].
  rewrite jseqb_refl. cbn [andb].
  split; [reflexivity|]. split; [|split; [|split; [|split]]].
  - intros N. apply jseqb_neq in N. now rewrite N.
  - destruct (jseqb (sortKey prev) key && _)%bool; discriminate.
  - destruct (jseqb (sortKey prev) key && _)%bool; reflexivity.
  - destruct (jseqb (sortKey prev) key && _)%bool; auto.
  - reflexivity.
Qed.

(** X15. The comparator the crime table is sorted with.  Swapping the
    two crimes negates the result, and so does switching between
    ascending and any other direction.  By category the comparator orders
    all crimes consistently, and by month all crimes whose month is a
    valid moment; a crime whose month is not compares as equal to every
    other. *)
Theorem crime_comparator (rt : Runtime) (cfg : SortConfig) (a b c : Crime) :
  compareCrimes rt cfg a b = (- compareCrimes rt cfg b a)%Z
  /\ (forall other,
         other <> str "asc" ->
         compareCrimes rt (MkSortConfig (sortKey cfg) other) a b
         = (- compareCrimes rt (MkSortConfig (sortKey cfg) (str "asc")) a b)%Z)
  /\ (sortKey cfg <> str "month"
      \/ (momentOf rt (month a) <> None /\ momentOf rt (month b) <> None
          /\ momentOf rt (month c) <> None) ->
      (compareCrimes rt cfg a b <= 0)%Z -> (compareCrimes rt cfg b c <= 0)%Z ->
      (compareCrimes rt cfg a c <= 0)%Z)
  /\ (sortKey cfg = str "month" -> momentOf rt (month a) = None ->
      compareCrimes rt cfg a b = 0%Z /\ compareCrimes rt cfg b a = 0%Z).
Proof.
  split; [|split; [|split]].
  - unfold compareCrimes. cbv zeta.
    destruct (jseqb (sortKey cfg) (str "month")).
    + destruct (numberLt (momentValue rt (month a)) (momentValue rt (month b))) eqn:L.
      * rewrite (numberLt_asym _ _ L).
        now destruct (jseqb (sortDirection cfg) (str "asc")).
      * destruct (numberLt (momentValue rt (month b)) (momentValue rt (month a)));
          now destruct (jseqb (sortDirection cfg) (str "asc")).
    + destruct (stringLt (category a) (category b)) eqn:L.
      * rewrite (stringLt_asym _ _ L).
        now destruct (jseqb (sortDirection cfg) (str "asc")).
      * destruct (stringLt (category b) (category a));
          now destruct (jseqb (sortDirection cfg) (str "asc")).
  - intros other N. apply jseqb_neq in N.
    unfold compareCrimes. cbv zeta. cbn [sortKey sortDirection]. rewrite N.
    change (jseqb (str "asc") (str "asc")) with true.
    destruct (jseqb (sortKey cfg) (str "month")).
    + now destruct
        (numberLt (momentValue rt (month a)) (momentValue rt (month b))),
        (numberLt (momentValue rt (month b)) (momentValue rt (month a))).
    + now destruct (stringLt (category a) (category b)),
        (stringLt (category b) (category a)).
  - intros V. unfold compareCrimes. cbv zeta.
    destruct (jseqb (sortKey cfg) (str "month")) eqn:K.
    + destruct V as [V|(Va & Vb & Vc)];
        [apply jseqb_eq in K; contradiction|].
      unfold momentValue.
      destruct (momentOf rt (month a)) as [ta|]; [|contradiction].
      destruct (momentOf rt (month b)) as [tb|]; [|contradiction].
      destruct (momentOf rt (month c)) as [tc|]; [|contradiction].
      cbn [numberLt].
      destruct (jseqb (sortDirection cfg) (str "asc"));
        destruct (Z.ltb_spec (Moment.valueOf ta) (Moment.valueOf tb)),
          (Z.ltb_spec (Moment.valueOf tb) (Moment.valueOf ta)),
          (Z.ltb_spec (Moment.valueOf tb) (Moment.valueOf tc)),
          (Z.ltb_spec (Moment.valueOf tc) (Moment.valueOf tb)),
          (Z.ltb_spec (Moment.valueOf ta) (Moment.valueOf tc)),
          (Z.ltb_spec (Moment.valueOf tc) (Moment.valueOf ta)); lia.
    + clear V.
      pose proof (stringLt_between (category a) (category b) (category c)) as B1.
      pose proof (stringLt_between (category c) (category b) (category a)) as B2.
      pose proof (stringLt_asym (category a) (category b)) as A1.
      pose proof (stringLt_asym (category b) (category c)) as A2.
      pose proof (stringLt_asym (category a) (category c)) as A3.
      pose proof (stringLt_asym (category b) (category a)) as A4.
      pose proof (stringLt_asym (category c) (category b)) as A5.
      pose proof (stringLt_asym (category c) (category a)) as A6.
      destruct (jseqb (sortDirection cfg) (str "asc"));
        destruct (stringLt (category a) (category b)),
          (stringLt (category b) (category a)),
          (stringLt (category b) (category c)),
          (stringLt (category c) (category b)),
          (stringLt (category a) (category c)),
          (stringLt (category c) (category a));
        intros; try lia;
        try (specialize (A1 eq_refl)); try (specialize (A2 eq_refl));
        try (specialize (A3 eq_refl)); try (specialize (A4 eq_refl));
        try (specialize (A5 eq_refl)); try (specialize (A6 eq_refl));
        try discriminate;
        try (destruct (B1 eq_refl); discriminate);
        try (destruct (B2 eq_refl); discriminate).
  - intros K E. unfold compareCrimes, momentValue. cbv zeta.
    rewrite K, E. change (jseqb (str "month") (str "month")) with true.
    destruct (momentOf rt (month b)); cbn [numberLt]; now split.
Qed.

Lemma crime_comparator_witness :
  momentOf Ideal.runtime (month candidateNear) <> None
  /\ momentOf Ideal.runtime (month referenceCrime) <> None
  /\ momentOf Ideal.runtime (month candidateOld) <> None
  /\ (compareCrimes Ideal.runtime initialCrimeSort candidateNear referenceCrime
      <= 0)%Z
  /\ (compareCrimes Ideal.runtime initialCrimeSort referenceCrime candidateOld
      <= 0)%Z
  /\ (compareCrimes Ideal.runtime initialCrimeSort candidateNear candidateOld
      <= 0)%Z.
Proof.
  assert (Va : momentOf Ideal.runtime (month candidateNear) <> None)
    by discriminate.
  assert (Vb : momentOf Ideal.runtime (month referenceCrime) <> None)
    by discriminate.
  assert (Vc : momentOf Ideal.runtime (month candidateOld) <> None)
    by discriminate.
  assert (AB : (compareCrimes Ideal.runtime initialCrimeSort candidateNear
                  referenceCrime <= 0)%Z) by (vm_compute; discriminate).
  assert (BC : (compareCrimes Ideal.runtime initialCrimeSort referenceCrime
                  candidateOld <= 0)%Z) by (vm_compute; discriminate).
  repeat (split; [assumption|]).
  destruct (crime_comparator Ideal.runtime initialCrimeSort candidateNear
              referenceCrime candidateOld) as (_ & _ & T & _).
  apply T; [right; now repeat split | exact AB | exact BC].
Defined.

(** ** The modal and late results *)



(** ** The heat map buttons *)

(** X17. The two heat maps are never visible together: from the initial
    state (density on, recency off) no sequence of clicks on the two
    buttons makes both visible, switching one on switches the other off,
    and the map then carries at most the layer whose button is on, and
    never an empty one. *)
Theorem heat_maps_exclusive (rt : Runtime) (clock : nat -> Moment.Civil)
    (crimes : list Crime) (clicks : list HeatClick) :
  let s := fold_left heatClick clicks initialHeatToggles in
  (isDensityHeatmapVisible s && isRecencyHeatmapVisible s)%bool = false
  /\ (isDensityHeatmapVisible (toggleDensity s) = true ->
      isRecencyHeatmapVisible (toggleDensity s) = false)
  /\ (isRecencyHeatmapVisible (toggleRecency s) = true ->
      isDensityHeatmapVisible (toggleRecency s) = false)
  /\ match updateHeatmaps rt clock crimes s with
     | DensityLayer heatData =>
         isDensityHeatmapVisible s = true /\ heatData <> []
         /\ heatData = densityHeatData rt crimes
     | RecencyLayer heatData =>
         isRecencyHeatmapVisible s = true /\ heatData <> []
         /\ heatData = recencyHeatData rt clock crimes
     | NoHeatLayer => True
     end.
Proof.
  intros s.
  assert (I : (isDensityHeatmapVisible s && isRecencyHeatmapVisible s)%bool = false).
  { unfold s. clear s.
    assert (G : forall s0,
               (isDensityHeatmapVisible s0 && isRecencyHeatmapVisible s0)%bool = false ->
               (isDensityHeatmapVisible (fold_left heatClick clicks s0)
                && isRecencyHeatmapVisible (fold_left heatClick clicks s0))%bool
               = false).
    { induction clicks as [|c clicks IH]; intros s0 H; [exact H|].
      cbn [fold_left]. apply IH.
      destruct s0 as [[|] [|]], c; try discriminate; reflexivity. }
    now apply G. }
  split; [exact I|]. split; [|split].
  - destruct s as [[|] [|]]; cbn; congruence.
  - destruct s as [[|] [|]]; cbn; congruence.
  - unfold updateHeatmaps. cbv zeta.
    destruct (isDensityHeatmapVisible s) eqn:D.
    + destruct (densityHeatData rt crimes) eqn:E; cbn; [exact Logic.I|].
      repeat split; congruence.
    + destruct (isRecencyHeatmapVisible s) eqn:R; [|exact Logic.I].
      destruct (recencyHeatData rt clock crimes) eqn:E; cbn; [exact Logic.I|].
      repeat split; congruence.
Qed.

(** ** Selecting a row or a marker *)

(** X18. After [handleItemSelection] a crime and a stop and search are
    never selected together.  Selecting a crime row stores the id that
    the row and its marker carry.  A call without an item clears both
    selections whatever its first argument is, and that is how a marker
    calls it: a click on a crime marker clears the selection and scrolls
    nowhere. *)
Theorem selection_exclusive (type : option jsstring) (item : option Item)
    (ids : CrimeIds) (crime : Crime) :
  (selectedCrimeId (fst (handleItemSelection type item)) = None
   \/ selectedStopSearch (fst (handleItemSelection type item)) = None)
  /\ handleItemSelection (Some (str "crime")) (Some (CrimeItem ids crime))
     = (MkSelection (Some (crimeRowId ids)) None, true)
  /\ handleItemSelection type None = (MkSelection None None, false)
  /\ markerClick ids = (MkSelection None None, false).
Proof.
  split; [|split; [|split]].
  - unfold handleItemSelection. cbn [fst].
    destruct type as [t|], item as [it|]; try (now left).
    destruct (jseqb t (str "crime")); [now right|].
    destruct (jseqb t (str "stopSearch")); now left.
  - reflexivity.
  - now destruct type.
  - reflexivity.
Qed.

(** ** The category filter and the features that read it *)

(** X19. The crimes the table, the map and the summaries work on are the
    crimes of the selected category, in their order; the selection 'all'
    keeps every crime.  When no crime has the selected category, with a
    key configured, the trend summary answers with its fixed sentence and
    the insights with the empty list, and neither sends a request. *)
Theorem category_filter (rt : Runtime) (key : option jsstring)
    (selectedCategory : jsstring) (allCrimes : list Crime)
    (ep : Endpoint) (log : list Request) :
  filterByCategory (str "all") allCrimes = allCrimes
  /\ subseq (filterByCategory selectedCategory allCrimes) allCrimes
  /\ (selectedCategory <> str "all" ->
      forall c, In c (filterByCategory selectedCategory allCrimes)
                <-> In c allCrimes /\ category c = selectedCategory)
  /\ (selectedCategory <> str "all" -> keyPresent key = true ->
      (forall c, In c allCrimes -> category c <> selectedCategory) ->
      summarizeCrimeTrends rt key (filterByCategory selectedCategory allCrimes)
        ep log
      = (Return (str "No crime data available to summarize."), log)
      /\ generateCrimeInsights rt key
           (filterByCategory selectedCategory allCrimes) ep log
         = (Return (JArr []), log)).
Proof.
  split; [reflexivity|]. split; [|split].
  - unfold filterByCategory. destruct (negb _).
    + apply filter_subseq.
    + clear. induction allCrimes as [|c l IH];
        [apply subseq_nil | now apply subseq_keep].
  - intros N c. unfold filterByCategory. apply jseqb_neq in N. rewrite N.
    cbn [negb]. rewrite filter_In. split; intros [I E]; split; auto.
    + now apply jseqb_eq.
    + subst. apply jseqb_refl.
  - intros N K E. unfold filterByCategory. apply jseqb_neq in N. rewrite N.
    cbn [negb].
    assert (F : filter (fun crime => jseqb (category crime) selectedCategory)
                  allCrimes = []).
    { clear - E. induction allCrimes as [|c l IH]; [reflexivity|].
      cbn [filter].
      assert (N : jseqb (category c) selectedCategory = false)
        by (apply jseqb_neq, E; now left).
      rewrite N.
      apply IH. intros c' I. apply E. now right. }
    rewrite F. destruct (ai_present key K) as (client & A).
    unfold summarizeCrimeTrends, generateCrimeInsights. now rewrite A.
Qed.

Lemma category_filter_witness :
  str "robbery" <> str "all"
  /\ keyPresent (Some (str "key")) = true
  /\ summarizeCrimeTrends Ideal.runtime (Some (str "key"))
       (filterByCategory (str "robbery") [streetlessCrime])
       (answering (str "unused")) []
     = (Return (str "No crime data available to summarize."), []).
Proof.
  split; [discriminate|]. split; [reflexivity|].
  destruct (category_filter Ideal.runtime (Some (str "key")) (str "robbery")
              [streetlessCrime] (answering (str "unused")) [])
    as (_ & _ & _ & S).
  apply S; [discriminate | reflexivity |].
  intros c [<-|[]]. discriminate.
Defined.
